(** * A WebSocket signalling relay: frame codec, handshake key, room registry

    Shallow embedding of [signaling_server.py] (classes [WebSocketFrame] and
    [SignalingServer]).

    - Python [bytes] are lists of [byte]; Python integers are [Z] (they are
      unbounded, so no wrap-around is written except inside SHA-1).
    - Python [str] is a list of Unicode code points.
    - A function that can raise returns [option] (or an outcome type that
      names the exception); [parse] returns [None] exactly where the source
      returns [None]. *)

From Stdlib Require Import ZArith List Lia Bool SpecFloat.
From Stdlib.Strings Require Import Byte String.
From Stdlib Require DecimalString.
From stdpp Require Import base option list gmap.

Local Open Scope Z_scope.
Local Set Warnings "-register-all".

(** ** Bytes and integers *)

Abbreviation bytes := (list byte).

(** A Python [str]: a sequence of code points. *)
Abbreviation str := (list Z).

Definition byte_val (b : byte) : Z := Z.of_N (Byte.to_N b).

(** [bytearray.append(z)] and [bytes([z])] raise [ValueError] unless
    [0 <= z < 256]. *)
Definition byte_of (z : Z) : option byte :=
  if 0 <=? z then Byte.of_N (Z.to_N z) else None.

(** The byte whose value is [z mod 256]. *)
Definition byte_mod (z : Z) : byte :=
  default x00 (byte_of (z mod 256)).

(** [len(data)] as a Python integer. *)
Definition len {A} (l : list A) : Z := Z.of_nat (length l).

(** [data[a:b]] for [0 <= a <= b]. *)
Definition slice {A} (a b : Z) (l : list A) : list A :=
  take (Z.to_nat (b - a)) (drop (Z.to_nat a) l).

(** [data[a:]] for [0 <= a]. *)
Definition slice_from {A} (a : Z) (l : list A) : list A :=
  drop (Z.to_nat a) l.

(** [struct.unpack('>H', bs)[0]] and [struct.unpack('>Q', bs)[0]]: the
    big-endian unsigned value of a byte string. *)
Definition be_uint (bs : bytes) : Z :=
  fold_left (fun acc b => acc * 256 + byte_val b) bs 0.

Fixpoint be_digits (width : nat) (n : Z) : bytes :=
  match width with
  | O => []
  | S w => be_digits w (n / 256) ++ [byte_mod n]
  end.

(** [struct.pack('>H', n)] ([width = 2]) and [struct.pack('>Q', n)]
    ([width = 8]); [struct.error] when [n] does not fit. *)
Definition pack_be (width : nat) (n : Z) : option bytes :=
  if (0 <=? n) && (n <? 256 ^ Z.of_nat width)
  then Some (be_digits width n) else None.

(** ** UTF-8 *)

Definition is_cont (x : Z) : bool := (128 <=? x) && (x <=? 191).

Definition in_range (lo hi x : Z) : bool := (lo <=? x) && (x <=? hi).

(** [bs.decode('utf-8')] with the default strict error handler:
    [None] is [UnicodeDecodeError]. Overlong forms, surrogates and code
    points above U+10FFFF are rejected. *)
Fixpoint utf8_decode (bs : bytes) : option str :=
  match bs with
  | [] => Some []
  | b0 :: r0 =>
    let x0 := byte_val b0 in
    if x0 <? 128 then cons x0 <$> utf8_decode r0
    else if in_range 194 223 x0 then
      match r0 with
      | b1 :: r1 =>
        let x1 := byte_val b1 in
        if is_cont x1
        then cons ((x0 - 192) * 64 + (x1 - 128)) <$> utf8_decode r1
        else None
      | _ => None
      end
    else if in_range 224 239 x0 then
      match r0 with
      | b1 :: b2 :: r2 =>
        let x1 := byte_val b1 in
        let x2 := byte_val b2 in
        let lo1 := if x0 =? 224 then 160 else 128 in
        let hi1 := if x0 =? 237 then 159 else 191 in
        if in_range lo1 hi1 x1 && is_cont x2
        then cons ((x0 - 224) * 4096 + (x1 - 128) * 64 + (x2 - 128))
               <$> utf8_decode r2
        else None
      | _ => None
      end
    else if in_range 240 244 x0 then
      match r0 with
      | b1 :: b2 :: b3 :: r3 =>
        let x1 := byte_val b1 in
        let x2 := byte_val b2 in
        let x3 := byte_val b3 in
        let lo1 := if x0 =? 240 then 144 else 128 in
        let hi1 := if x0 =? 244 then 143 else 191 in
        if in_range lo1 hi1 x1 && is_cont x2 && is_cont x3
        then cons ((x0 - 240) * 262144 + (x1 - 128) * 4096
                   + (x2 - 128) * 64 + (x3 - 128))
               <$> utf8_decode r3
        else None
      | _ => None
      end
    else None
  end.

(** The UTF-8 encoding of one code point; [None] is [UnicodeEncodeError]
    (a surrogate) or a value that is no code point. *)
Definition utf8_encode_cp (c : Z) : option bytes :=
  if c <? 0 then None
  else if c <? 128 then Some [byte_mod c]
  else if c <? 2048 then
    Some [byte_mod (192 + c / 64); byte_mod (128 + c mod 64)]
  else if c <? 65536 then
    if in_range 55296 57343 c then None
    else Some [byte_mod (224 + c / 4096);
               byte_mod (128 + (c / 64) mod 64);
               byte_mod (128 + c mod 64)]
  else if c <? 1114112 then
    Some [byte_mod (240 + c / 262144);
          byte_mod (128 + (c / 4096) mod 64);
          byte_mod (128 + (c / 64) mod 64);
          byte_mod (128 + c mod 64)]
  else None.

(** [s.encode('utf-8')] (also plain [s.encode()]). *)
Fixpoint utf8_encode (s : str) : option bytes :=
  match s with
  | [] => Some []
  | c :: r =>
    match utf8_encode_cp c, utf8_encode r with
    | Some a, Some b => Some (a ++ b)
    | _, _ => None
    end
  end.

(** A string literal of the source, as code points. *)
Definition lit (s : String.string) : str :=
  map byte_val (String.list_byte_of_string s).

(** ** The frame codec: class [WebSocketFrame] *)

Module WebSocketFrame.

(** The dictionary returned by [parse], with its four keys
    ['fin'], ['opcode'], ['payload'] and ['length']. *)
Record frame := Frame {
  fin : Z;
  opcode : Z;
  payload : bytes;
  frame_length : Z
}.

(** The list comprehension
    [bytes([payload[i] ^ mask_key[i % 4] for i in range(len(payload))])]. *)
Definition unmask (mask_key payload : bytes) : bytes :=
  imap (fun i b =>
          byte_mod (Z.lxor (byte_val b)
                      (byte_val (nth (i mod 4)%nat mask_key x00))))
       payload.

(** [parse(data)]; [None] is the source's [return None]. *)
Definition parse (data : bytes) : option frame :=
  if len data <? 2 then None else
  match data with
  | b1 :: b2 :: _ =>
    let byte1 := byte_val b1 in
    let byte2 := byte_val b2 in
    let fin := Z.shiftr (Z.land byte1 128) 7 in
    let opcode := Z.land byte1 15 in
    let masked := Z.shiftr (Z.land byte2 128) 7 in
    let payload_len := Z.land byte2 127 in
    let offset := 2 in
    (* Extended payload length *)
    '(payload_len, offset) ←
      (if payload_len =? 126 then
         if len data <? 4 then None
         else Some (be_uint (slice 2 4 data), 4)
       else if payload_len =? 127 then
         if len data <? 10 then None
         else Some (be_uint (slice 2 10 data), 10)
       else Some (payload_len, offset));
    (* Masking key *)
    '(mask_key, offset) ←
      (if masked =? 0 then Some (None, offset)
       else if len data <? offset + 4 then None
       else Some (Some (slice offset (offset + 4) data), offset + 4));
    (* Payload *)
    if len data <? offset + payload_len then None else
    let payload := slice offset (offset + payload_len) data in
    (* Unmask if needed *)
    let payload :=
      match mask_key with
      | Some k =>
        if negb (masked =? 0) && negb (bool_decide (k = []))
        then unmask k payload else payload
      | None => payload
      end in
    Some {| fin := fin; opcode := opcode; payload := payload;
            frame_length := offset + payload_len |}
  | _ => None
  end.

(** The [payload] argument of [build]: a [str] or a byte string. *)
Inductive payload_arg :=
| Str (s : str)
| Bytes (b : bytes).

(** [build(payload, opcode)]; [None] when the source raises
    ([ValueError] from [bytearray.append], [struct.error] from
    [struct.pack], [UnicodeEncodeError] from [encode]). *)
Definition build (payload : payload_arg) (opcode : Z) : option bytes :=
  payload ← match payload with
            | Str s => utf8_encode s
            | Bytes b => Some b
            end;
  b0 ← byte_of (Z.lor 128 opcode);  (* FIN=1, opcode *)
  let payload_len := len payload in
  hdr ← (if payload_len <? 126 then
           b ← byte_of payload_len; Some [b]
         else if payload_len <? 65536 then
           e ← pack_be 2 payload_len; Some (byte_mod 126 :: e)
         else
           e ← pack_be 8 payload_len; Some (byte_mod 127 :: e));
  Some (b0 :: hdr ++ payload).

End WebSocketFrame.

Import WebSocketFrame.

(** ** SHA-1 and base64, as used by [generate_accept_key]

    [hashlib.sha1] and [base64.b64encode] are library functions; they are
    written out here (FIPS 180-4 and RFC 4648) so that the accept key can be
    evaluated. Words are 32-bit: every sum is reduced modulo [2^32]. *)

Module SHA1.

Definition mask32 (x : Z) : Z := x mod 2 ^ 32.

Definition add32 (x y : Z) : Z := mask32 (x + y).

Definition rotl (n x : Z) : Z :=
  mask32 (Z.lor (Z.shiftl x n) (Z.shiftr x (32 - n))).

Definition lnot32 (x : Z) : Z := Z.lxor x (2 ^ 32 - 1).

(** The message followed by [0x80], zero bytes up to 56 modulo 64, and the
    bit length as a 64-bit big-endian integer. *)
Definition pad (msg : bytes) : bytes :=
  let n := len msg in
  let zeros := Z.to_nat ((55 - n) mod 64) in
  msg ++ [x80] ++ repeat x00 zeros ++ be_digits 8 (8 * n).

Fixpoint words (n : nat) (bs : bytes) : list Z :=
  match n with
  | O => []
  | S n' => be_uint (take 4 bs) :: words n' (drop 4 bs)
  end.

(** The 80-word message schedule, built on the reversed list. *)
Fixpoint schedule (n : nat) (rev_w : list Z) : list Z :=
  match n with
  | O => rev rev_w
  | S n' =>
    let x := Z.lxor (Z.lxor (Z.lxor (nth 2 rev_w 0) (nth 7 rev_w 0))
                       (nth 13 rev_w 0)) (nth 15 rev_w 0) in
    schedule n' (rotl 1 x :: rev_w)
  end.

Definition state : Type := Z * Z * Z * Z * Z.

Definition round (st : state) (tw : nat * Z) : state :=
  let '(a, b, c, d, e) := st in
  let '(t, w) := tw in
  let '(f, k) :=
    if (t <? 20)%nat then
      (Z.lor (Z.land b c) (Z.land (lnot32 b) d), 1518500249)
    else if (t <? 40)%nat then
      (Z.lxor (Z.lxor b c) d, 1859775393)
    else if (t <? 60)%nat then
      (Z.lor (Z.lor (Z.land b c) (Z.land b d)) (Z.land c d), 2400959708)
    else
      (Z.lxor (Z.lxor b c) d, 3395469782) in
  let temp := add32 (add32 (add32 (add32 (rotl 5 a) f) e) k) w in
  (temp, a, rotl 30 b, c, d).

Definition compress (h : state) (block : bytes) : state :=
  let w := schedule 64 (rev (words 16 block)) in
  let '(a, b, c, d, e) := fold_left round (imap (fun t x => (t, x)) w) h in
  let '(h0, h1, h2, h3, h4) := h in
  (add32 h0 a, add32 h1 b, add32 h2 c, add32 h3 d, add32 h4 e).

Fixpoint blocks (n : nat) (h : state) (bs : bytes) : state :=
  match n with
  | O => h
  | S n' => blocks n' (compress h (take 64 bs)) (drop 64 bs)
  end.

Definition init : state :=
  (1732584193, 4023233417, 2562383102, 271733878, 3285377520).

(** [hashlib.sha1(msg).digest()]: 20 bytes. *)
Definition digest (msg : bytes) : bytes :=
  let p := pad msg in
  let '(h0, h1, h2, h3, h4) := blocks (length p / 64) init p in
  be_digits 4 h0 ++ be_digits 4 h1 ++ be_digits 4 h2
    ++ be_digits 4 h3 ++ be_digits 4 h4.

End SHA1.

Module Base64.

Definition alphabet : bytes :=
  String.list_byte_of_string
    "ABCDEFGHIJKLMNOPQRSTUVWXYZabcdefghijklmnopqrstuvwxyz0123456789+/".

Definition char (i : Z) : byte := nth (Z.to_nat (i mod 64)) alphabet x00.

(** [base64.b64encode(bs)]: three bytes give four characters, the last
    group is padded with [=]. *)
Fixpoint b64encode (bs : bytes) : bytes :=
  match bs with
  | [] => []
  | [a] =>
    let n := byte_val a * 65536 in
    [char (n / 262144); char (n / 4096); x3d; x3d]
  | [a; b] =>
    let n := byte_val a * 65536 + byte_val b * 256 in
    [char (n / 262144); char (n / 4096); char (n / 64); x3d]
  | a :: b :: c :: r =>
    let n := byte_val a * 65536 + byte_val b * 256 + byte_val c in
    char (n / 262144) :: char (n / 4096) :: char (n / 64) :: char n
      :: b64encode r
  end.

End Base64.

(** ** Decoded JSON values

    [json.loads] and [json.dumps] are library functions and stay parameters
    of the server model below; this is the type of the values they exchange
    with [handle_message]. Objects keep their fields in order. *)

Inductive json :=
| JNull
| JBool (b : bool)
| JInt (n : Z)
| JFloat (f : spec_float)
| JStr (s : str)
| JArr (items : list json)
| JObj (fields : list (str * json)).

(** The outcome of [json.loads(message)]. *)
Inductive loads_result :=
| Loaded (data : json)
| JSONDecodeError
| LoadsRaised.   (* any other exception, e.g. RecursionError *)

Fixpoint assoc (k : str) (fields : list (str * json)) : option json :=
  match fields with
  | [] => None
  | (k', v) :: rest => if bool_decide (k' = k) then Some v else assoc k rest
  end.

(** [data.get(k)]: the outer [None] is the [AttributeError] raised when
    [data] is not a dictionary, the inner [None] an absent key. *)
Definition dict_get (data : json) (k : str) : option (option json) :=
  match data with
  | JObj fields => Some (assoc k fields)
  | _ => None
  end.

(** [v == s] for a string literal [s]. *)
Definition is_str (v : option json) (s : str) : bool :=
  match v with
  | Some (JStr t) => bool_decide (t = s)
  | _ => false
  end.

(** *** Dictionary keys

    A room identifier is whatever value the message carries. As a key of
    [self.rooms] it is compared with Python equality, under which
    [True == 1 == 1.0] and [0 == 0.0 == -0.0 == False]; lists and
    dictionaries are unhashable. [json.loads] returns one and the same
    object for every [NaN], which a dictionary finds by identity.
    [pykey] has one value per class of keys that select the same entry. *)

Inductive pykey :=
| KNone
| KInt (n : Z)
| KFrac (neg : bool) (m : positive) (e : Z)  (* m odd, e < 0: m * 2^e *)
| KInf (neg : bool)
| KNan
| KStr (s : str).

#[global] Instance pykey_eq_dec : EqDecision pykey.
Proof. solve_decision. Defined.

#[global] Program Instance pykey_countable : Countable pykey :=
  inj_countable'
    (fun k => match k with
              | KNone => inl (inl ())
              | KInt n => inl (inr n)
              | KFrac s m e => inr (inl (s, m, e))
              | KInf s => inr (inr (inl s))
              | KNan => inr (inr (inr (inl ())))
              | KStr s => inr (inr (inr (inr s)))
              end)
    (fun x => match x with
              | inl (inl ()) => KNone
              | inl (inr n) => KInt n
              | inr (inl (s, m, e)) => KFrac s m e
              | inr (inr (inl s)) => KInf s
              | inr (inr (inr (inl ()))) => KNan
              | inr (inr (inr (inr s))) => KStr s
              end) _.
Next Obligation. by intros []. Qed.

(** Halve an even mantissa while the exponent is negative. *)
Fixpoint reduce_frac (m : positive) (e : Z) : positive * Z :=
  match m with
  | xO m' => if e <? 0 then reduce_frac m' (e + 1) else (m, e)
  | _ => (m, e)
  end.

Definition float_key (f : spec_float) : pykey :=
  match f with
  | S754_zero _ => KInt 0
  | S754_infinity s => KInf s
  | S754_nan => KNan
  | S754_finite s m e =>
    let '(m', e') := reduce_frac m e in
    if 0 <=? e'
    then KInt ((if s then -1 else 1) * (Z.pos m' * 2 ^ e'))
    else KFrac s m' e'
  end.

(** [hash(v)] succeeds ([Some]) or raises [TypeError] ([None]). *)
Definition as_key (v : json) : option pykey :=
  match v with
  | JNull => Some KNone
  | JBool b => Some (KInt (if b then 1 else 0))
  | JInt n => Some (KInt n)
  | JFloat f => Some (float_key f)
  | JStr s => Some (KStr s)
  | JArr _ | JObj _ => None
  end.

(** ** Python sets

    A set object is the list of its elements, without repetition, in the
    order in which iteration visits them. Python leaves that order
    unspecified; nothing below depends on it beyond membership. *)

Section PySet.
Context {A : Type} `{EqDecision A}.

Definition set_add (x : A) (l : list A) : list A :=
  if decide (x ∈ l) then l else l ++ [x].

Definition set_discard (x : A) (l : list A) : list A :=
  filter (fun y => y ≠ x) l.

End PySet.

(** ** Server state and observable effects *)

(** A connection is its [StreamWriter] object, hashed by identity. *)
Abbreviation conn := nat.

(** The dictionary stored in [self.clients[websocket]]. *)
Record client_info := ClientInfo {
  ci_id : nat;
  ci_reader : conn;
  ci_writer : conn;
  ci_rooms : list pykey
}.

Record server := Server {
  clients : gmap conn client_info;     (* websocket -> client_info *)
  rooms : gmap pykey (list conn)       (* room_id -> set of websockets *)
}.

Definition empty_server : server := {| clients := ∅; rooms := ∅ |}.

Inductive log :=
| LogEstablished
| LogJoined (room_id : pykey)
| LogInvalidJSON
| LogErrorHandlingMessage
| LogErrorSending
| LogErrorBroadcasting
| LogErrorHandlingClient
| LogDisconnected.

Inductive event :=
| Wrote (c : conn) (data : bytes)   (* c.write(data); await c.drain() *)
| Closed (c : conn)                  (* c.close(); await c.wait_closed() *)
| Printed (m : log)
| Parsed (f : frame).   (* ghost: the read loop took [f] off its buffer *)

(** The exceptions that can leave a call of the model. *)
Inductive exn :=
| UnicodeError      (* UnicodeDecodeError, UnicodeEncodeError *)
| StructError       (* struct.error *)
| RuntimeError      (* Set changed size during iteration *)
| ConnectionError.  (* the socket failed *)

(** How a call ends. *)
Inductive ended :=
| Returned
| Raised (e : exn)
| OutOfFuel.

(** *** Registry updates *)

(** [handle_message], the three statements that update the registries on
    a join. The flag is [false] when [self.clients[websocket]] raises
    [KeyError]; the room registry has been updated by then. *)
Definition join_room (s : server) (room_id : pykey) (websocket : conn)
  : server * bool :=
  let rooms1 :=
    match rooms s !! room_id with
    | None => <[room_id := []]> (rooms s)
    | Some _ => rooms s
    end in
  let rooms2 := alter (set_add websocket) room_id rooms1 in
  match clients s !! websocket with
  | None => ({| clients := clients s; rooms := rooms2 |}, false)
  | Some info =>
    let info' := {| ci_id := ci_id info; ci_reader := ci_reader info;
                    ci_writer := ci_writer info;
                    ci_rooms := set_add room_id (ci_rooms info) |} in
    ({| clients := <[websocket := info']> (clients s); rooms := rooms2 |},
     true)
  end.

(** [close_connection], the body of its [for room_id in
    client_info['rooms']] loop. *)
Definition leave_room (websocket : conn) (rs : gmap pykey (list conn))
    (room_id : pykey) : gmap pykey (list conn) :=
  match rs !! room_id with
  | Some members =>
    let members' := set_discard websocket members in
    if bool_decide (members' = []) then delete room_id rs
    else <[room_id := members']> rs
  | None => rs
  end.

(** [close_connection] up to its first [await]: both registries are
    updated without suspension. [None] when the connection is not
    registered. *)
Definition unregister (s : server) (websocket : conn) : option server :=
  match clients s !! websocket with
  | None => None
  | Some client_info =>
    Some {| clients := delete websocket (clients s);
            rooms := foldl (leave_room websocket) (rooms s)
                       (ci_rooms client_info) |}
  end.

(** [handle_client], the statement that stores the client record. *)
Definition store_client (s : server) (websocket : conn) : server :=
  {| clients := <[websocket := {| ci_id := websocket;
                                  ci_reader := websocket;
                                  ci_writer := websocket;
                                  ci_rooms := [] |}]> (clients s);
     rooms := rooms s |}.

(** *** Cooperative scheduling

    Every [await] of a socket operation is a point where other connection
    tasks may run. What they can do to the registries, each without
    suspension of its own: *)
Inductive action :=
| ARegister (c : conn)
| AJoin (c : conn) (room_id : pykey)
| AClose (c : conn).

Definition apply_action (s : server) (a : action) : server :=
  match a with
  | ARegister c => store_client s c
  | AJoin c room_id => fst (join_room s room_id c)
  | AClose c => default s (unregister s c)
  end.

(** A schedule lists, for each suspension of the call under study in turn,
    the actions other tasks perform before the call resumes. The empty
    schedule is an uninterrupted run. The suspensions followed are those
    of a broadcast whose send succeeds; the registries are updated before
    any other [await] of a handler. *)
Abbreviation schedule := (list (list action)).

(** *** Iterating a live set

    [for client_ws in self.rooms[room_id]] evaluates [self.rooms[room_id]]
    once and iterates that set object. The iterator records the size of the
    set at creation and its position; every [next] first compares the
    recorded size with the current size of the object and raises
    [RuntimeError] when they differ.

    [si_live] tells whether the iterated object is still the one bound in
    [self.rooms]: a room entry is only ever removed by [close_connection],
    when its set is empty, and a later join binds a new object.

    The position is an index into the list that stands for the set. After
    a change that leaves the size as it was, CPython goes on from a slot
    of its hash table, which need not be that index: which member comes
    next is then not determined by this model, and no property below is
    about it. *)
Record set_iter := SetIter {
  si_live : bool;
  si_used : nat;
  si_pos : nat
}.

Definition iter_target (s : server) (room_id : pykey) (it : set_iter)
  : list conn :=
  if si_live it then default [] (rooms s !! room_id) else [].

Inductive next_result :=
| NextItem (c : conn) (it : set_iter)
| StopIteration
| NextRuntimeError.

Definition set_iter_next (target : list conn) (it : set_iter) : next_result :=
  if bool_decide (length target ≠ si_used it) then NextRuntimeError
  else match target !! si_pos it with
       | Some c => NextItem c {| si_live := si_live it;
                                 si_used := si_used it;
                                 si_pos := S (si_pos it) |}
       | None => StopIteration
       end.

Fixpoint interfere (room_id : pykey) (acts : list action)
    (s : server) (it : set_iter) : server * set_iter :=
  match acts with
  | [] => (s, it)
  | a :: rest =>
    let s' := apply_action s a in
    let live := si_live it && bool_decide (is_Some (rooms s' !! room_id)) in
    interfere room_id rest s'
      {| si_live := live; si_used := si_used it; si_pos := si_pos it |}
  end.

(** ** The message router and the connection loop: class [SignalingServer] *)

Section SignalingServer.

(** [json.loads] and [json.dumps]. *)
Variable json_loads : str → loads_result.
Variable json_dumps : json → str.

(** Whether [c.write(data)] followed by [await c.drain()] raises. *)
Variable write_raises : conn → bool.

(** [generate_accept_key(key)]; [None] when an [encode] or [decode]
    raises. *)
Definition generate_accept_key (key : str) : option str :=
  let magic := lit "258EAFA5-E914-47DA-95CA-C5AB0DC85B11" in
  b ← utf8_encode (key ++ magic);
  let sha1 := SHA1.digest b in
  utf8_decode (Base64.b64encode sha1).

(** [send_to_client(websocket, data)]: every exception is caught and
    reported. *)
Definition send_to_client (websocket : conn) (data : json) : list event :=
  let message := json_dumps data in
  match build (Str message) 1 with
  | None => [Printed LogErrorSending]
  | Some frame =>
    if write_raises websocket
    then [Wrote websocket frame; Printed LogErrorSending]
    else [Wrote websocket frame]
  end.

(** The [for] loop of [broadcast_to_room]. One unit of fuel is spent per
    call of [next] on the iterator; [broadcast_to_room] supplies enough. *)
Fixpoint broadcast_loop (fuel : nat) (sched : schedule) (s : server)
    (room_id : pykey) (frame : bytes) (exclude : option conn)
    (it : set_iter) : server * list event * ended :=
  match fuel with
  | O => (s, [], OutOfFuel)
  | S fuel' =>
    match set_iter_next (iter_target s room_id it) it with
    | NextRuntimeError => (s, [], Raised RuntimeError)
    | StopIteration => (s, [], Returned)
    | NextItem client_ws it' =>
      if bool_decide (Some client_ws ≠ exclude)
         && bool_decide (is_Some (clients s !! client_ws))
      then
        if write_raises client_ws then
          (* write() raised: reported, no suspension *)
          let '(s2, evs2, r) :=
            broadcast_loop fuel' sched s room_id frame exclude it' in
          (s2, Wrote client_ws frame :: Printed LogErrorBroadcasting :: evs2,
           r)
        else
          (* suspended in drain(): other tasks run *)
          let '(s1, it1) := interfere room_id (hd [] sched) s it' in
          let '(s2, evs2, r) :=
            broadcast_loop fuel' (tl sched) s1 room_id frame exclude it1 in
          (s2, Wrote client_ws frame :: evs2, r)
      else broadcast_loop fuel' sched s room_id frame exclude it'
    end
  end.

(** [broadcast_to_room(room_id, data, exclude)]. *)
Definition broadcast_to_room (sched : schedule) (s : server)
    (room_id : pykey) (data : json) (exclude : option conn)
  : server * list event * ended :=
  match rooms s !! room_id with
  | None => (s, [], Returned)
  | Some members =>
    let message := json_dumps data in
    match build (Str message) 1 with
    | None => (s, [], Raised UnicodeError)
    | Some frame =>
      broadcast_loop (S (length members)) sched s room_id frame exclude
        {| si_live := true; si_used := length members; si_pos := 0 |}
    end
  end.

(** [data.get('room', 'default')]. *)
Definition room_of (fields : option json) : json :=
  default (JStr (lit "default")) fields.

(** Whether the [print] of the line [Client joined room: {room_id}]
    raises. Standard output is UTF-8 and strict: a string that holds a
    lone surrogate cannot be encoded ([UnicodeEncodeError]) and nothing is
    printed; every other room identifier prints. *)
Definition print_raises (room : json) : bool :=
  match room with
  | JStr s => match utf8_encode s with Some _ => false | None => true end
  | _ => false
  end.

(** [handle_message(websocket, message)]. Both [except] clauses only
    print, so the call always returns. *)
Definition handle_message (sched : schedule) (s : server)
    (websocket : conn) (message : str) : server * list event :=
  match json_loads message with
  | JSONDecodeError => (s, [Printed LogInvalidJSON])
  | LoadsRaised => (s, [Printed LogErrorHandlingMessage])
  | Loaded data =>
    match dict_get data (lit "type") with
    | None => (s, [Printed LogErrorHandlingMessage])
    | Some msg_type =>
      if is_str msg_type (lit "join") then
        (* Join a room *)
        let room := room_of (default None (dict_get data (lit "room"))) in
        match as_key room with
        | None => (s, [Printed LogErrorHandlingMessage])
        | Some room_id =>
          match join_room s room_id websocket with
          | (s', false) => (s', [Printed LogErrorHandlingMessage])
          | (s', true) =>
            if print_raises room then
              (* the print raised: no confirmation is sent *)
              (s', [Printed LogErrorHandlingMessage])
            else
              (s', Printed (LogJoined room_id)
                   :: send_to_client websocket
                        (JObj [(lit "type", JStr (lit "joined"));
                               (lit "room", room)]))
          end
        end
      else if is_str msg_type (lit "presence")
              || is_str msg_type (lit "offer")
              || is_str msg_type (lit "answer")
              || is_str msg_type (lit "ice-candidate") then
        (* Broadcast to room *)
        let room := room_of (default None (dict_get data (lit "room"))) in
        match as_key room with
        | None => (s, [Printed LogErrorHandlingMessage])
        | Some room_id =>
          if bool_decide (is_Some (rooms s !! room_id)) then
            match broadcast_to_room sched s room_id data (Some websocket)
            with
            | (s', evs, Returned) => (s', evs)
            | (s', evs, _) => (s', evs ++ [Printed LogErrorHandlingMessage])
            end
          else (s, [])
        end
      else (s, [])
    end
  end.

(** [close_connection(websocket)]. *)
Definition close_connection (s : server) (websocket : conn)
  : server * list event :=
  match unregister s websocket with
  | None => (s, [])
  | Some s' => (s', [Closed websocket; Printed LogDisconnected])
  end.

(** *** The connection loop of [handle_client], after the handshake *)

(** How the inner [while buffer:] loop is left. *)
Inductive loop_exit :=
| NeedMore (buffer : bytes)   (* buffer empty, or [parse] returned [None] *)
| ReturnedAfterClose          (* [return] after a close frame *)
| LoopRaised (e : exn)        (* an exception escapes to [except Exception] *)
| LoopOutOfFuel.

(** The inner loop [while buffer: ...]. Each message handler runs
    uninterrupted. One unit of fuel is spent per frame. *)
Fixpoint frame_loop (fuel : nat) (s : server) (websocket : conn)
    (buffer : bytes) : server * list event * loop_exit :=
  match fuel with
  | O => (s, [], LoopOutOfFuel)
  | S fuel' =>
    if bool_decide (buffer = []) then (s, [], NeedMore buffer) else
    match parse buffer with
    | None => (s, [], NeedMore buffer)
    | Some frame =>
      let buffer := slice_from (frame_length frame) buffer in
      let continue (s' : server) (evs : list event) :=
        let '(s2, evs2, x) := frame_loop fuel' s' websocket buffer in
        (s2, Parsed frame :: evs ++ evs2, x) in
      (* Handle frame *)
      if opcode frame =? 8 then       (* Close *)
        let '(s', evs) := close_connection s websocket in
        (s', Parsed frame :: evs, ReturnedAfterClose)
      else if opcode frame =? 9 then  (* Ping *)
        match build (Bytes (payload frame)) 10 with
        | None => (s, [Parsed frame], LoopRaised StructError)
        | Some pong =>
          if write_raises websocket
          then (s, [Parsed frame; Wrote websocket pong],
                LoopRaised ConnectionError)
          else continue s [Wrote websocket pong]
        end
      else if opcode frame =? 1 then  (* Text *)
        match utf8_decode (payload frame) with
        | None => (s, [Parsed frame], LoopRaised UnicodeError)
        | Some message =>
          let '(s', evs) := handle_message [] s websocket message in
          continue s' evs
        end
      else continue s []
    end
  end.

(** The [except] and [finally] clauses of [handle_client]. *)
Definition teardown (s : server) (websocket : conn) (x : loop_exit)
  : server * list event :=
  let report :=
    match x with
    | LoopRaised _ => [Printed LogErrorHandlingClient]
    | _ => []
    end in
  let '(s', evs) := close_connection s websocket in
  (s', report ++ evs).

(** One result of [await reader.read(4096)]. *)
Inductive read_result :=
| Data (data : bytes)
| ReadRaised.

(** One turn of the outer [while True:] loop on the bytes just read:
    [buffer += data] and the inner loop. *)
Definition on_data (s : server) (websocket : conn) (buffer data : bytes)
  : server * list event * loop_exit :=
  let buffer := buffer ++ data in
  frame_loop (S (length buffer)) s websocket buffer.

(** The outer loop with its [except]/[finally], on the successive results
    of [reader.read]; the end of the list is the end of the stream. *)
Fixpoint read_loop (s : server) (websocket : conn) (buffer : bytes)
    (reads : list read_result) : server * list event :=
  match reads with
  | [] => teardown s websocket (NeedMore buffer)
  | ReadRaised :: _ => teardown s websocket (LoopRaised ConnectionError)
  | Data data :: rest =>
    if bool_decide (data = []) then teardown s websocket (NeedMore buffer)
    else
      match on_data s websocket buffer data with
      | (s', evs, NeedMore buffer') =>
        let '(s2, evs2) := read_loop s' websocket buffer' rest in
        (s2, evs ++ evs2)
      | (s', evs, x) =>
        let '(s2, evs2) := teardown s' websocket x in
        (s2, evs ++ evs2)
      end
  end.

End SignalingServer.

(** ** A small JSON reader and writer for running the model

    [demo_loads] reads one flat object whose values are strings without
    escapes, integers, [true], [false] or [null]; everything else is a
    decode error. [demo_dumps] writes such objects back the way
    [json.dumps] does. They instantiate the two parameters of the server
    model in the examples. *)

Module Demo.

Inductive token :=
| TLBrace | TRBrace | TColon | TComma
| TString (s : str)
| TInt (n : Z)
| TWord (w : str).

Definition is_digit (c : Z) : bool := in_range 48 57 c.
Definition is_alpha (c : Z) : bool := in_range 97 122 c.
Definition is_space (c : Z) : bool :=
  (c =? 32) || (c =? 9) || (c =? 10) || (c =? 13).

Fixpoint scan_string (acc cs : str) : option (str * str) :=
  match cs with
  | [] => None
  | c :: r =>
    if c =? 34 then Some (rev acc, r)
    else if (c =? 92) || (c <? 32) then None
    else scan_string (c :: acc) r
  end.

Fixpoint span (p : Z → bool) (cs : str) : str * str :=
  match cs with
  | c :: r => if p c then let '(a, b) := span p r in (c :: a, b) else ([], cs)
  | [] => ([], [])
  end.

Definition digits_value (ds : str) : Z :=
  fold_left (fun acc d => acc * 10 + (d - 48)) ds 0.

Fixpoint tokens (fuel : nat) (cs : str) : option (list token) :=
  match fuel with
  | O => None
  | S fuel' =>
    match cs with
    | [] => Some []
    | c :: r =>
      if is_space c then tokens fuel' r
      else if c =? 123 then cons TLBrace <$> tokens fuel' r
      else if c =? 125 then cons TRBrace <$> tokens fuel' r
      else if c =? 58 then cons TColon <$> tokens fuel' r
      else if c =? 44 then cons TComma <$> tokens fuel' r
      else if c =? 34 then
        '(s, r') ← scan_string [] r;
        cons (TString s) <$> tokens fuel' r'
      else if is_digit c then
        let '(ds, r') := span is_digit cs in
        if (c =? 48) && negb (bool_decide (ds = [48])) then None
        else cons (TInt (digits_value ds)) <$> tokens fuel' r'
      else if c =? 45 then
        let '(ds, r') := span is_digit r in
        if bool_decide (ds = [])
           || ((hd 0 ds =? 48) && negb (bool_decide (ds = [48])))
        then None
        else cons (TInt (- digits_value ds)) <$> tokens fuel' r'
      else if is_alpha c then
        let '(w, r') := span is_alpha cs in
        cons (TWord w) <$> tokens fuel' r'
      else None
    end
  end.

Definition value_of (t : token) : option json :=
  match t with
  | TString s => Some (JStr s)
  | TInt n => Some (JInt n)
  | TWord w =>
    if bool_decide (w = lit "true") then Some (JBool true)
    else if bool_decide (w = lit "false") then Some (JBool false)
    else if bool_decide (w = lit "null") then Some JNull
    else None
  | _ => None
  end.

(** [d[k] = v]: a repeated key keeps its place and takes the new value. *)
Fixpoint dict_set (k : str) (v : json) (fields : list (str * json))
  : list (str * json) :=
  match fields with
  | [] => [(k, v)]
  | (k', v') :: rest =>
    if bool_decide (k' = k) then (k, v) :: rest
    else (k', v') :: dict_set k v rest
  end.

Fixpoint members (ts : list token) (acc : list (str * json))
  : option (list (str * json)) :=
  match ts with
  | TString k :: TColon :: t :: rest =>
    v ← value_of t;
    let acc := dict_set k v acc in
    match rest with
    | [TRBrace] => Some acc
    | TComma :: rest' => members rest' acc
    | _ => None
    end
  | _ => None
  end.

Definition demo_loads (message : str) : loads_result :=
  match tokens (S (length message)) message with
  | Some [TLBrace; TRBrace] => Loaded (JObj [])
  | Some (TLBrace :: ts) =>
    match members ts [] with
    | Some fields => Loaded (JObj fields)
    | None => JSONDecodeError
    end
  | _ => JSONDecodeError
  end.

Definition quoted (s : str) : str := [34] ++ s ++ [34].

Definition decimal (n : Z) : str :=
  lit (DecimalString.NilEmpty.string_of_int (Z.to_int n)).

Definition dumps_scalar (v : json) : str :=
  match v with
  | JStr s => quoted s
  | JInt n => decimal n
  | JBool true => lit "true"
  | JBool false => lit "false"
  | _ => lit "null"
  end.

Fixpoint dumps_fields (fields : list (str * json)) : str :=
  match fields with
  | [] => []
  | [(k, v)] => quoted k ++ lit ": " ++ dumps_scalar v
  | (k, v) :: rest =>
    quoted k ++ lit ": " ++ dumps_scalar v ++ lit ", " ++ dumps_fields rest
  end.

Definition demo_dumps (v : json) : str :=
  match v with
  | JObj fields => lit "{" ++ dumps_fields fields ++ lit "}"
  | _ => dumps_scalar v
  end.

(** A message written with apostrophes in place of double quotes. *)
Definition msg (s : String.string) : str :=
  map (fun c => if c =? 39 then 34 else c) (lit s).

Definition never_raises (c : conn) : bool := false.

Abbreviation handle := (handle_message demo_loads demo_dumps never_raises).

End Demo.

(** ** Definitions used to state the properties *)

(** The three stages of [parse] after the two header bytes. *)
Definition extended_length (data : bytes) (len7 : Z) : option (Z * Z) :=
  if len7 =? 126 then
    if len data <? 4 then None else Some (be_uint (slice 2 4 data), 4)
  else if len7 =? 127 then
    if len data <? 10 then None else Some (be_uint (slice 2 10 data), 10)
  else Some (len7, 2).

Definition masking_key (data : bytes) (masked offset : Z)
  : option (option bytes * Z) :=
  if masked =? 0 then Some (None, offset)
  else if len data <? offset + 4 then None
  else Some (Some (slice offset (offset + 4) data), offset + 4).

Definition take_payload (data : bytes) (fin opcode masked payload_len : Z)
    (mask_key : option bytes) (offset : Z) : option frame :=
  if len data <? offset + payload_len then None else
  let payload := slice offset (offset + payload_len) data in
  Some {| fin := fin; opcode := opcode;
          payload := match mask_key with
                     | Some k =>
                       if negb (masked =? 0) && negb (bool_decide (k = []))
                       then unmask k payload else payload
                     | None => payload
                     end;
          frame_length := offset + payload_len |}.

(** Where the length field ends, and the payload length it declares
    (7-bit field [len7]; 126 and 127 announce a 16-bit and a 64-bit
    big-endian extended length). *)
Definition header_size (len7 : Z) : Z :=
  if len7 =? 126 then 4 else if len7 =? 127 then 10 else 2.

Definition declared_length (data : bytes) (len7 : Z) : Z :=
  if len7 =? 126 then be_uint (slice 2 4 data)
  else if len7 =? 127 then be_uint (slice 2 10 data)
  else len7.

(** ** Observations on a trace *)

Definition writes (evs : list event) : list (conn * bytes) :=
  omap (fun e => match e with Wrote c d => Some (c, d) | _ => None end) evs.

Definition closes (evs : list event) : list conn :=
  omap (fun e => match e with Closed c => Some c | _ => None end) evs.

Definition parsed (evs : list event) : list frame :=
  omap (fun e => match e with Parsed f => Some f | _ => None end) evs.

(** The message types that are relayed to the room. *)
Definition is_relay (msg_type : option json) : bool :=
  is_str msg_type (lit "presence") || is_str msg_type (lit "offer")
  || is_str msg_type (lit "answer") || is_str msg_type (lit "ice-candidate").

(** The room a message names, as a key of the room registry. *)
Definition stated_room (data : json) : option pykey :=
  as_key (room_of (default None (dict_get data (lit "room")))).

(** ** Registry invariants *)

(** Every room a registered connection believes it is in exists and lists
    the connection. *)
Definition registry_subset (s : server) : Prop :=
  ∀ c info r, clients s !! c = Some info → r ∈ ci_rooms info →
    ∃ members, rooms s !! r = Some members ∧ c ∈ members.

(** Every member of a room is a registered connection that lists the
    room. *)
Definition members_registered (s : server) : Prop :=
  ∀ r members c, rooms s !! r = Some members → c ∈ members →
    ∃ info, clients s !! c = Some info ∧ r ∈ ci_rooms info.

Definition rooms_well_formed (s : server) : Prop :=
  ∀ r members, rooms s !! r = Some members → members ≠ [] ∧ NoDup members.

Record consistent (s : server) : Prop := Consistent {
  cons_subset : registry_subset s;
  cons_members : members_registered s;
  cons_rooms : rooms_well_formed s
}.

Section Executions.

Variable json_loads : str → loads_result.
Variable json_dumps : json → str.
Variable write_raises : conn → bool.

(** States of the running server: connections are accepted under a fresh
    identity, and only a registered connection has its messages
    handled. *)
Inductive reachable : server → Prop :=
| reachable_empty : reachable empty_server
| reachable_accept s c :
    reachable s → clients s !! c = None → reachable (store_client s c)
| reachable_message s c message :
    reachable s → is_Some (clients s !! c) →
    reachable (fst (handle_message json_loads json_dumps write_raises
                      [] s c message))
| reachable_close s c :
    reachable s → reachable (fst (close_connection s c)).

(** States produced by any sequence of the operations, by any connection,
    under any interleaving. *)
Inductive op_reachable : server → Prop :=
| op_reachable_empty : op_reachable empty_server
| op_reachable_accept s c : op_reachable s → op_reachable (store_client s c)
| op_reachable_message s c message sched :
    op_reachable s →
    op_reachable (fst (handle_message json_loads json_dumps write_raises
                         sched s c message))
| op_reachable_close s c :
    op_reachable s → op_reachable (fst (close_connection s c)).

(** What an uninterrupted broadcast over [members] does. *)
Definition deliveries (frame : bytes) (exclude : option conn) (s : server)
    (members : list conn) : list event :=
  members ≫= (fun c =>
    if bool_decide (Some c ≠ exclude)
       && bool_decide (is_Some (clients s !! c))
    then if write_raises c
         then [Wrote c frame; Printed LogErrorBroadcasting]
         else [Wrote c frame]
    else []).

End Executions.

(** ** A room of three, for running the model *)

Module Scenario.
Import Demo.

Definition room_r : pykey := KStr (lit "r").

Definition join_r : str := msg "{'type': 'join', 'room': 'r'}".

Definition offer : str := msg "{'type': 'offer', 'room': 'r', 'sdp': 'x'}".

Definition offer_data : json :=
  JObj [(lit "type", JStr (lit "offer")); (lit "room", JStr (lit "r"));
        (lit "sdp", JStr (lit "x"))].

Definition chat : str := msg "{'type': 'chat', 'room': 'r'}".

Definition member (c : conn) : conn * client_info :=
  (c, {| ci_id := c; ci_reader := c; ci_writer := c; ci_rooms := [room_r] |}).

(** Connections 1, 2 and 3 are registered and in room [r]; [order] is the
    order in which the room's set is iterated. *)
Definition room_of_three (order : list conn) : server :=
  {| clients := list_to_map (member <$> [1; 2; 3]%nat);
     rooms := {[ room_r := order ]} |}.

(** The same room, built by the server itself. *)
Definition accepted : server :=
  store_client (store_client (store_client empty_server 1) 2) 3.

Definition joined1 : server := (handle [] accepted 1%nat join_r).1.
Definition joined2 : server := (handle [] joined1 2%nat join_r).1.
Definition joined3 : server := (handle [] joined2 3%nat join_r).1.

End Scenario.

Module Frames.
Import Demo Scenario.

(** The unmasked and the masked text frame carrying [Hello]. *)
Definition hello_frame : bytes :=
  [x81; x05; x48; x65; x6c; x6c; x6f]%byte.

Definition hello_masked : bytes :=
  [x81; x85; x37; xfa; x21; x3d; x7f; x9f; x4d; x51; x58]%byte.

Definition hello : bytes := [x48; x65; x6c; x6c; x6f]%byte.

Definition hello_chunks : list bytes :=
  [[x81]; [x05; x48]; [x65; x6c; x6c; x6f]]%byte.

(** A text frame whose payload, the single byte [0xFF], is not UTF-8. *)
Definition bad_text_frame : bytes := [x81; x01; xff]%byte.

(** The text frame carrying the message [chat]. *)
Definition chat_frame : bytes :=
  default [] (build (Str chat) 1).

End Frames.

(** ** The handshake of [handle_client]

    [str.strip] and [str.lower] follow the Unicode tables of the
    interpreter; they are parameters. The lines are the successive results
    of [reader.readline()]; past the end of the list the stream is at its
    end and [readline] returns the empty byte string. *)

Definition crlf : bytes := [x0d; x0a]%byte.

Definition colon : byte := x3a.

(** [s.split(':', 1)] unpacked into two names: [None] is the [ValueError]
    raised when [s] has no colon. *)
Fixpoint split_colon (s : str) : option (str * str) :=
  match s with
  | [] => None
  | c :: r =>
    if c =? 58 then Some ([], r)
    else '(k, v) ← split_colon r; Some (c :: k, v)
  end.

(** How the header loop is left. *)
Inductive headers_end :=
| HeadersDone (headers : gmap str str)
| HeadersRaised
| HeadersOutOfFuel.

(** How the handshake is left. *)
Inductive handshake_end :=
| NoRequest       (* empty request line: [return] *)
| Rejected        (* no [Upgrade: websocket]: socket closed, [return] *)
| Upgraded        (* response sent *)
| HandshakeRaised (* an exception reaches [except Exception] *)
| HandshakeOutOfFuel.

Section Handshake.

Variable json_loads : str → loads_result.
Variable json_dumps : json → str.
Variable write_raises : conn → bool.

(** [str.strip] and [str.lower]. *)
Variable str_strip : str → str.
Variable str_lower : str → str.

#[local] Instance byte_eq_decision : EqDecision byte := Byte.byte_eq_dec.

(** [line = await reader.readline()] on the remaining results. *)
Definition readline (lines : list read_result) : option bytes :=
  match lines with
  | [] => Some []
  | Data line :: _ => Some line
  | ReadRaised :: _ => None
  end.

(** The loop [while True: line = await reader.readline() ...]. One unit of
    fuel is spent per line. *)
Fixpoint read_headers (fuel : nat) (lines : list read_result)
    (headers : gmap str str) : headers_end :=
  match fuel with
  | O => HeadersOutOfFuel
  | S fuel' =>
    match readline lines with
    | None => HeadersRaised
    | Some line =>
      if bool_decide (line = crlf) then HeadersDone headers
      else if bool_decide (colon ∈ line) then
        match utf8_decode line with
        | None => HeadersRaised
        | Some text =>
          match split_colon (str_strip text) with
          | None => HeadersRaised
          | Some (key, value) =>
            read_headers fuel' (tl lines)
              (<[str_lower (str_strip key) := str_strip value]> headers)
          end
        end
      else read_headers fuel' (tl lines) headers
    end
  end.

(** The response of a successful handshake. *)
Definition switching_protocols (accept_key : bytes) : bytes :=
  String.list_byte_of_string "HTTP/1.1 101 Switching Protocols" ++ crlf
  ++ String.list_byte_of_string "Upgrade: websocket" ++ crlf
  ++ String.list_byte_of_string "Connection: Upgrade" ++ crlf
  ++ String.list_byte_of_string "Sec-WebSocket-Accept: " ++ accept_key
  ++ crlf ++ crlf.

(** [handle_client] from the header block to the response. *)
Definition upgrade (websocket : conn) (headers : gmap str str)
  : list event * handshake_end :=
  if bool_decide (str_lower (default [] (headers !! lit "upgrade"))
                  ≠ lit "websocket")
  then ([Closed websocket], Rejected)
  else
    let websocket_key := default [] (headers !! lit "sec-websocket-key") in
    match generate_accept_key websocket_key ≫= utf8_encode with
    | None => ([], HandshakeRaised)
    | Some accept_key =>
      let response := switching_protocols accept_key in
      if write_raises websocket
      then ([Wrote websocket response], HandshakeRaised)
      else ([Wrote websocket response; Printed LogEstablished], Upgraded)
    end.

(** [handle_client] up to [# Store client]. *)
Definition handshake (fuel : nat) (websocket : conn)
    (request_line : read_result) (lines : list read_result)
  : list event * handshake_end :=
  match request_line with
  | ReadRaised => ([], HandshakeRaised)
  | Data line =>
    if bool_decide (line = []) then ([], NoRequest)
    else
      match read_headers fuel lines ∅ with
      | HeadersOutOfFuel => ([], HandshakeOutOfFuel)
      | HeadersRaised => ([], HandshakeRaised)
      | HeadersDone headers => upgrade websocket headers
      end
  end.

(** [handle_client(reader, writer)]: the handshake, then the connection
    loop on the results of [reader.read]. [None] when the fuel of the
    header loop runs out. In the [finally] clause [websocket] is still
    [None] unless the handshake succeeded. *)
Definition handle_client (fuel : nat) (s : server) (websocket : conn)
    (request_line : read_result) (lines reads : list read_result)
  : option (server * list event) :=
  match handshake fuel websocket request_line lines with
  | (evs, Upgraded) =>
    let '(s', evs') :=
      read_loop json_loads json_dumps write_raises
        (store_client s websocket) websocket [] reads in
    Some (s', evs ++ evs')
  | (evs, HandshakeRaised) => Some (s, evs ++ [Printed LogErrorHandlingClient])
  | (evs, HandshakeOutOfFuel) => None
  | (evs, _) => Some (s, evs)
  end.

End Handshake.

(** ASCII stand-ins for [str.strip] and [str.lower], exact on ASCII text,
    for running the handshake. *)
Module AsciiText.

Definition is_space (c : Z) : bool :=
  in_range 9 13 c || in_range 28 32 c.

Fixpoint lstrip (s : str) : str :=
  match s with
  | c :: r => if is_space c then lstrip r else s
  | [] => []
  end.

Definition strip (s : str) : str := rev (lstrip (rev (lstrip s))).

Definition lower (s : str) : str :=
  map (fun c => if in_range 65 90 c then c + 32 else c) s.

(** A line of the request, with its line end. *)
Definition line (s : String.string) : read_result :=
  Data (String.list_byte_of_string s ++ crlf).

Definition blank : read_result := Data crlf.

End AsciiText.

(** ** More observations, used to state further properties *)

(** The connections a trace writes to. *)
Definition recipients (evs : list event) : list conn := (writes evs).*1.

(** Code points that a [str] decoded from UTF-8 can hold. *)
Definition is_scalar (c : Z) : Prop :=
  0 <= c < 55296 ∨ 57344 <= c < 1114112.

(** The opcodes the connection loop acts on: text, close and ping. *)
Definition is_handled (op : Z) : bool := (op =? 1) || (op =? 8) || (op =? 9).

(** The 7-bit length field of the second header byte [b1] and the
    extended length bytes [ext] announce a payload of [n] bytes. *)
Definition announces (b1 : byte) (ext : bytes) (n : Z) : Prop :=
  let len7 := Z.land (byte_val b1) 127 in
  (len7 < 126 ∧ ext = [] ∧ n = len7)
  ∨ (len7 = 126 ∧ length ext = 2%nat ∧ n = be_uint ext)
  ∨ (len7 = 127 ∧ length ext = 8%nat ∧ n = be_uint ext).

(** ** Sample inputs, for running the codec, the loop and the handshake *)

Module Samples.
Import Demo Scenario.

(** What [json.loads] makes of [join_r], and the frames of the
    acknowledgement of that join and of the relayed [offer]. *)
Definition join_data : json :=
  JObj [(lit "type", JStr (lit "join")); (lit "room", JStr (lit "r"))].

Definition joined_frame : bytes :=
  default []
    (build (Str (demo_dumps (JObj [(lit "type", JStr (lit "joined"));
                                   (lit "room", JStr (lit "r"))]))) 1).

Definition offer_frame : bytes :=
  default [] (build (Str (demo_dumps offer_data)) 1).




(** A ping carrying [hi], a close frame, and a close frame followed by
    more bytes. *)
Definition ping_frame : bytes := [x89; x02; x68; x69]%byte.

Definition close_frame : bytes := [x88; x00]%byte.

Definition close_then_more : bytes :=
  [x88; x00; x81; x05; x48; x65; x6c; x6c; x6f]%byte.

(** A ping, then a text frame that is not UTF-8, then the frame of the
    join message; and a ping followed by a close frame and more bytes.
    The pong that answers the ping. *)
Definition join_frame : bytes := default [] (build (Str join_r) 1).

Definition ping_bad_join : bytes :=
  ping_frame ++ [x81; x01; xff]%byte ++ join_frame.

Definition ping_close_more : bytes := ping_frame ++ close_then_more.

Definition pong_frame : bytes := [x8a; x02; x68; x69]%byte.

(** A binary frame and a pong, back to back. *)
Definition binary_then_pong : bytes := [x82; x01; x00; x8a; x00]%byte.

(** The masking key and the masked payload of the [Hello] frame of
    RFC 6455. *)
Definition hello_key : bytes := [x37; xfa; x21; x3d]%byte.

(** A request with and without the upgrade header. *)
Definition get_line : read_result := AsciiText.line "GET /chat HTTP/1.1".

Definition upgrade_request : list read_result :=
  [AsciiText.line "Host: example.org";
   AsciiText.line "Upgrade: WebSocket";
   AsciiText.line "Connection: Upgrade";
   AsciiText.line "Sec-WebSocket-Key: dGhlIHNhbXBsZSBub25jZQ==";
   AsciiText.blank].

Definition plain_request : list read_result :=
  [AsciiText.line "Host: example.org"; AsciiText.blank].

Definition upgrade_headers : gmap str str :=
  {[ lit "upgrade" := lit "WebSocket" ]}.

(** What [handle_client] does on [upgrade_request] followed by a close
    frame, for connection 4. *)
Definition upgrade_trace : list event :=
  [Wrote 4%nat
     (switching_protocols
        (String.list_byte_of_string "s3pPLMBiTxaQ9kYGzzhZRbK+xOo="));
   Printed LogEstablished;
   Parsed {| fin := 1; opcode := 8; payload := []; frame_length := 2 |};
   Closed 4%nat; Printed LogDisconnected].

End Samples.
(** * Properties *)

(** ** The library functions on known values *)

Example utf8_decode_euro :
  utf8_decode [xe2; x82; xac]%byte = Some [8364].
Proof. reflexivity. Qed.

Example utf8_decode_four_bytes :
  utf8_decode [xf0; x9f; x98; x80]%byte = Some [128512]
  ∧ utf8_encode [128512] = Some [xf0; x9f; x98; x80]%byte.
Proof. split; reflexivity. Qed.

Example utf8_decode_rejects :
  utf8_decode [xff]%byte = None                 (* no such lead byte *)
  ∧ utf8_decode [xc0; x80]%byte = None          (* overlong *)
  ∧ utf8_decode [xed; xa0; x80]%byte = None     (* surrogate *)
  ∧ utf8_decode [xe2; x82]%byte = None          (* truncated *)
  ∧ utf8_decode [xf4; x90; x80; x80]%byte = None. (* above U+10FFFF *)
Proof. repeat split; reflexivity. Qed.

Example sha1_abc :
  map byte_val (SHA1.digest (String.list_byte_of_string "abc"))
  = [169; 153; 62; 54; 71; 6; 129; 106; 186; 62; 37; 113; 120; 80; 194;
     108; 156; 208; 216; 157].
Proof. by vm_compute. Qed.

Example b64encode_padding :
  Base64.b64encode (String.list_byte_of_string "fooba")
  = String.list_byte_of_string "Zm9vYmE="
  ∧ Base64.b64encode (String.list_byte_of_string "foob")
    = String.list_byte_of_string "Zm9vYg==".
Proof. split; by vm_compute. Qed.

Example float_and_int_keys :
  as_key (JFloat (S754_finite false 8 (-3))) = as_key (JInt 1)   (* 1.0 *)
  ∧ as_key (JBool true) = as_key (JInt 1)
  ∧ as_key (JFloat (S754_zero true)) = as_key (JInt 0)           (* -0.0 *)
  ∧ as_key (JFloat (S754_finite false 3 (-1))) ≠ as_key (JInt 1) (* 1.5 *)
  ∧ as_key (JArr []) = None.
Proof. repeat split; try reflexivity. discriminate. Qed.

Example demo_loads_join :
  Demo.demo_loads (Demo.msg "{'type': 'join', 'room': 'lobby', 'n': -12}")
  = Loaded (JObj [(lit "type", JStr (lit "join"));
                  (lit "room", JStr (lit "lobby")); (lit "n", JInt (-12))])
  ∧ Demo.demo_loads (Demo.msg "{'type': 'join'") = JSONDecodeError
  ∧ Demo.demo_dumps (JObj [(lit "type", JStr (lit "joined"));
                           (lit "room", JStr (lit "lobby"))])
    = Demo.msg "{'type': 'joined', 'room': 'lobby'}".
Proof. repeat split; by vm_compute. Qed.

(** ** Bytes *)

Lemma byte_val_range (b : byte) : 0 <= byte_val b < 256.
Proof.
  unfold byte_val. pose proof (Byte.to_N_bounded b). lia.
Qed.

Lemma byte_of_val (b : byte) : byte_of (byte_val b) = Some b.
Proof.
  unfold byte_of, byte_val.
  destruct (Z.leb_spec 0 (Z.of_N (Byte.to_N b))); [|lia].
  rewrite N2Z.id. apply Byte.of_to_N.
Qed.

Lemma byte_of_Some (z : Z) (b : byte) : byte_of z = Some b → byte_val b = z.
Proof.
  unfold byte_of, byte_val. destruct (Z.leb_spec 0 z); [|done].
  intros Hb. apply Byte.to_of_N in Hb. rewrite Hb. lia.
Qed.

Lemma byte_of_is_Some (z : Z) : 0 <= z < 256 → is_Some (byte_of z).
Proof.
  intros Hz. unfold byte_of. destruct (Z.leb_spec 0 z); [|lia].
  destruct (Byte.of_N (Z.to_N z)) eqn:E; [by eexists|].
  apply Byte.of_N_None_iff in E. lia.
Qed.

Lemma byte_mod_val (z : Z) : byte_val (byte_mod z) = z mod 256.
Proof.
  unfold byte_mod.
  destruct (byte_of_is_Some (z mod 256)) as [b Hb].
  { apply Z.mod_pos_bound. lia. }
  rewrite Hb. simpl. by apply byte_of_Some.
Qed.

Lemma byte_val_inj (a b : byte) : byte_val a = byte_val b → a = b.
Proof.
  intros H. pose proof (byte_of_val a) as Ha. rewrite H, byte_of_val in Ha.
  congruence.
Qed.

Lemma be_uint_snoc (bs : bytes) (b : byte) :
  be_uint (bs ++ [b]) = be_uint bs * 256 + byte_val b.
Proof. unfold be_uint. by rewrite fold_left_app. Qed.

Lemma be_digits_length (w : nat) (n : Z) : length (be_digits w n) = w.
Proof.
  revert n. induction w as [|w IH]; intros n; simpl; [done|].
  rewrite length_app, IH. simpl. lia.
Qed.

Lemma be_uint_digits (w : nat) (n : Z) :
  0 <= n → be_uint (be_digits w n) = n mod 256 ^ Z.of_nat w.
Proof.
  revert n. induction w as [|w IH]; intros n Hn.
  - simpl. by rewrite Z.mod_1_r.
  - cbn [be_digits]. rewrite be_uint_snoc, byte_mod_val, IH
      by (apply Z.div_pos; lia).
    rewrite Nat2Z.inj_succ, Z.pow_succ_r by lia.
    rewrite Z.rem_mul_r by lia. lia.
Qed.

Lemma pack_be_unpack (w : nat) (n : Z) (e : bytes) :
  pack_be w n = Some e → length e = w ∧ be_uint e = n.
Proof.
  unfold pack_be. destruct (Z.leb_spec 0 n), (Z.ltb_spec n (256 ^ Z.of_nat w));
    simpl; try done.
  intros [= <-]. split; [apply be_digits_length|].
  rewrite be_uint_digits by done. apply Z.mod_small. lia.
Qed.

Lemma len_app {A} (l k : list A) : len (l ++ k) = len l + len k.
Proof. unfold len. rewrite length_app. lia. Qed.

Lemma len_nonneg {A} (l : list A) : 0 <= len l.
Proof. unfold len. lia. Qed.

Lemma slice_app_mid {A} (a b : Z) (pre mid post : list A) :
  len pre = a → len mid = b - a → slice a b (pre ++ mid ++ post) = mid.
Proof.
  unfold slice, len. intros Ha Hb.
  rewrite drop_app_length' by lia.
  rewrite take_app_length' by lia. done.
Qed.

(** ** The frame parser, stage by stage *)

Lemma slice_app_l {A} (a b : Z) (l k : list A) :
  0 <= a → a <= b → b <= len l → slice a b (l ++ k) = slice a b l.
Proof.
  unfold slice, len. intros Ha Hab Hb.
  rewrite drop_app_le by lia.
  rewrite take_app_le; [done|]. rewrite length_drop. lia.
Qed.

Lemma slice_length {A} (a b : Z) (l : list A) :
  0 <= a → a <= b → b <= len l → len (slice a b l) = b - a.
Proof.
  unfold slice, len. intros. rewrite length_take, length_drop. lia.
Qed.

Lemma slice_lookup {A} (a b : Z) (l : list A) (i : nat) :
  0 <= a → Z.of_nat i < b - a →
  slice a b l !! i = l !! (Z.to_nat a + i)%nat.
Proof.
  unfold slice. intros. rewrite lookup_take_lt by lia. by rewrite lookup_drop.
Qed.

Lemma parse_stages (b1 b2 : byte) (rest : bytes) :
  let data := b1 :: b2 :: rest in
  let masked := Z.shiftr (Z.land (byte_val b2) 128) 7 in
  parse data =
    '(payload_len, offset) ← extended_length data (Z.land (byte_val b2) 127);
    '(mask_key, offset) ← masking_key data masked offset;
    take_payload data (Z.shiftr (Z.land (byte_val b1) 128) 7)
      (Z.land (byte_val b1) 15) masked payload_len mask_key offset.
Proof.
  intros data masked. unfold parse.
  destruct (Z.ltb_spec (len data) 2) as [H|_].
  { unfold data, len in H. simpl in H. lia. }
  reflexivity.
Qed.

Lemma parse_short (data : bytes) : len data < 2 → parse data = None.
Proof.
  intros H. unfold parse. by destruct (Z.ltb_spec (len data) 2); [|lia].
Qed.

Lemma be_uint_nonneg (bs : bytes) : 0 <= be_uint bs.
Proof.
  induction bs as [|b bs IH] using rev_ind; [done|].
  rewrite be_uint_snoc. pose proof (byte_val_range b). lia.
Qed.

Lemma land_nonneg_l (a b : Z) : 0 <= a → 0 <= Z.land a b.
Proof. intros. apply Z.land_nonneg. by left. Qed.

Lemma extended_length_bounds (data : bytes) (len7 pl off : Z) :
  0 <= len7 → 2 <= len data →
  extended_length data len7 = Some (pl, off) →
  0 <= pl ∧ 2 <= off <= 10 ∧ off <= len data.
Proof.
  unfold extended_length. intros H7 H2.
  repeat case_match; intros [= <- <-]; try lia;
    split; try apply be_uint_nonneg; lia.
Qed.

Lemma extended_length_app (data extra : bytes) (len7 : Z) (r : Z * Z) :
  extended_length data len7 = Some r →
  extended_length (data ++ extra) len7 = Some r.
Proof.
  unfold extended_length. pose proof (len_nonneg extra).
  rewrite len_app.
  repeat case_match; try done; try lia;
    intros [= <-]; rewrite slice_app_l by lia; done.
Qed.

Lemma masking_key_app (data extra : bytes) (masked off : Z)
    (r : option bytes * Z) :
  0 <= off →
  masking_key data masked off = Some r →
  masking_key (data ++ extra) masked off = Some r.
Proof.
  unfold masking_key. pose proof (len_nonneg extra).
  rewrite len_app. intros Hoff.
  repeat case_match; try done; try lia.
  intros [= <-]. rewrite slice_app_l by lia. done.
Qed.

Lemma masking_key_bounds (data : bytes) (masked off off' : Z)
    (k : option bytes) :
  masking_key data masked off = Some (k, off') →
  off <= off' <= off + 4.
Proof.
  unfold masking_key. repeat case_match; intros [= <- <-]; lia.
Qed.

Lemma take_payload_app (data extra : bytes) (fin opcode masked pl : Z)
    (k : option bytes) (off : Z) (f : frame) :
  0 <= off → 0 <= pl →
  take_payload data fin opcode masked pl k off = Some f →
  take_payload (data ++ extra) fin opcode masked pl k off = Some f.
Proof.
  unfold take_payload. pose proof (len_nonneg extra).
  rewrite len_app. intros Hoff Hpl.
  destruct (Z.ltb_spec (len data) (off + pl)); [done|].
  destruct (Z.ltb_spec (len data + len extra) (off + pl)); [lia|].
  rewrite slice_app_l by lia. done.
Qed.

Lemma take_payload_length (data : bytes) (fin opcode masked pl : Z)
    (k : option bytes) (off : Z) (f : frame) :
  take_payload data fin opcode masked pl k off = Some f →
  frame_length f = off + pl ∧ off + pl <= len data.
Proof.
  unfold take_payload.
  destruct (Z.ltb_spec (len data) (off + pl)); [done|].
  intros [= <-]. simpl. lia.
Qed.

(** A frame that parses still parses, to the same result, when more bytes
    follow it. *)
Lemma parse_app (data extra : bytes) (f : frame) :
  parse data = Some f → parse (data ++ extra) = Some f.
Proof.
  destruct data as [|b1 [|b2 rest]]; try done.
  rewrite <- !app_comm_cons, !parse_stages.
  change (b1 :: b2 :: rest ++ extra) with ((b1 :: b2 :: rest) ++ extra).
  assert (2 <= len (b1 :: b2 :: rest)) as H2 by (unfold len; simpl; lia).
  generalize dependent (b1 :: b2 :: rest). intros data H2.
  pose proof (byte_val_range b2) as Hb2.
  destruct (extended_length data _) as [[pl off]|] eqn:E1; [|done].
  apply extended_length_bounds in E1 as HB;
    [|apply land_nonneg_l; lia|done].
  rewrite (extended_length_app _ extra _ _ E1). simpl.
  destruct (masking_key data _ off) as [[k off']|] eqn:E2; [|done].
  apply masking_key_bounds in E2 as HB2.
  assert (0 <= off) as Hoff by lia.
  rewrite (masking_key_app _ extra _ _ _ Hoff E2). simpl.
  apply take_payload_app; lia.
Qed.

Lemma parse_length (data : bytes) (f : frame) :
  parse data = Some f → 2 <= frame_length f <= len data.
Proof.
  destruct data as [|b1 [|b2 rest]]; try done.
  rewrite parse_stages.
  assert (2 <= len (b1 :: b2 :: rest)) as H2 by (unfold len; simpl; lia).
  generalize dependent (b1 :: b2 :: rest). intros data H2.
  pose proof (byte_val_range b2) as Hb2.
  destruct (extended_length data _) as [[pl off]|] eqn:E1; [|done].
  apply extended_length_bounds in E1 as HB;
    [|apply land_nonneg_l; lia|done].
  simpl.
  destruct (masking_key data _ off) as [[k off']|] eqn:E2; [|done].
  apply masking_key_bounds in E2 as HB2. simpl.
  intros Hf. apply take_payload_length in Hf. lia.
Qed.

(** Every strict prefix of a frame is insufficient data. *)
Lemma parse_prefix_None (data : bytes) (f : frame) (n : nat) :
  parse data = Some f → Z.of_nat n < frame_length f →
  parse (take n data) = None.
Proof.
  intros Hp Hn.
  destruct (parse (take n data)) as [g|] eqn:E; [|done].
  pose proof (parse_length _ _ E) as Hg.
  apply (parse_app _ (drop n data)) in E.
  rewrite take_drop in E. assert (g = f) as -> by congruence.
  unfold len in Hg. rewrite length_take in Hg. lia.
Qed.

(** ** Round trip *)

Lemma slice_app_r {A} (a b : Z) (pre mid : list A) :
  len pre = a → len mid = b - a → slice a b (pre ++ mid) = mid.
Proof.
  intros Ha Hb. rewrite <- (app_nil_r mid) at 1. by apply slice_app_mid.
Qed.

Lemma first_byte (opcode : Z) :
  0 <= opcode < 16 →
  ∃ b0, byte_of (Z.lor 128 opcode) = Some b0
        ∧ Z.shiftr (Z.land (byte_val b0) 128) 7 = 1
        ∧ Z.land (byte_val b0) 15 = opcode.
Proof.
  intros H.
  assert (Forall (fun op =>
            ∃ b0, byte_of (Z.lor 128 op) = Some b0
                  ∧ Z.shiftr (Z.land (byte_val b0) 128) 7 = 1
                  ∧ Z.land (byte_val b0) 15 = op)
            (Z.of_nat <$> seq 0 16)) as HF.
  { repeat (constructor; [eexists; split; [reflexivity|done]|]).
    constructor. }
  rewrite Forall_forall in HF. apply HF.
  apply list_elem_of_fmap. exists (Z.to_nat opcode).
  split; [lia|]. apply elem_of_seq. lia.
Qed.

Lemma short_length_byte (b : byte) :
  byte_val b < 126 →
  Z.land (byte_val b) 127 = byte_val b
  ∧ Z.shiftr (Z.land (byte_val b) 128) 7 = 0.
Proof. destruct b; vm_compute; (done || (intros _; done)). Qed.

(** C2. Parsing a frame built from a payload gives back the payload, the
    opcode, [fin = 1], and consumes exactly the bytes built; this holds in
    each of the three length encodings. The payload is shorter than [2^64]
    bytes (beyond which [struct.pack] raises) and the opcode has four
    bits. *)
Theorem frame_round_trip (payload : bytes) (opcode : Z) :
  0 <= opcode < 16 → len payload < 2 ^ 64 →
  ∃ data, build (Bytes payload) opcode = Some data
    ∧ parse data = Some {| fin := 1; opcode := opcode; payload := payload;
                           frame_length := len data |}.
Proof.
  intros Hop Hlen.
  destruct (first_byte opcode Hop) as (b0 & Hb0 & Hfin & Hopc).
  pose proof (len_nonneg payload) as Hnn.
  unfold build. simpl. rewrite Hb0. simpl.
  destruct (Z.ltb_spec (len payload) 126) as [H1|H1].
  - (* direct length *)
    destruct (byte_of_is_Some (len payload)) as [b Hb]; [lia|].
    rewrite Hb. simpl. eexists; split; [done|].
    apply byte_of_Some in Hb.
    destruct (short_length_byte b) as [H7 Hm]; [lia|].
    rewrite parse_stages. cbv zeta. rewrite H7, Hm, Hfin, Hopc, Hb.
    unfold extended_length.
    destruct (Z.eqb_spec (len payload) 126); [lia|].
    destruct (Z.eqb_spec (len payload) 127); [lia|].
    simpl. unfold take_payload.
    change (b0 :: b :: payload) with ([b0; b] ++ payload).
    rewrite len_app. change (len [b0; b]) with 2.
    destruct (Z.ltb_spec (2 + len payload) (2 + len payload)); [lia|].
    rewrite slice_app_r by (done || lia). done.
  - destruct (Z.ltb_spec (len payload) 65536) as [H2|H2].
    + (* 16-bit extended length *)
      destruct (pack_be 2 (len payload)) as [e|] eqn:He.
      2:{ unfold pack_be in He.
          destruct (Z.leb_spec 0 (len payload)); [|lia].
          destruct (Z.ltb_spec (len payload) (256 ^ Z.of_nat 2)); [done|].
          simpl in *. lia. }
      simpl. eexists; split; [done|].
      apply pack_be_unpack in He as [Le Ue].
      rewrite parse_stages. cbv zeta. rewrite Hfin, Hopc.
      change (Z.land (byte_val (byte_mod 126)) 127) with 126.
      change (Z.shiftr (Z.land (byte_val (byte_mod 126)) 128) 7) with 0.
      unfold extended_length. simpl (126 =? 126).
      change (b0 :: byte_mod 126 :: e ++ payload)
        with ([b0; byte_mod 126] ++ e ++ payload).
      rewrite !len_app. change (len [b0; byte_mod 126]) with 2.
      assert (len e = 2) as Le' by (unfold len; lia).
      rewrite Le'.
      destruct (Z.ltb_spec (2 + (2 + len payload)) 4); [lia|].
      rewrite slice_app_mid by (done || lia). rewrite Ue. simpl.
      change (b0 :: byte_mod 126 :: e ++ payload)
        with ([b0; byte_mod 126] ++ e ++ payload).
      unfold take_payload. rewrite !len_app, Le'.
      change (len [b0; byte_mod 126]) with 2.
      destruct (Z.ltb_spec (2 + (2 + len payload)) (4 + len payload)); [lia|].
      rewrite (app_assoc [_; _] e payload).
      rewrite slice_app_r; [|rewrite len_app, Le'; done|lia].
      f_equal. f_equal. lia.
    + (* 64-bit extended length *)
      destruct (pack_be 8 (len payload)) as [e|] eqn:He.
      2:{ unfold pack_be in He.
          destruct (Z.leb_spec 0 (len payload)); [|lia].
          destruct (Z.ltb_spec (len payload) (256 ^ Z.of_nat 8)); [done|].
          change (256 ^ Z.of_nat 8) with (2 ^ 64) in *. lia. }
      simpl. eexists; split; [done|].
      apply pack_be_unpack in He as [Le Ue].
      rewrite parse_stages. cbv zeta. rewrite Hfin, Hopc.
      change (Z.land (byte_val (byte_mod 127)) 127) with 127.
      change (Z.shiftr (Z.land (byte_val (byte_mod 127)) 128) 7) with 0.
      unfold extended_length. simpl (127 =? 126). simpl (127 =? 127).
      change (b0 :: byte_mod 127 :: e ++ payload)
        with ([b0; byte_mod 127] ++ e ++ payload).
      rewrite !len_app. change (len [b0; byte_mod 127]) with 2.
      assert (len e = 8) as Le' by (unfold len; lia).
      rewrite Le'.
      destruct (Z.ltb_spec (2 + (8 + len payload)) 10); [lia|].
      rewrite slice_app_mid by (done || lia). rewrite Ue. simpl.
      change (b0 :: byte_mod 127 :: e ++ payload)
        with ([b0; byte_mod 127] ++ e ++ payload).
      unfold take_payload. rewrite !len_app, Le'.
      change (len [b0; byte_mod 127]) with 2.
      destruct (Z.ltb_spec (2 + (8 + len payload)) (10 + len payload)); [lia|].
      rewrite (app_assoc [_; _] e payload).
      rewrite slice_app_r; [|rewrite len_app, Le'; done|lia].
      f_equal. f_equal. lia.
Qed.

(** ** Masked frames *)

Lemma extended_length_Some (data : bytes) (len7 pl off : Z) :
  extended_length data len7 = Some (pl, off) →
  pl = declared_length data len7 ∧ off = header_size len7.
Proof.
  unfold extended_length, declared_length, header_size.
  repeat case_match; by intros [= <- <-].
Qed.

Lemma lxor_byte_bound (a b : Z) :
  0 <= a < 256 → 0 <= b < 256 → 0 <= Z.lxor a b < 256.
Proof.
  intros Ha Hb.
  assert (0 <= Z.lxor a b) as Hnn by (apply Z.lxor_nonneg; lia).
  split; [done|].
  destruct (Z.eq_dec (Z.lxor a b) 0) as [->|Hne]; [lia|].
  change 256 with (2 ^ 8). apply Z.log2_lt_pow2; [lia|].
  pose proof (Z.log2_lxor a b ltac:(lia) ltac:(lia)) as Hl.
  assert (∀ x, 0 <= x < 256 → Z.log2 x < 8) as Hlog.
  { intros x Hx. destruct (Z.eq_dec x 0) as [->|]; [done|].
    apply Z.log2_lt_pow2; lia. }
  pose proof (Hlog a Ha). pose proof (Hlog b Hb). lia.
Qed.

Lemma unmask_lookup (key payload : bytes) (i : nat) (raw : byte) :
  payload !! i = Some raw →
  ∃ out, unmask key payload !! i = Some out
    ∧ byte_val out
      = Z.lxor (byte_val raw) (byte_val (nth (i mod 4)%nat key x00)).
Proof.
  intros Hraw. unfold unmask. rewrite list_lookup_imap, Hraw. simpl.
  eexists; split; [done|]. rewrite byte_mod_val.
  apply Z.mod_small, lxor_byte_bound; apply byte_val_range.
Qed.

Lemma unmask_length (key payload : bytes) :
  length (unmask key payload) = length payload.
Proof. unfold unmask. apply length_imap. Qed.

Lemma mask_flag (b : byte) :
  Z.land (byte_val b) 128 ≠ 0 → Z.shiftr (Z.land (byte_val b) 128) 7 = 1.
Proof. destruct b; vm_compute; done. Qed.

(** C4. When the mask flag is set, the four bytes after the length field
    are the masking key: the frame consumes header, key and payload, and
    byte [i] of the returned payload is byte [i] of the raw payload XOR
    byte [i mod 4] of the key. *)
Theorem masked_frame_unmasked (b1 b2 : byte) (rest : bytes) (f : frame) :
  let data := b1 :: b2 :: rest in
  let len7 := Z.land (byte_val b2) 127 in
  let off := header_size len7 in
  let plen := declared_length data len7 in
  Z.land (byte_val b2) 128 ≠ 0 →
  parse data = Some f →
  frame_length f = off + 4 + plen
  ∧ len (payload f) = plen
  ∧ ∀ i : nat, Z.of_nat i < plen →
      ∃ raw k out,
        data !! (Z.to_nat off + 4 + i)%nat = Some raw
        ∧ data !! (Z.to_nat off + i mod 4)%nat = Some k
        ∧ payload f !! i = Some out
        ∧ byte_val out = Z.lxor (byte_val raw) (byte_val k).
Proof.
  intros data len7 off plen Hmask Hp. revert Hp.
  unfold data at 1. rewrite parse_stages. cbv zeta.
  fold data. fold len7. apply mask_flag in Hmask. rewrite Hmask.
  assert (2 <= len data) as H2 by (unfold len; simpl; lia).
  pose proof (byte_val_range b2) as Hb2.
  destruct (extended_length data len7) as [[pl o]|] eqn:E1; [|done].
  pose proof (extended_length_bounds _ _ _ _
                (land_nonneg_l _ 127 (proj1 Hb2)) H2 E1) as (Hpl & Ho & Hol).
  apply extended_length_Some in E1 as [-> ->].
  fold plen off in Hpl, Ho, Hol |- *.
  clearbody plen off data. cbn [mbind option_bind].
  unfold masking_key. simpl (1 =? 0).
  destruct (Z.ltb_spec (len data) (off + 4)) as [|Hk]; [done|]. simpl.
  unfold take_payload.
  destruct (Z.ltb_spec (len data) (off + 4 + plen)) as [|Hp]; [done|].
  intros [= <-]. simpl.
  set (key := slice off (off + 4) data).
  assert (len key = 4) as Hkey.
  { unfold key. rewrite slice_length; lia. }
  rewrite bool_decide_eq_false_2 by (intros E; rewrite E in Hkey; done).
  simpl. split; [lia|]. split.
  { unfold len. rewrite unmask_length.
    fold (len (slice (off + 4) (off + 4 + plen) data)).
    rewrite slice_length; lia. }
  intros i Hi.
  destruct (slice (off + 4) (off + 4 + plen) data !! i) as [raw|] eqn:Hraw.
  2:{ apply lookup_ge_None in Hraw.
      pose proof (slice_length (off + 4) (off + 4 + plen) data
                    ltac:(lia) ltac:(lia) ltac:(lia)) as HL.
      unfold len in HL. lia. }
  destruct (unmask_lookup key _ i raw Hraw) as (out & Hout & Hval).
  assert ((i mod 4 < 4)%nat) as Hm by (apply Nat.mod_upper_bound; lia).
  destruct (key !! (i mod 4)%nat) as [k|] eqn:Hkb.
  2:{ apply lookup_ge_None in Hkb. unfold len in Hkey. lia. }
  exists raw, k, out. rewrite slice_lookup in Hraw by lia.
  unfold key in Hkb. rewrite slice_lookup in Hkb by lia.
  replace (Z.to_nat (off + 4) + i)%nat with (Z.to_nat off + 4 + i)%nat
    in Hraw by lia.
  repeat split; try done.
  rewrite Hval. f_equal. f_equal.
  rewrite nth_lookup. fold key.
  unfold key. rewrite slice_lookup by lia. by rewrite Hkb.
Qed.

(** ** Sets *)

Section PySetFacts.
Context {A : Type} `{EqDecision A}.
Implicit Types (x y : A) (l : list A).

Lemma elem_of_set_add x y l : y ∈ set_add x l ↔ y = x ∨ y ∈ l.
Proof.
  unfold set_add. destruct (decide (x ∈ l)) as [Hx|Hx].
  - split; [by right|]. by intros [->|?].
  - rewrite elem_of_app, list_elem_of_singleton. tauto.
Qed.

Lemma set_add_id x l : x ∈ l → set_add x l = l.
Proof. unfold set_add. intros. by rewrite decide_True. Qed.

Lemma NoDup_set_add x l : NoDup l → NoDup (set_add x l).
Proof.
  unfold set_add. intros Hl. destruct (decide (x ∈ l)); [done|].
  apply NoDup_app. split_and!; [done| |apply NoDup_singleton].
  intros y Hy ->%list_elem_of_singleton. done.
Qed.

Lemma set_add_nonempty x l : set_add x l ≠ [].
Proof.
  intros E. assert (x ∈ set_add x l) as H by (apply elem_of_set_add; auto).
  rewrite E in H. by apply not_elem_of_nil in H.
Qed.

Lemma elem_of_set_discard x y l : y ∈ set_discard x l ↔ y ∈ l ∧ y ≠ x.
Proof. unfold set_discard. rewrite list_elem_of_filter. tauto. Qed.

Lemma NoDup_set_discard x l : NoDup l → NoDup (set_discard x l).
Proof. apply NoDup_filter. Qed.

Lemma set_discard_idemp x l :
  set_discard x (set_discard x l) = set_discard x l.
Proof.
  unfold set_discard. induction l as [|y l IH]; [done|].
  rewrite filter_cons. destruct (decide (y ≠ x)); [|done].
  rewrite filter_cons, decide_True by done. by rewrite IH.
Qed.

Lemma set_discard_notin x l : x ∉ l → set_discard x l = l.
Proof.
  unfold set_discard. induction l as [|y l IH]; [done|].
  rewrite not_elem_of_cons. intros [Hne Hl].
  rewrite filter_cons, decide_True by done. by rewrite IH.
Qed.

Lemma filter_eq_notin x l : x ∉ l → filter (fun y => y = x) l = [].
Proof.
  induction l as [|y l IH]; [done|].
  rewrite not_elem_of_cons. intros [Hne Hl].
  rewrite filter_cons, decide_False by done. auto.
Qed.

Lemma single_entry x l :
  NoDup l → x ∈ l → length (filter (fun y => y = x) l) = 1%nat.
Proof.
  induction 1 as [|y l Hy Hl IH]; [by intros ?%not_elem_of_nil|].
  rewrite filter_cons. intros [->|Hx]%elem_of_cons.
  - rewrite decide_True by done. simpl. by rewrite filter_eq_notin.
  - rewrite decide_False by (intros ->; done). auto.
Qed.

End PySetFacts.

(** ** Registry updates *)

Lemma join_room_rooms (s : server) (room_id r : pykey) (c : conn) :
  rooms (fst (join_room s room_id c)) !! r
  = if decide (r = room_id)
    then Some (set_add c (default [] (rooms s !! room_id)))
    else rooms s !! r.
Proof.
  assert (rooms (fst (join_room s room_id c))
          = alter (set_add c) room_id
              match rooms s !! room_id with
              | Some _ => rooms s
              | None => <[room_id:=[]]> (rooms s)
              end) as ->.
  { unfold join_room. by destruct (clients s !! c). }
  destruct (decide (r = room_id)) as [->|Hne].
  - rewrite lookup_alter_eq. destruct (rooms s !! room_id) as [m|] eqn:E.
    + by rewrite E.
    + by rewrite lookup_insert_eq.
  - rewrite lookup_alter_ne by done.
    destruct (rooms s !! room_id); [done|]. by rewrite lookup_insert_ne.
Qed.

Lemma join_room_clients (s : server) (room_id : pykey) (c c' : conn) :
  clients (fst (join_room s room_id c)) !! c'
  = if decide (c' = c)
    then (fun info => {| ci_id := ci_id info; ci_reader := ci_reader info;
                         ci_writer := ci_writer info;
                         ci_rooms := set_add room_id (ci_rooms info) |})
           <$> clients s !! c
    else clients s !! c'.
Proof.
  unfold join_room. destruct (clients s !! c) as [info|] eqn:E; simpl.
  - destruct (decide (c' = c)) as [->|Hne].
    + by rewrite lookup_insert_eq.
    + by rewrite lookup_insert_ne.
  - destruct (decide (c' = c)) as [->|Hne]; [by rewrite E|done].
Qed.

Lemma join_room_flag (s : server) (room_id : pykey) (c : conn) :
  snd (join_room s room_id c) = bool_decide (is_Some (clients s !! c)).
Proof.
  unfold join_room. by destruct (clients s !! c).
Qed.

Lemma leave_room_lookup (c : conn) (rs : gmap pykey (list conn))
    (room_id r : pykey) :
  leave_room c rs room_id !! r
  = if decide (r = room_id)
    then m ← rs !! r;
         if bool_decide (set_discard c m = []) then None
         else Some (set_discard c m)
    else rs !! r.
Proof.
  unfold leave_room. destruct (decide (r = room_id)) as [->|Hne].
  - destruct (rs !! room_id) as [m|] eqn:E; simpl; [|done].
    case_bool_decide.
    + by rewrite lookup_delete_eq.
    + by rewrite lookup_insert_eq.
  - destruct (rs !! room_id) as [m|] eqn:E; [|done].
    case_bool_decide.
    + by rewrite lookup_delete_ne.
    + by rewrite lookup_insert_ne.
Qed.

Lemma leave_rooms_lookup (c : conn) (room_ids : list pykey)
    (rs : gmap pykey (list conn)) (r : pykey) :
  foldl (leave_room c) rs room_ids !! r
  = if decide (r ∈ room_ids)
    then m ← rs !! r;
         if bool_decide (set_discard c m = []) then None
         else Some (set_discard c m)
    else rs !! r.
Proof.
  revert rs. induction room_ids as [|r0 l IH]; intros rs.
  { destruct (decide (r ∈ [])) as [H|]; [by apply not_elem_of_nil in H|done]. }
  cbn [foldl]. rewrite IH, leave_room_lookup.
  destruct (decide (r = r0)) as [->|Hne].
  - destruct (decide (r0 ∈ r0 :: l)) as [_|H];
      [|by destruct H; apply elem_of_cons; left].
    destruct (decide (r0 ∈ l)); [|done].
    destruct (rs !! r0) as [m|]; simpl; [|done].
    case_bool_decide as E; simpl; [done|].
    by rewrite set_discard_idemp, bool_decide_eq_false_2.
  - destruct (decide (r ∈ l)) as [Hl|Hl], (decide (r ∈ r0 :: l)) as [Hr|Hr];
      try done.
    + destruct Hr. apply elem_of_cons. by right.
    + apply elem_of_cons in Hr as [?|?]; done.
Qed.

(** ** The registries stay consistent *)

Lemma subset_empty : registry_subset empty_server.
Proof. intros c info r H. simpl in H. by rewrite lookup_empty in H. Qed.

Lemma subset_store_client (s : server) (c : conn) :
  registry_subset s → registry_subset (store_client s c).
Proof.
  intros Hs c' info r. unfold store_client. simpl.
  destruct (decide (c' = c)) as [->|Hne].
  - rewrite lookup_insert_eq. intros [= <-]. simpl.
    by intros ?%not_elem_of_nil.
  - rewrite lookup_insert_ne by done. apply Hs.
Qed.

Lemma subset_join_room (s : server) (room_id : pykey) (c : conn) :
  registry_subset s → registry_subset (fst (join_room s room_id c)).
Proof.
  intros Hs c' info r. rewrite join_room_clients, join_room_rooms.
  intros Hc Hr.
  assert (r = room_id ∧ c' = c
          ∨ ∃ m, rooms s !! r = Some m ∧ c' ∈ m) as [[-> ->]|(m & Hm & Hin)].
  { destruct (decide (c' = c)) as [->|Hne].
    - destruct (clients s !! c) as [info0|] eqn:E; [|done].
      injection Hc as <-. simpl in Hr.
      apply elem_of_set_add in Hr as [->|Hr]; [by left|].
      right. by apply (Hs c info0).
    - right. by apply (Hs c' info). }
  - rewrite decide_True by done. eexists; split; [done|].
    apply elem_of_set_add. by left.
  - destruct (decide (r = room_id)) as [->|Hne].
    + eexists; split; [done|]. rewrite Hm. simpl.
      apply elem_of_set_add. by right.
    + by exists m.
Qed.

Lemma subset_unregister (s s' : server) (c : conn) :
  registry_subset s → unregister s c = Some s' → registry_subset s'.
Proof.
  intros Hs. unfold unregister.
  destruct (clients s !! c) as [info0|] eqn:E; [|done].
  intros [= <-] c' info r. simpl.
  destruct (decide (c' = c)) as [->|Hne]; [by rewrite lookup_delete_eq|].
  rewrite lookup_delete_ne by done. intros Hc Hr.
  destruct (Hs c' info r Hc Hr) as (m & Hm & Hin).
  rewrite leave_rooms_lookup, Hm. simpl.
  assert (c' ∈ set_discard c m) as Hd by (by apply elem_of_set_discard).
  destruct (decide (r ∈ ci_rooms info0)); [|by exists m].
  rewrite bool_decide_eq_false_2.
  - by eexists.
  - intros Ee. rewrite Ee in Hd. by apply not_elem_of_nil in Hd.
Qed.

Lemma subset_apply_action (s : server) (a : action) :
  registry_subset s → registry_subset (apply_action s a).
Proof.
  intros Hs. destruct a as [c|c r|c]; simpl.
  - by apply subset_store_client.
  - by apply subset_join_room.
  - destruct (unregister s c) as [s'|] eqn:E; simpl; [|done].
    by apply (subset_unregister s s' c).
Qed.

Lemma consistent_empty : consistent empty_server.
Proof.
  split; [apply subset_empty| |]; intros r m; simpl;
    by rewrite lookup_empty.
Qed.

Lemma consistent_store_client (s : server) (c : conn) :
  consistent s → clients s !! c = None → consistent (store_client s c).
Proof.
  intros [H1 H2 H3] Hc. split; [by apply subset_store_client| |done].
  intros r m c' Hr Hin. simpl in *.
  destruct (H2 r m c' Hr Hin) as (info & Hi & Hri).
  exists info. split; [|done].
  rewrite lookup_insert_ne; [done|]. intros ->. congruence.
Qed.

Lemma consistent_join_room (s : server) (room_id : pykey) (c : conn) :
  consistent s → is_Some (clients s !! c) →
  consistent (fst (join_room s room_id c)).
Proof.
  intros [H1 H2 H3] [info0 Hc]. split; [by apply subset_join_room| |].
  - intros r m c'. rewrite join_room_rooms, join_room_clients, Hc. simpl.
    intros Hr Hin.
    assert (r = room_id ∧ c' = c
            ∨ ∃ info, clients s !! c' = Some info ∧ r ∈ ci_rooms info)
      as [[-> ->]|(info & Hi & Hri)].
    { destruct (decide (r = room_id)) as [->|Hne].
      - injection Hr as <-.
        apply elem_of_set_add in Hin as [->|Hin]; [by left|].
        destruct (rooms s !! room_id) as [m0|] eqn:E;
          [|by apply not_elem_of_nil in Hin].
        right. by apply (H2 room_id m0). 
      - right. by apply (H2 r m). }
    + rewrite decide_True by done. eexists; split; [done|]. simpl.
      apply elem_of_set_add. by left.
    + destruct (decide (c' = c)) as [->|Hne]; [|by exists info].
      eexists; split; [done|]. simpl. apply elem_of_set_add. right.
      congruence.
  - intros r m. rewrite join_room_rooms.
    destruct (decide (r = room_id)) as [->|Hne]; [|apply H3].
    intros [= <-]. split; [apply set_add_nonempty|].
    apply NoDup_set_add.
    destruct (rooms s !! room_id) as [m0|] eqn:E; [|apply NoDup_nil_2].
    by apply (H3 room_id m0).
Qed.

Lemma unregister_rooms (s s' : server) (c : conn) (r : pykey)
    (m' : list conn) :
  members_registered s → unregister s c = Some s' →
  rooms s' !! r = Some m' →
  ∃ m, rooms s !! r = Some m ∧ m' = set_discard c m.
Proof.
  intros H2. unfold unregister.
  destruct (clients s !! c) as [info0|] eqn:E; [|done].
  intros [= <-]. simpl. rewrite leave_rooms_lookup.
  destruct (rooms s !! r) as [m|] eqn:Hm; simpl.
  2:{ by destruct (decide (r ∈ ci_rooms info0)). }
  destruct (decide (r ∈ ci_rooms info0)) as [Hin|Hin].
  - case_bool_decide; [done|]. intros [= <-]. by exists m.
  - intros [= <-]. exists m. split; [done|].
    symmetry. apply set_discard_notin. intros Hc.
    destruct (H2 r m c Hm Hc) as (info & Hi & Hri). congruence.
Qed.

Lemma consistent_unregister (s s' : server) (c : conn) :
  consistent s → unregister s c = Some s' → consistent s'.
Proof.
  intros [H1 H2 H3] Hu. split; [by apply (subset_unregister s s' c)| |].
  - intros r m' c' Hr Hin.
    destruct (unregister_rooms s s' c r m' H2 Hu Hr) as (m & Hm & ->).
    apply elem_of_set_discard in Hin as [Hin Hne].
    destruct (H2 r m c' Hm Hin) as (info & Hi & Hri).
    exists info. split; [|done].
    unfold unregister in Hu. destruct (clients s !! c); [|done].
    injection Hu as <-. simpl. by rewrite lookup_delete_ne.
  - intros r m' Hr.
    destruct (unregister_rooms s s' c r m' H2 Hu Hr) as (m & Hm & ->).
    split; [|apply NoDup_set_discard; by apply (H3 r m)].
    intros Ee. revert Hr. unfold unregister in Hu.
    destruct (clients s !! c) as [info0|]; [|done].
    injection Hu as <-. simpl. rewrite leave_rooms_lookup, Hm. simpl.
    rewrite Ee. destruct (decide (r ∈ ci_rooms info0)); [done|].
    intros [= ->]. by destruct (H3 r [] Hm).
Qed.

(** ** Broadcast and message handling *)

Section HandlerFacts.

Variable json_loads : str → loads_result.
Variable json_dumps : json → str.
Variable write_raises : conn → bool.

Lemma interfere_state (room_id : pykey) (acts : list action) (s : server)
    (it : set_iter) :
  fst (interfere room_id acts s it) = foldl apply_action s acts.
Proof.
  revert s it. induction acts as [|a acts IH]; intros s it; [done|].
  simpl. apply IH.
Qed.

Lemma interfere_iter (room_id : pykey) (acts : list action) (s : server)
    (it : set_iter) :
  si_used (snd (interfere room_id acts s it)) = si_used it
  ∧ si_pos (snd (interfere room_id acts s it)) = si_pos it.
Proof.
  revert s it. induction acts as [|a acts IH]; intros s it; [done|].
  cbn [interfere]. set (s' := apply_action s a).
  destruct (IH s'
    {| si_live := si_live it && bool_decide (is_Some (rooms s' !! room_id));
       si_used := si_used it; si_pos := si_pos it |}) as [-> ->]. done.
Qed.

(** Whatever the other tasks do, the loop of [broadcast_to_room] ends:
    the fuel it is given is never used up. *)
Lemma broadcast_loop_total (fuel : nat) (sched : schedule) (s : server)
    (room_id : pykey) (frame : bytes) (exclude : option conn)
    (it : set_iter) :
  (si_used it - si_pos it < fuel)%nat →
  snd (broadcast_loop write_raises fuel sched s room_id frame exclude it)
  ≠ OutOfFuel.
Proof.
  revert sched s it. induction fuel as [|fuel IH]; intros sched s it Hf;
    [lia|].
  cbn [broadcast_loop]. unfold set_iter_next.
  case_bool_decide as Hsz; [done|].
  destruct (iter_target s room_id it !! si_pos it) as [c|] eqn:Hc; [|done].
  apply lookup_lt_Some in Hc.
  assert (length (iter_target s room_id it) = si_used it) as Hu.
  { destruct (decide (length (iter_target s room_id it) = si_used it));
      [done|by destruct Hsz]. }
  set (it' := {| si_live := si_live it; si_used := si_used it;
                 si_pos := S (si_pos it) |}).
  destruct (_ && _).
  - destruct (write_raises c).
    + specialize (IH sched s it'). destruct (broadcast_loop _ _ _ _ _ _ _ _)
        as [[? ?] ?]. simpl in *. apply IH. lia.
    + pose proof (interfere_iter room_id (hd [] sched) s it') as [Hiu Hip].
      destruct (interfere room_id (hd [] sched) s it') as [s1 it1].
      simpl in Hiu, Hip.
      specialize (IH (tl sched) s1 it1).
      destruct (broadcast_loop _ _ _ _ _ _ _ _) as [[? ?] ?]. simpl in *.
      apply IH. lia.
  - apply IH. simpl. lia.
Qed.

Lemma broadcast_to_room_total (sched : schedule) (s : server)
    (room_id : pykey) (data : json) (exclude : option conn) :
  (broadcast_to_room json_dumps write_raises sched s room_id data exclude).2
  ≠ OutOfFuel.
Proof.
  unfold broadcast_to_room.
  destruct (rooms s !! room_id) as [members|]; [|done].
  destruct (build _ _); [|done].
  apply broadcast_loop_total. simpl. lia.
Qed.

Lemma broadcast_loop_uninterrupted (fuel p : nat) (s : server)
    (room_id : pykey) (frame : bytes) (exclude : option conn)
    (members : list conn) :
  rooms s !! room_id = Some members →
  (length members - p < fuel)%nat →
  broadcast_loop write_raises fuel [] s room_id frame exclude
    {| si_live := true; si_used := length members; si_pos := p |}
  = (s, deliveries write_raises frame exclude s (drop p members), Returned).
Proof.
  intros Hm. revert p. induction fuel as [|fuel IH]; intros p Hf; [lia|].
  cbn [broadcast_loop]. unfold set_iter_next, iter_target. simpl.
  rewrite Hm. simpl.
  rewrite bool_decide_eq_false_2 by (intros H; by apply H).
  destruct (members !! p) as [c|] eqn:Hc.
  - pose proof (lookup_lt_Some _ _ _ Hc) as Hlt.
    rewrite (drop_S _ _ _ Hc). unfold deliveries at 1. cbn [mbind list_bind].
    fold (deliveries write_raises frame exclude s (drop (S p) members)).
    destruct (_ && _).
    + destruct (write_raises c); rewrite IH by lia; done.
    + rewrite IH by lia. done.
  - apply lookup_ge_None in Hc. by rewrite drop_ge by lia.
Qed.

Lemma broadcast_to_room_uninterrupted (s : server) (room_id : pykey)
    (data : json) (exclude : option conn) (members : list conn)
    (frame : bytes) :
  rooms s !! room_id = Some members →
  build (Str (json_dumps data)) 1 = Some frame →
  broadcast_to_room json_dumps write_raises [] s room_id data exclude
  = (s, deliveries write_raises frame exclude s members, Returned).
Proof.
  intros Hm Hb. unfold broadcast_to_room. rewrite Hm, Hb.
  rewrite (broadcast_loop_uninterrupted _ 0 _ _ _ _ members) by (done || lia).
  done.
Qed.

Lemma broadcast_to_room_state (s : server) (room_id : pykey)
    (data : json) (exclude : option conn) :
  (broadcast_to_room json_dumps write_raises [] s room_id data exclude).1.1
  = s.
Proof.
  unfold broadcast_to_room.
  destruct (rooms s !! room_id) as [members|] eqn:Hm; [|done].
  destruct (build _ _); [|done].
  by rewrite (broadcast_loop_uninterrupted _ 0 _ _ _ _ members)
    by (done || lia).
Qed.

Lemma writes_deliveries (frame : bytes) (exclude : option conn) (s : server)
    (members : list conn) :
  writes (deliveries write_raises frame exclude s members)
  = (fun c => (c, frame))
      <$> filter (fun c => Some c ≠ exclude ∧ is_Some (clients s !! c))
            members.
Proof.
  induction members as [|c l IH]; [done|].
  unfold deliveries. cbn [mbind list_bind].
  fold (deliveries write_raises frame exclude s l).
  unfold writes. rewrite omap_app.
  fold (writes (deliveries write_raises frame exclude s l)).
  rewrite IH, filter_cons.
  destruct (decide (Some c ≠ exclude ∧ is_Some (clients s !! c)))
    as [[H1 H2]|Hn].
  - rewrite !bool_decide_eq_true_2 by done. simpl.
    by destruct (write_raises c).
  - assert (bool_decide (Some c ≠ exclude)
            && bool_decide (is_Some (clients s !! c)) = false) as ->.
    { apply andb_false_iff. rewrite !bool_decide_eq_false.
      destruct (decide (Some c ≠ exclude)); [right|left]; tauto. }
    done.
Qed.

(** Members that are the sender or are not registered are passed over
    without any suspension. *)
Lemma broadcast_loop_skip (fuel : nat) (sched : schedule) (s : server)
    (room_id : pykey) (frame : bytes) (exclude : option conn)
    (members pre rest : list conn) :
  rooms s !! room_id = Some members → members = pre ++ rest →
  Forall (fun c => Some c = exclude ∨ clients s !! c = None) pre →
  broadcast_loop write_raises (length pre + fuel) sched s room_id frame
    exclude {| si_live := true; si_used := length members; si_pos := 0 |}
  = broadcast_loop write_raises fuel sched s room_id frame exclude
      {| si_live := true; si_used := length members;
         si_pos := length pre |}.
Proof.
  intros Hm -> Hpre.
  assert (∀ seen todo, pre = seen ++ todo →
    broadcast_loop write_raises (length todo + fuel) sched s room_id frame
      exclude {| si_live := true; si_used := length (pre ++ rest);
                 si_pos := length seen |}
    = broadcast_loop write_raises fuel sched s room_id frame exclude
        {| si_live := true; si_used := length (pre ++ rest);
           si_pos := length pre |}) as H.
  { intros seen todo. revert seen.
    induction todo as [|c todo IH]; intros seen Hsplit.
    - rewrite app_nil_r in Hsplit. by subst seen.
    - cbn [length Nat.add broadcast_loop].
      unfold set_iter_next, iter_target. cbn [si_live si_used si_pos].
      rewrite Hm. cbn [default from_option id].
      rewrite bool_decide_eq_false_2 by (intros E; by apply E).
      assert ((pre ++ rest) !! length seen = Some c) as ->.
      { rewrite Hsplit, <- app_assoc. cbn [app].
        by rewrite list_lookup_middle. }
      assert (bool_decide (Some c ≠ exclude)
              && bool_decide (is_Some (clients s !! c)) = false) as ->.
      { assert (c ∈ pre) as Hc.
        { rewrite Hsplit. apply elem_of_app. right. apply elem_of_cons.
          by left. }
        rewrite Forall_forall in Hpre.
        destruct (Hpre c Hc) as [He|Hn].
        - rewrite bool_decide_eq_false_2; [done|]. by intros E.
        - rewrite Hn, andb_comm.
          rewrite bool_decide_eq_false_2; [done|]. by intros [? ?]. }
      replace (S (length seen)) with (length (seen ++ [c]))
        by (rewrite length_app; simpl; lia).
      apply IH. by rewrite <- app_assoc. }
  by apply (H [] pre).
Qed.

(** The defect behind C1, in general: when another connection joins the
    room while the first send of a broadcast is awaited, the iteration
    raises and every member after the first recipient is left out. *)
Lemma join_during_send_aborts_broadcast (s : server) (room_id : pykey)
    (data : json) (exclude : option conn) (frame : bytes)
    (pre post : list conn) (b d : conn) :
  rooms s !! room_id = Some (pre ++ b :: post) →
  Forall (fun c => Some c = exclude ∨ clients s !! c = None) pre →
  Some b ≠ exclude → is_Some (clients s !! b) → write_raises b = false →
  d ∉ pre ++ b :: post →
  build (Str (json_dumps data)) 1 = Some frame →
  broadcast_to_room json_dumps write_raises [[AJoin d room_id]] s room_id
    data exclude
  = ((join_room s room_id d).1, [Wrote b frame], Raised RuntimeError).
Proof.
  intros Hm Hpre Hb Hreg Hw Hd Hf. unfold broadcast_to_room.
  rewrite Hm, Hf.
  replace (S (length (pre ++ b :: post)))
    with (length pre + S (S (length post)))%nat
    by (rewrite length_app; simpl; lia).
  rewrite (broadcast_loop_skip _ _ _ _ _ _ _ pre (b :: post) Hm eq_refl Hpre).
  cbn [broadcast_loop]. unfold set_iter_next, iter_target.
  cbn [si_live si_used si_pos]. rewrite Hm. cbn [default from_option id].
  rewrite bool_decide_eq_false_2 by (intros E; by apply E).
  rewrite list_lookup_middle by done.
  rewrite !bool_decide_eq_true_2 by done. cbn [andb]. rewrite Hw.
  cbn [hd tl interfere apply_action broadcast_loop].
  unfold set_iter_next, iter_target. cbn [si_live si_used si_pos andb].
  rewrite join_room_rooms, decide_True by done.
  rewrite (bool_decide_eq_true_2 (is_Some _)) by (by eexists).
  rewrite Hm. cbn [default from_option id].
  unfold set_add. rewrite decide_False by done.
  rewrite bool_decide_eq_true_2; [done|].
  rewrite !length_app. simpl. lia.
Qed.

Lemma broadcast_loop_preserves (P : server → Prop) (fuel : nat)
    (sched : schedule) (s : server) (room_id : pykey) (frame : bytes)
    (exclude : option conn) (it : set_iter) :
  (∀ s a, P s → P (apply_action s a)) → P s →
  P (broadcast_loop write_raises fuel sched s room_id frame exclude it).1.1.
Proof.
  intros HP. revert sched s it.
  induction fuel as [|fuel IH]; intros sched s it Hs; [done|].
  cbn [broadcast_loop].
  destruct (set_iter_next _ _) as [c it'| |]; [|done|done].
  destruct (_ && _); [|by apply IH].
  destruct (write_raises c).
  - specialize (IH sched s it' Hs).
    by destruct (broadcast_loop _ _ _ _ _ _ _ _) as [[? ?] ?].
  - pose proof (interfere_state room_id (hd [] sched) s it') as Hi.
    destruct (interfere room_id (hd [] sched) s it') as [s1 it1].
    simpl in Hi. specialize (IH (tl sched) s1 it1).
    destruct (broadcast_loop _ _ _ _ _ _ _ _) as [[? ?] ?]. simpl in *.
    apply IH. rewrite Hi. clear -HP Hs.
    revert s Hs. induction (hd [] sched) as [|a l IHl]; intros s Hs;
      [done|]. simpl. apply IHl. by apply HP.
Qed.

Lemma broadcast_loop_events (fuel : nat) (sched : schedule) (s : server)
    (room_id : pykey) (frame : bytes) (exclude : option conn)
    (it : set_iter) :
  let evs :=
    (broadcast_loop write_raises fuel sched s room_id frame exclude it).1.2 in
  parsed evs = [] ∧ closes evs = [].
Proof.
  revert sched s it. induction fuel as [|fuel IH]; intros sched s it; [done|].
  cbn [broadcast_loop].
  destruct (set_iter_next _ _) as [c it'| |]; [|done|done].
  destruct (_ && _); [|by apply IH].
  destruct (write_raises c).
  - specialize (IH sched s it').
    by destruct (broadcast_loop _ _ _ _ _ _ _ _) as [[? ?] ?].
  - destruct (interfere room_id (hd [] sched) s it') as [s1 it1].
    specialize (IH (tl sched) s1 it1).
    by destruct (broadcast_loop _ _ _ _ _ _ _ _) as [[? ?] ?].
Qed.

Lemma send_to_client_events (c : conn) (data : json) :
  let evs := send_to_client json_dumps write_raises c data in
  parsed evs = [] ∧ closes evs = [].
Proof.
  unfold send_to_client. destruct (build _ _); [|done].
  by destruct (write_raises c).
Qed.

Local Abbreviation handle :=
  (handle_message json_loads json_dumps write_raises).

Lemma handle_message_preserves (P : server → Prop) (sched : schedule)
    (s : server) (c : conn) (message : str) :
  (∀ s a, P s → P (apply_action s a)) → P s →
  P (fst (handle sched s c message)).
Proof.
  intros HP Hs. unfold handle_message.
  destruct (json_loads message) as [data| |]; try done.
  destruct (dict_get data _) as [t|]; try done.
  destruct (is_str t _).
  - destruct (as_key _) as [r|]; try done.
    pose proof (HP s (AJoin c r) Hs) as Hj. simpl in Hj.
    destruct (join_room s r c) as [s' []]; [|done].
    by destruct (print_raises _).
  - destruct (_ || _); try done.
    destruct (as_key _) as [r|]; try done.
    case_bool_decide; try done.
    unfold broadcast_to_room.
    destruct (rooms s !! r) as [members|]; try done.
    destruct (build _ _) as [frame|]; try done.
    pose proof (broadcast_loop_preserves P (S (length members)) sched s r
                  frame (Some c)
                  {| si_live := true; si_used := length members;
                     si_pos := 0 |} HP Hs) as Hb.
    by destruct (broadcast_loop _ _ _ _ _ _ _ _) as [[? ?] []].
Qed.

Lemma handle_message_events (sched : schedule) (s : server) (c : conn)
    (message : str) :
  let evs := snd (handle sched s c message) in
  parsed evs = [] ∧ closes evs = [].
Proof.
  unfold handle_message.
  destruct (json_loads message) as [data| |]; try done.
  destruct (dict_get data _) as [t|]; try done.
  destruct (is_str t _).
  - destruct (as_key _) as [r|]; try done.
    destruct (join_room s r c) as [s' []]; [|done].
    destruct (print_raises _); [done|]. simpl.
    apply send_to_client_events.
  - destruct (_ || _); try done.
    destruct (as_key _) as [r|]; try done.
    case_bool_decide; try done.
    unfold broadcast_to_room.
    destruct (rooms s !! r) as [members|]; try done.
    destruct (build _ _) as [frame|]; try done.
    pose proof (broadcast_loop_events (S (length members)) sched s r
                  frame (Some c)
                  {| si_live := true; si_used := length members;
                     si_pos := 0 |}) as [Hb1 Hb2].
    destruct (broadcast_loop _ _ _ _ _ _ _ _) as [[s' evs] []];
      simpl in *; unfold parsed, closes in *;
      rewrite ?omap_app, ?Hb1, ?Hb2; done.
Qed.

(** An uninterrupted handler either leaves the registries alone or
    performs one join. *)
Lemma handle_message_state (s : server) (c : conn) (message : str) :
  fst (handle [] s c message) = s
  ∨ ∃ r, fst (handle [] s c message) = fst (join_room s r c).
Proof.
  unfold handle_message.
  destruct (json_loads message) as [data| |]; try by left.
  destruct (dict_get data _) as [t|]; try by left.
  destruct (is_str t _).
  - destruct (as_key _) as [r|]; try by left.
    right. exists r. destruct (join_room s r c) as [s' []]; [|done].
    by destruct (print_raises _).
  - destruct (_ || _); try by left.
    destruct (as_key _) as [r|]; try by left.
    case_bool_decide; try by left.
    pose proof (broadcast_to_room_state s r data (Some c)) as Hb.
    destruct (broadcast_to_room _ _ _ _ _ _ _) as [[s' evs] []];
      simpl in *; by left.
Qed.

Lemma close_connection_state (s : server) (c : conn) :
  fst (close_connection s c) = default s (unregister s c).
Proof. unfold close_connection. by destruct (unregister s c). Qed.

Lemma reachable_consistent (s : server) :
  reachable json_loads json_dumps write_raises s → consistent s.
Proof.
  induction 1 as [|s c _ IH Hc|s c message _ IH Hc|s c _ IH].
  - apply consistent_empty.
  - by apply consistent_store_client.
  - destruct (handle_message_state s c message) as [->|[r ->]]; [done|].
    by apply consistent_join_room.
  - rewrite close_connection_state.
    destruct (unregister s c) as [s'|] eqn:E; [|done].
    by apply (consistent_unregister s s' c).
Qed.

(** ** Relaying *)

Lemma filter_ext_elem_of {A} (P Q : A → Prop) `{!∀ x, Decision (P x)}
    `{!∀ x, Decision (Q x)} (l : list A) :
  (∀ x, x ∈ l → P x ↔ Q x) → filter P l = filter Q l.
Proof.
  induction l as [|a l IH]; intros Hl; [done|].
  rewrite !filter_cons.
  rewrite IH by (intros x Hx; apply Hl, elem_of_cons; by right).
  assert (P a ↔ Q a) as Ha by (apply Hl, elem_of_cons; by left).
  destruct (decide (P a)), (decide (Q a)); tauto.
Qed.

Lemma relay_unhashable (sched : schedule) (s : server) (ws : conn)
    (message : str) (data : json) (t : option json) :
  json_loads message = Loaded data →
  dict_get data (lit "type") = Some t → is_relay t = true →
  stated_room data = None →
  handle sched s ws message = (s, [Printed LogErrorHandlingMessage]).
Proof.
  intros Hl Ht Hr Hk. unfold handle_message. rewrite Hl, Ht.
  unfold is_relay in Hr.
  destruct (is_str t (lit "join")) eqn:Hj.
  { destruct t as [[]|]; try done. simpl in Hj, Hr.
    apply bool_decide_eq_true in Hj as ->. done. }
  rewrite Hr. unfold stated_room in Hk. by rewrite Hk.
Qed.

Lemma relay_no_room (sched : schedule) (s : server) (ws : conn)
    (message : str) (data : json) (t : option json) (r : pykey) :
  json_loads message = Loaded data →
  dict_get data (lit "type") = Some t → is_relay t = true →
  stated_room data = Some r → rooms s !! r = None →
  handle sched s ws message = (s, []).
Proof.
  intros Hl Ht Hr Hk Hn. unfold handle_message. rewrite Hl, Ht.
  unfold is_relay in Hr.
  destruct (is_str t (lit "join")) eqn:Hj.
  { destruct t as [[]|]; try done. simpl in Hj, Hr.
    apply bool_decide_eq_true in Hj as ->. done. }
  rewrite Hr. unfold stated_room in Hk. rewrite Hk.
  rewrite bool_decide_eq_false_2; [done|]. rewrite Hn. by intros [? ?].
Qed.

Lemma relay_to_room (s : server) (ws : conn)
    (message : str) (data : json) (t : option json) (r : pykey)
    (members : list conn) (frame : bytes) :
  json_loads message = Loaded data →
  dict_get data (lit "type") = Some t → is_relay t = true →
  stated_room data = Some r → rooms s !! r = Some members →
  build (Str (json_dumps data)) 1 = Some frame →
  handle [] s ws message
  = (s, deliveries write_raises frame (Some ws) s members).
Proof.
  intros Hl Ht Hr Hk Hm Hb. unfold handle_message. rewrite Hl, Ht.
  unfold is_relay in Hr.
  destruct (is_str t (lit "join")) eqn:Hj.
  { destruct t as [[]|]; try done. simpl in Hj, Hr.
    apply bool_decide_eq_true in Hj as ->. done. }
  rewrite Hr. unfold stated_room in Hk. rewrite Hk.
  rewrite bool_decide_eq_true_2 by (by rewrite Hm).
  by rewrite (broadcast_to_room_uninterrupted s r data (Some ws) members
                frame Hm Hb).
Qed.

Lemma join_message (sched : schedule) (s : server) (c : conn)
    (message : str) (data : json) (t : option json) (r : pykey) :
  json_loads message = Loaded data →
  dict_get data (lit "type") = Some t → is_str t (lit "join") = true →
  stated_room data = Some r →
  fst (handle sched s c message) = fst (join_room s r c).
Proof.
  intros Hl Ht Hj Hk. unfold handle_message. rewrite Hl, Ht, Hj.
  unfold stated_room in Hk. rewrite Hk.
  destruct (join_room s r c) as [s' []]; [|done].
  by destruct (print_raises _).
Qed.

Lemma closed_absent_from_rooms (s : server) (c : conn) :
  reachable json_loads json_dumps write_raises s →
  ∀ r m, rooms (fst (close_connection s c)) !! r = Some m →
    (c ∉ m) ∧ m ≠ [].
Proof.
  intros Hreach r m Hr.
  assert (consistent (fst (close_connection s c))) as Hcons'.
  { apply reachable_consistent. by apply reachable_close. }
  split; [|by apply (cons_rooms _ Hcons' r m)].
  intros Hin.
  destruct (cons_members _ Hcons' r m c Hr Hin) as (info & Hi & _).
  revert Hi. rewrite close_connection_state. unfold unregister.
  pose proof (reachable_consistent s Hreach) as [_ H2 _].
  destruct (clients s !! c) eqn:E; simpl.
  - by rewrite lookup_delete_eq.
  - by rewrite E.
Qed.

(** C7. After a connection is closed it is in no registry and in no room,
    rooms emptied by its departure are gone (and a later broadcast naming
    one does nothing); closing an unregistered connection does nothing;
    joining a room twice leaves a single membership entry. *)
Theorem close_removes_connection_everywhere (s : server) (c : conn) :
  reachable json_loads json_dumps write_raises s →
  let s' := fst (close_connection s c) in
  clients s' !! c = None
  ∧ (∀ r m, rooms s' !! r = Some m → (c ∉ m) ∧ m ≠ [])
  ∧ (∀ r m, rooms s !! r = Some m → set_discard c m = [] →
       rooms s' !! r = None)
  ∧ (∀ sched ws message data t r,
       json_loads message = Loaded data →
       dict_get data (lit "type") = Some t → is_relay t = true →
       stated_room data = Some r → rooms s' !! r = None →
       handle sched s' ws message = (s', []))
  ∧ (clients s !! c = None → close_connection s c = (s, []))
  ∧ (∀ sched message data t r,
       is_Some (clients s !! c) →
       json_loads message = Loaded data →
       dict_get data (lit "type") = Some t →
       is_str t (lit "join") = true →
       stated_room data = Some r →
       ∃ m1, rooms (fst (handle sched s c message)) !! r = Some m1
         ∧ length (filter (fun x => x = c) m1) = 1%nat
         ∧ (∀ m, rooms s !! r = Some m → c ∈ m → m1 = m)).
Proof.
  intros Hreach s'. pose proof (reachable_consistent s Hreach) as Hcons.
  assert (consistent s') as Hcons'.
  { apply reachable_consistent. by apply reachable_close. }
  destruct Hcons as [H1 H2 H3].
  assert (clients s' !! c = None) as Hgone.
  { unfold s'. rewrite close_connection_state. unfold unregister.
    destruct (clients s !! c) eqn:E; simpl; [|done].
    by rewrite lookup_delete_eq. }
  split_and!.
  - done.
  - by apply closed_absent_from_rooms.
  - intros r m Hr Hd.
    assert (c ∈ m) as Hin.
    { destruct m as [|x m]; [by destruct (H3 r [] Hr)|].
      destruct (decide (x = c)) as [->|Hne]; [apply elem_of_cons; by left|].
      assert (x ∈ set_discard c (x :: m)) as Hx.
      { apply elem_of_set_discard. split; [apply elem_of_cons; by left|done]. }
      rewrite Hd in Hx. by apply not_elem_of_nil in Hx. }
    destruct (H2 r m c Hr Hin) as (info & Hi & Hri).
    unfold s'. rewrite close_connection_state. unfold unregister.
    rewrite Hi. simpl. rewrite leave_rooms_lookup, decide_True by done.
    rewrite Hr. simpl. by rewrite bool_decide_eq_true_2.
  - intros sched ws message data t r Hl Ht Hr Hk Hn.
    by apply (relay_no_room sched s' ws message data t r).
  - intros Hc. unfold close_connection, unregister. by rewrite Hc.
  - intros sched message data t r Hc Hl Ht Hj Hk.
    rewrite (join_message sched s c message data t r) by done.
    rewrite join_room_rooms, decide_True by done.
    eexists; split; [done|]. split.
    + apply single_entry; [|apply elem_of_set_add; by left].
      apply NoDup_set_add.
      destruct (rooms s !! r) as [m|] eqn:E; [|apply NoDup_nil_2].
      by apply (H3 r m).
    + intros m Hm Hin. rewrite Hm. simpl. by apply set_add_id.
Qed.

(** C8. In every state produced by joins, broadcasts and closes, under any
    interleaving, each registered connection is a member of every room in
    its own room set. *)
Theorem registries_agree (s : server) :
  op_reachable json_loads json_dumps write_raises s →
  ∀ c info r, clients s !! c = Some info → r ∈ ci_rooms info →
    ∃ members, rooms s !! r = Some members ∧ c ∈ members.
Proof.
  intros Hs. change (registry_subset s).
  induction Hs as [|s c _ IH|s c message sched _ IH|s c _ IH].
  - apply subset_empty.
  - by apply subset_store_client.
  - (* a message: at most a join of the sender's, and whatever the other
       tasks did while a broadcast was suspended *)
    apply handle_message_preserves; [apply subset_apply_action|done].
  - rewrite close_connection_state.
    apply (subset_apply_action s (AClose c) IH).
Qed.

(** ** The connection loop *)

Local Abbreviation floop :=
  (frame_loop json_loads json_dumps write_raises).
Local Abbreviation ondata :=
  (on_data json_loads json_dumps write_raises).
Local Abbreviation rloop :=
  (read_loop json_loads json_dumps write_raises).

Lemma slice_from_length (b : bytes) (n : Z) :
  0 <= n → length (slice_from n b) = (length b - Z.to_nat n)%nat.
Proof. intros. unfold slice_from. apply length_drop. Qed.

(** The inner loop always ends with the fuel [ondata] gives it. *)
Lemma frame_loop_total (fuel : nat) (s : server) (ws : conn)
    (buffer : bytes) :
  (length buffer < fuel)%nat →
  (floop fuel s ws buffer).2 ≠ LoopOutOfFuel.
Proof.
  revert s buffer. induction fuel as [|fuel IH]; intros s buffer Hf; [lia|].
  cbn [frame_loop]. case_bool_decide; [done|].
  destruct (parse buffer) as [f|] eqn:Hp; [|done].
  apply parse_length in Hp. unfold len in Hp.
  assert (length (slice_from (frame_length f) buffer) < fuel)%nat as Hlt.
  { rewrite slice_from_length by lia. lia. }
  assert (∀ s' evs,
    (let '(s2, evs2, x) :=
       floop fuel s' ws (slice_from (frame_length f) buffer) in
     (s2, Parsed f :: evs ++ evs2, x)).2 ≠ LoopOutOfFuel) as Hcont.
  { intros s' evs. specialize (IH s' _ Hlt).
    by destruct (floop fuel s' ws _) as [[? ?] ?]. }
  destruct (opcode f =? 8).
  { by destruct (close_connection s ws). }
  destruct (opcode f =? 9).
  { destruct (build _ _); [|done]. destruct (write_raises ws); [done|].
    apply Hcont. }
  destruct (opcode f =? 1); [|apply Hcont].
  destruct (utf8_decode _); [|done].
  destruct (handle [] s ws _). apply Hcont.
Qed.

Lemma on_data_total (s : server) (ws : conn) (buffer data : bytes) :
  (ondata s ws buffer data).2 ≠ LoopOutOfFuel.
Proof. unfold on_data. apply frame_loop_total. lia. Qed.

Lemma close_connection_events (s : server) (c : conn) :
  parsed (close_connection s c).2 = [].
Proof. unfold close_connection. by destruct (unregister s c). Qed.

Lemma teardown_events (s : server) (c : conn) (x : loop_exit) :
  parsed (teardown s c x).2 = [].
Proof.
  unfold teardown. pose proof (close_connection_events s c) as H.
  destruct (close_connection s c) as [s' evs]. simpl in *.
  unfold parsed in *. rewrite omap_app, H. by destruct x.
Qed.

(** A buffer that holds exactly one frame: the frame is taken, handled, and
    the loop is left with an empty buffer or ends the connection. *)
Lemma frame_loop_single (s : server) (ws : conn) (buffer : bytes)
    (f : frame) :
  parse buffer = Some f → frame_length f = len buffer →
  ∃ s' evs x,
    floop (S (length buffer)) s ws buffer = (s', Parsed f :: evs, x)
    ∧ parsed evs = []
    ∧ (x = NeedMore [] ∨ x = ReturnedAfterClose ∨ ∃ e, x = LoopRaised e).
Proof.
  intros Hp Hlen. pose proof (parse_length _ _ Hp) as Hl.
  cbn [frame_loop].
  rewrite bool_decide_eq_false_2
    by (intros ->; unfold len in Hl; simpl in Hl; lia).
  rewrite Hp.
  assert (slice_from (frame_length f) buffer = []) as ->.
  { unfold slice_from. apply drop_ge. unfold len in Hlen. lia. }
  assert (∀ s', floop (length buffer) s' ws [] = (s', [], NeedMore []))
    as Hrest.
  { intros s'. destruct (length buffer) eqn:E.
    - unfold len in Hl. lia.
    - done. }
  destruct (opcode f =? 8).
  { pose proof (close_connection_events s ws).
    destruct (close_connection s ws) as [s' evs]. eauto 10. }
  destruct (opcode f =? 9).
  { destruct (build _ _); [|by eauto 10].
    destruct (write_raises ws); [by eauto 10|].
    rewrite Hrest. eauto 10. }
  destruct (opcode f =? 1).
  2:{ rewrite Hrest. eauto 10. }
  destruct (utf8_decode _) as [message|]; [|by eauto 10].
  pose proof (handle_message_events [] s ws message) as [He _].
  destruct (handle [] s ws message) as [s' evs]. rewrite Hrest.
  simpl in He. exists s', (evs ++ []), (NeedMore []).
  rewrite app_nil_r. eauto.
Qed.

Lemma frame_loop_incomplete (fuel : nat) (s : server) (ws : conn)
    (buffer : bytes) :
  parse buffer = None →
  floop (S fuel) s ws buffer = (s, [], NeedMore buffer).
Proof.
  intros Hp. cbn [frame_loop]. rewrite Hp.
  by case_bool_decide.
Qed.

Lemma read_loop_end (s : server) (ws : conn) (buffer : bytes) :
  parsed (rloop s ws buffer []).2 = [].
Proof. apply teardown_events. Qed.

Lemma feed_chunks (data : bytes) (f : frame) (ws : conn) :
  parse data = Some f → frame_length f = len data →
  ∀ (chunks : list bytes) (buffer : bytes) (s : server),
    buffer ++ concat chunks = data → Forall (fun c => c ≠ []) chunks →
    (chunks ≠ [] →
       parsed (rloop s ws buffer (Data <$> chunks)).2 = [f])
    ∧ (∀ k, (k < length chunks)%nat →
         parsed (rloop s ws buffer (Data <$> take k chunks)).2 = []).
Proof.
  intros Hp Hlen chunks.
  induction chunks as [|c cs IH]; intros buffer s Hcat Hne.
  { split; [done|]. simpl. lia. }
  apply Forall_cons in Hne as [Hc Hcs].
  split.
  - intros _. cbn [fmap list_fmap read_loop].
    rewrite bool_decide_eq_false_2 by done.
    unfold on_data.
    destruct cs as [|c' cs'].
    + (* the last chunk completes the frame *)
      simpl in Hcat. rewrite app_nil_r in Hcat. rewrite Hcat.
      destruct (frame_loop_single s ws data f Hp Hlen)
        as (s' & evs & x & -> & Hevs & Hx).
      destruct Hx as [->|[->|[e ->]]].
      * cbn [fmap list_fmap read_loop].
        pose proof (teardown_events s' ws (NeedMore [])) as Ht.
        destruct (teardown s' ws (NeedMore [])) as [s2 evs2].
        simpl in *. unfold parsed in *. simpl.
        by rewrite omap_app, Hevs, Ht.
      * pose proof (teardown_events s' ws ReturnedAfterClose) as Ht.
        destruct (teardown s' ws ReturnedAfterClose) as [s2 evs2].
        simpl in *. unfold parsed in *. simpl.
        by rewrite omap_app, Hevs, Ht.
      * pose proof (teardown_events s' ws (LoopRaised e)) as Ht.
        destruct (teardown s' ws (LoopRaised e)) as [s2 evs2].
        simpl in *. unfold parsed in *. simpl.
        by rewrite omap_app, Hevs, Ht.
    + (* more chunks follow: the buffer is a strict prefix *)
      assert (parse (buffer ++ c) = None) as Hnone.
      { assert (buffer ++ c = take (length (buffer ++ c)) data) as ->.
        { rewrite <- Hcat. cbn [concat]. rewrite app_assoc.
          by rewrite take_app_length. }
        apply (parse_prefix_None data f); [done|].
        rewrite Hlen, <- Hcat. unfold len. cbn [concat].
        rewrite !length_app. pose proof (Forall_inv Hcs) as Hc'.
        destruct c'; [done|]. simpl. lia. }
      rewrite frame_loop_incomplete by done.
      assert ((buffer ++ c) ++ concat (c' :: cs') = data) as Hcat'.
      { rewrite <- Hcat. cbn [concat]. symmetry. apply app_assoc. }
      destruct (IH (buffer ++ c) s Hcat' Hcs) as [IH1 _].
      specialize (IH1 ltac:(done)).
      destruct (rloop s ws (buffer ++ c) _) as [s2 evs2]. done.
  - intros k Hk. destruct k as [|k]; [apply read_loop_end|].
    cbn [take fmap list_fmap read_loop].
    rewrite bool_decide_eq_false_2 by done.
    unfold on_data. simpl in Hk.
    assert (cs ≠ []) as Hcsne by (intros ->; simpl in Hk; lia).
    assert (parse (buffer ++ c) = None) as Hnone.
    { assert (buffer ++ c = take (length (buffer ++ c)) data) as ->.
      { rewrite <- Hcat. cbn [concat]. rewrite app_assoc.
        by rewrite take_app_length. }
      apply (parse_prefix_None data f); [done|].
      rewrite Hlen, <- Hcat. unfold len. cbn [concat].
      rewrite !length_app. destruct cs as [|c' cs']; [done|].
      pose proof (Forall_inv Hcs) as Hc'.
      destruct c'; [done|]. simpl. lia. }
    rewrite frame_loop_incomplete by done.
    assert ((buffer ++ c) ++ concat cs = data) as Hcat'.
    { rewrite <- Hcat. cbn [concat]. symmetry. apply app_assoc. }
    destruct (IH (buffer ++ c) s Hcat' Hcs) as [_ IH2].
    specialize (IH2 k ltac:(lia)).
    destruct (rloop s ws (buffer ++ c) _) as [s2 evs2]. done.
Qed.

(** C3. A strict prefix of a frame is insufficient data, whichever part is
    cut; fed to the connection loop in arbitrary non-empty chunks, a frame
    is taken off the buffer exactly once, when its last byte has arrived. *)
Theorem incomplete_frame_is_not_parsed (data : bytes) (f : frame) :
  parse data = Some f → frame_length f = len data →
  (∀ n, (n < length data)%nat → parse (take n data) = None)
  ∧ (∀ (s : server) (ws : conn) (chunks : list bytes),
       Forall (fun c => c ≠ []) chunks → concat chunks = data →
       parsed (rloop s ws [] (Data <$> chunks)).2 = [f]
       ∧ ∀ k, (k < length chunks)%nat →
           parsed (rloop s ws [] (Data <$> take k chunks)).2 = []).
Proof.
  intros Hp Hlen. split.
  - intros n Hn. apply (parse_prefix_None data f); [done|].
    rewrite Hlen. unfold len. lia.
  - intros s ws chunks Hne Hcat.
    destruct (feed_chunks data f ws Hp Hlen chunks [] s Hcat Hne)
      as [H1 H2].
    split; [|done]. apply H1. intros ->. simpl in Hcat. subst data.
    by rewrite parse_short in Hp.
Qed.

(** C9. A message that is not JSON, or whose type is none of [join],
    [presence], [offer], [answer], [ice-candidate], changes no registry,
    sends nothing and closes nothing; the connection loop goes on to the
    next read. *)
Theorem unknown_message_is_dropped (sched : schedule) (s : server)
    (ws : conn) (message : str) :
  json_loads message = JSONDecodeError
  ∨ (∃ data, json_loads message = Loaded data
       ∧ ∀ t, dict_get data (lit "type") = Some t →
              is_str t (lit "join") = false ∧ is_relay t = false) →
  ∃ evs,
    handle sched s ws message = (s, evs)
    ∧ writes evs = [] ∧ closes evs = []
    ∧ ∀ buffer data f,
        parse (buffer ++ data) = Some f →
        frame_length f = len (buffer ++ data) →
        opcode f = 1 → utf8_decode (payload f) = Some message →
        ∃ evs', ondata s ws buffer data = (s, Parsed f :: evs', NeedMore [])
                ∧ writes evs' = [] ∧ closes evs' = [].
Proof.
  intros Hmsg.
  assert (∀ sched', ∃ evs, handle sched' s ws message = (s, evs)
                           ∧ writes evs = [] ∧ closes evs = []) as Hdrop.
  { intros sched'. unfold handle_message.
    destruct Hmsg as [->|(data & -> & Ht)]; [by eauto|].
    destruct (dict_get data (lit "type")) as [t|]; [|by eauto].
    destruct (Ht t eq_refl) as [-> Hr]. unfold is_relay in Hr. rewrite Hr.
    by eauto. }
  destruct (Hdrop sched) as (evs & He & Hw & Hc).
  exists evs. split_and!; try done.
  intros buffer data f Hp Hlen Hop Hdec.
  destruct (Hdrop []) as (evs' & He' & Hw' & Hc').
  exists evs'. split_and!; try done.
  unfold on_data. cbn [frame_loop].
  pose proof (parse_length _ _ Hp) as Hl.
  rewrite bool_decide_eq_false_2
    by (intros E; rewrite E in Hl; unfold len in Hl; simpl in Hl; lia).
  rewrite Hp, Hop, Hdec, He'. simpl.
  assert (slice_from (frame_length f) (buffer ++ data) = []) as ->.
  { unfold slice_from. apply drop_ge. unfold len in Hlen. lia. }
  destruct (length (buffer ++ data)) eqn:E.
  { unfold len in Hl. lia. }
  simpl. by rewrite app_nil_r.
Qed.

End HandlerFacts.

(** ** The accept key *)

Lemma utf8_decode_ascii (bs : bytes) :
  Forall (fun b => byte_val b < 128) bs →
  utf8_decode bs = Some (byte_val <$> bs).
Proof.
  induction 1 as [|b bs Hb _ IH]; [done|].
  cbn [utf8_decode]. destruct (Z.ltb_spec (byte_val b) 128); [|lia].
  by rewrite IH.
Qed.

Lemma alphabet_ascii : Forall (fun b => byte_val b < 128) Base64.alphabet.
Proof. unfold Base64.alphabet. simpl. repeat constructor. Qed.

Lemma char_ascii (i : Z) : byte_val (Base64.char i) < 128.
Proof.
  unfold Base64.char.
  assert (Z.to_nat (i mod 64) < length Base64.alphabet)%nat as Hlt.
  { pose proof (Z.mod_pos_bound i 64 ltac:(lia)).
    change (length Base64.alphabet) with 64%nat. lia. }
  destruct (lookup_lt_is_Some_2 _ _ Hlt) as [b Hb].
  rewrite (nth_lookup_Some _ _ _ _ Hb).
  by apply (Forall_lookup_1 _ _ _ _ alphabet_ascii Hb).
Qed.

Lemma b64encode_ascii (bs : bytes) :
  Forall (fun b => byte_val b < 128) (Base64.b64encode bs).
Proof.
  assert (∀ n bs, (length bs <= n)%nat →
            Forall (fun b => byte_val b < 128) (Base64.b64encode bs)) as H.
  { clear bs. induction n as [|n IH]; intros bs Hn.
    - destruct bs; [constructor|simpl in Hn; lia].
    - destruct bs as [|a [|b [|c r]]]; cbn [Base64.b64encode].
      + constructor.
      + repeat constructor; apply char_ascii.
      + repeat constructor; apply char_ascii.
      + repeat (constructor; [apply char_ascii|]).
        apply IH. simpl in Hn. lia. }
  by apply (H (length bs)).
Qed.

(** C5. The accept key is the base64 text of the SHA-1 digest of the UTF-8
    bytes of the key followed by the protocol constant; the key of the RFC
    example gives the documented value. *)
Theorem accept_key_is_base64_of_sha1 (key : str) :
  generate_accept_key key
  = (fun b => byte_val <$> Base64.b64encode (SHA1.digest b))
      <$> utf8_encode (key ++ lit "258EAFA5-E914-47DA-95CA-C5AB0DC85B11")
  ∧ generate_accept_key (lit "dGhlIHNhbXBsZSBub25jZQ==")
    = Some (lit "s3pPLMBiTxaQ9kYGzzhZRbK+xOo=").
Proof.
  split; [|by vm_compute].
  unfold generate_accept_key.
  destruct (utf8_encode _) as [b|]; [|done]. simpl.
  apply utf8_decode_ascii, b64encode_ascii.
Qed.


Import Demo Scenario.

Example joined3_is_room_of_three : joined3 = room_of_three [1; 2; 3]%nat.
Proof. by vm_compute. Qed.

(** C1 (violated by the code). [broadcast_to_room] iterates the live set of
    the room. Whatever the iteration order of a room of three, a join by a
    fourth connection while the first send is awaited makes the next step
    of the iteration raise [RuntimeError]: one delivery has been attempted,
    the other member is never reached. Uninterrupted, the same broadcast
    reaches both. *)
Theorem broadcast_aborted_by_concurrent_join :
  Forall (fun order =>
    let s := room_of_three order in
    let quiet :=
      broadcast_to_room demo_dumps never_raises [] s room_r offer_data
        (Some 1%nat) in
    let raced :=
      broadcast_to_room demo_dumps never_raises [[AJoin 4 room_r]] s room_r
        offer_data (Some 1%nat) in
    quiet.2 = Returned
    ∧ (writes quiet.1.2).*1 = filter (fun c => c ≠ 1%nat) order
    ∧ raced.2 = Raised RuntimeError
    ∧ length (writes raced.1.2) = 1%nat
    ∧ last (handle [[AJoin 4 room_r]] s 1%nat offer).2
      = Some (Printed LogErrorHandlingMessage))
  (permutations [1; 2; 3]%nat).
Proof.
  assert (permutations [1; 2; 3]%nat
          = [[1; 2; 3]; [2; 1; 3]; [2; 3; 1]; [1; 3; 2]; [3; 1; 2];
             [3; 2; 1]]%nat) as -> by reflexivity.
  repeat (apply Forall_cons; split; [by vm_compute|]).
  apply Forall_nil_2.
Qed.


Import Frames.

Ltac reach :=
  unfold joined3, joined2, joined1, accepted;
  repeat first
    [ apply reachable_empty
    | apply reachable_accept; [|by vm_compute]
    | apply reachable_message; [|vm_compute; eexists; reflexivity] ].

Ltac op_reach :=
  unfold joined3, joined2, joined1, accepted;
  repeat first
    [ apply op_reachable_empty
    | apply op_reachable_accept
    | apply op_reachable_message ].

Lemma frame_round_trip_witness :
  (∃ data, build (Bytes []) 1 = Some data
     ∧ parse data = Some {| fin := 1; opcode := 1; payload := [];
                            frame_length := len data |})
  ∧ (∃ data, build (Bytes (repeat x41 10)) 2 = Some data
     ∧ parse data = Some {| fin := 1; opcode := 2; payload := repeat x41 10;
                            frame_length := len data |})
  ∧ (∃ data, build (Bytes (repeat x41 200)) 9 = Some data
     ∧ parse data = Some {| fin := 1; opcode := 9; payload := repeat x41 200;
                            frame_length := len data |})
  ∧ (∃ data, build (Bytes (repeat x41 (Z.to_nat 70000))) 10 = Some data
     ∧ parse data = Some {| fin := 1; opcode := 10;
                            payload := repeat x41 (Z.to_nat 70000);
                            frame_length := len data |}).
Proof.
  split_and!.
  - apply (frame_round_trip [] 1); [lia|by vm_compute].
  - apply (frame_round_trip (repeat x41 10) 2); [lia|by vm_compute].
  - apply (frame_round_trip (repeat x41 200) 9); [lia|by vm_compute].
  - apply (frame_round_trip (repeat x41 (Z.to_nat 70000)) 10);
      [lia|by vm_compute].
Defined.

Lemma incomplete_frame_witness :
  parse (take 6 hello_frame) = None
  ∧ parsed (read_loop demo_loads demo_dumps never_raises accepted 1%nat []
              (Data <$> hello_chunks)).2
    = [{| fin := 1; opcode := 1; payload := hello; frame_length := 7 |}]
  ∧ parsed (read_loop demo_loads demo_dumps never_raises accepted 1%nat []
              (Data <$> take 2 hello_chunks)).2 = [].
Proof.
  destruct (incomplete_frame_is_not_parsed demo_loads demo_dumps never_raises
              hello_frame
              {| fin := 1; opcode := 1; payload := hello; frame_length := 7 |}
              eq_refl eq_refl) as [H1 H2].
  destruct (H2 accepted 1%nat hello_chunks) as [H3 H4].
  - repeat constructor; discriminate.
  - reflexivity.
  - split; [apply H1; simpl; lia|].
    split; [exact H3|apply H4; simpl; lia].
Defined.

Lemma masked_frame_witness :
  let f := {| fin := 1; opcode := 1; payload := hello; frame_length := 11 |} in
  let len7 := Z.land (byte_val x85) 127 in
  frame_length f = header_size len7 + 4 + declared_length hello_masked len7
  ∧ len (payload f) = declared_length hello_masked len7
  ∧ ∀ i : nat, Z.of_nat i < declared_length hello_masked len7 →
      ∃ raw k out,
        hello_masked !! (Z.to_nat (header_size len7) + 4 + i)%nat = Some raw
        ∧ hello_masked !! (Z.to_nat (header_size len7) + i mod 4)%nat
          = Some k
        ∧ payload f !! i = Some out
        ∧ byte_val out = Z.lxor (byte_val raw) (byte_val k).
Proof.
  apply (masked_frame_unmasked x81 x85
           [x37; xfa; x21; x3d; x7f; x9f; x4d; x51; x58]%byte).
  - vm_compute. discriminate.
  - reflexivity.
Defined.

Lemma close_witness :
  (* connection 3 leaves the room of three *)
  (clients (close_connection joined3 3%nat).1 !! 3%nat = None
   ∧ ∀ r m, rooms (close_connection joined3 3%nat).1 !! r = Some m →
       (3%nat ∉ m) ∧ m ≠ [])
  (* the only member of a room leaves: the room is gone, and a message
     naming it is dropped *)
  ∧ (rooms (close_connection joined1 1%nat).1 !! room_r = None
     ∧ handle [] (close_connection joined1 1%nat).1 2%nat offer
       = ((close_connection joined1 1%nat).1, []))
  (* an unregistered connection *)
  ∧ close_connection joined3 9%nat = (joined3, [])
  (* joining twice *)
  ∧ ∃ m1, rooms (handle [] joined3 1%nat join_r).1 !! room_r = Some m1
      ∧ length (filter (fun x => x = 1%nat) m1) = 1%nat
      ∧ ∀ m, rooms joined3 !! room_r = Some m → 1%nat ∈ m → m1 = m.
Proof.
  split; [|split; [|split]].
  - destruct (close_removes_connection_everywhere demo_loads demo_dumps
                never_raises joined3 3%nat ltac:(reach)) as (H1 & H2 & _).
    split; [exact H1|exact H2].
  - destruct (close_removes_connection_everywhere demo_loads demo_dumps
                never_raises joined1 1%nat ltac:(reach))
      as (_ & _ & H3 & H4 & _).
    assert (rooms (close_connection joined1 1%nat).1 !! room_r = None) as Hn.
    { apply (H3 room_r [1%nat]); reflexivity. }
    split; [exact Hn|].
    apply (H4 [] 2%nat offer offer_data (Some (JStr (lit "offer"))) room_r);
      (reflexivity || exact Hn).
  - destruct (close_removes_connection_everywhere demo_loads demo_dumps
                never_raises joined3 9%nat ltac:(reach))
      as (_ & _ & _ & _ & H5 & _).
    apply H5. reflexivity.
  - destruct (close_removes_connection_everywhere demo_loads demo_dumps
                never_raises joined3 1%nat ltac:(reach))
      as (_ & _ & _ & _ & _ & H6).
    apply (H6 [] join_r
             (JObj [(lit "type", JStr (lit "join"));
                    (lit "room", JStr (lit "r"))])
             (Some (JStr (lit "join"))) room_r);
      try reflexivity.
    vm_compute. eexists; reflexivity.
Defined.

Lemma registries_agree_witness :
  ∃ members, rooms joined3 !! room_r = Some members ∧ 2%nat ∈ members.
Proof.
  apply (registries_agree demo_loads demo_dumps never_raises joined3
           ltac:(op_reach) 2%nat (member 2).2 room_r).
  - reflexivity.
  - simpl. apply elem_of_cons. left. reflexivity.
Defined.

Lemma unknown_message_witness :
  (* an unknown type *)
  (∃ evs, handle [] joined3 1%nat chat = (joined3, evs)
     ∧ writes evs = [] ∧ closes evs = []
     ∧ ∃ evs', on_data demo_loads demo_dumps never_raises joined3 1%nat []
                 chat_frame
               = (joined3,
                  Parsed {| fin := 1; opcode := 1;
                            payload := default [] (utf8_encode chat);
                            frame_length := len chat_frame |} :: evs',
                  NeedMore [])
         ∧ writes evs' = [] ∧ closes evs' = [])
  (* not JSON at all *)
  ∧ ∃ evs, handle [] joined3 1%nat (lit "hello") = (joined3, evs)
      ∧ writes evs = [] ∧ closes evs = [].
Proof.
  split.
  - destruct (unknown_message_is_dropped demo_loads demo_dumps never_raises
                [] joined3 1%nat chat) as (evs & H1 & H2 & H3 & H4).
    { right. eexists. split; [reflexivity|].
      intros t Ht. vm_compute in Ht. injection Ht as <-.
      split; reflexivity. }
    exists evs. split_and!; try done.
    apply (H4 [] chat_frame); reflexivity.
  - destruct (unknown_message_is_dropped demo_loads demo_dumps never_raises
                [] joined3 1%nat (lit "hello")) as (evs & H1 & H2 & H3 & _).
    { left. reflexivity. }
    exists evs. split_and!; done.
Defined.


(** * Further properties of the code *)

(** ** The frame codec *)

Lemma extended_length_app_inv (a b : bytes) (len7 pl off : Z) :
  extended_length (a ++ b) len7 = Some (pl, off) → off <= len a →
  extended_length a len7 = Some (pl, off).
Proof.
  unfold extended_length. pose proof (len_nonneg b). rewrite len_app.
  repeat case_match; try done; intros [= <- <-] Hoff; try lia.
  - by rewrite slice_app_l by lia.
  - by rewrite slice_app_l by lia.
Qed.

Lemma masking_key_app_inv (a b : bytes) (masked off off' : Z)
    (k : option bytes) :
  0 <= off →
  masking_key (a ++ b) masked off = Some (k, off') → off' <= len a →
  masking_key a masked off = Some (k, off').
Proof.
  unfold masking_key. pose proof (len_nonneg b). rewrite len_app.
  intros Hoff.
  repeat case_match; try done; intros [= <- <-] Hle; try lia.
  by rewrite slice_app_l by lia.
Qed.

Lemma take_payload_app_inv (a b : bytes) (fin opcode masked pl : Z)
    (k : option bytes) (off : Z) (f : frame) :
  0 <= off → 0 <= pl →
  take_payload (a ++ b) fin opcode masked pl k off = Some f →
  frame_length f <= len a →
  take_payload a fin opcode masked pl k off = Some f.
Proof.
  unfold take_payload. pose proof (len_nonneg b). rewrite len_app.
  intros Hoff Hpl.
  destruct (Z.ltb_spec (len a + len b) (off + pl)); [done|].
  intros [= <-]. simpl. intros Hle.
  destruct (Z.ltb_spec (len a) (off + pl)); [lia|].
  by rewrite slice_app_l by lia.
Qed.

Lemma parse_app_inv (a b : bytes) (f : frame) :
  parse (a ++ b) = Some f → frame_length f <= len a → parse a = Some f.
Proof.
  intros Hp Hle. pose proof (parse_length _ _ Hp) as [H2 _].
  destruct a as [|b1 [|b2 rest]];
    [unfold len in Hle; simpl in Hle; lia
    |unfold len in Hle; simpl in Hle; lia|].
  revert Hp. rewrite <- !app_comm_cons, !parse_stages.
  change (b1 :: b2 :: rest ++ b) with ((b1 :: b2 :: rest) ++ b).
  assert (2 <= len (b1 :: b2 :: rest)) as Ha by (unfold len; simpl; lia).
  generalize dependent (b1 :: b2 :: rest). intros a Hle Ha.
  pose proof (byte_val_range b2) as Hb2.
  destruct (extended_length (a ++ b) _) as [[pl off]|] eqn:E1; [|done].
  apply extended_length_bounds in E1 as HB;
    [|apply land_nonneg_l; lia
     |rewrite len_app; pose proof (len_nonneg b); lia].
  cbn [mbind option_bind].
  destruct (masking_key (a ++ b) _ off) as [[k off']|] eqn:E2; [|done].
  apply masking_key_bounds in E2 as HB2. cbn [mbind option_bind].
  intros Hf. pose proof (take_payload_length _ _ _ _ _ _ _ _ Hf) as [Hfl _].
  assert (0 <= off) as Hoff by lia.
  rewrite (extended_length_app_inv a b _ pl off E1) by lia.
  cbn [mbind option_bind].
  rewrite (masking_key_app_inv a b _ off off' k Hoff E2) by lia.
  cbn [mbind option_bind].
  apply (take_payload_app_inv a b); (done || lia).
Qed.

(** X1. [parse] reads one frame and nothing else: the result is decided by
    the first [frame_length] bytes of the buffer, whatever follows them,
    so frames may arrive back to back. *)
Theorem parse_reads_one_frame (data extra : bytes) (f : frame) :
  parse data = Some f →
  2 <= frame_length f <= len data
  ∧ parse (take (Z.to_nat (frame_length f)) data ++ extra) = Some f
  ∧ slice_from (frame_length f)
      (take (Z.to_nat (frame_length f)) data ++ extra) = extra.
Proof.
  intros Hp. pose proof (parse_length _ _ Hp) as Hl. split; [done|].
  set (n := Z.to_nat (frame_length f)).
  assert (length (take n data) = n) as Hn.
  { rewrite length_take. unfold len in Hl. lia. }
  split.
  - apply parse_app. apply (parse_app_inv _ (drop n data)).
    + by rewrite take_drop.
    + unfold len. lia.
  - unfold slice_from. fold n. rewrite <- Hn at 1. apply drop_app_length.
Qed.

Lemma fin_bit (b : byte) :
  Z.shiftr (Z.land (byte_val b) 128) 7 = 0
  ∨ Z.shiftr (Z.land (byte_val b) 128) 7 = 1.
Proof. destruct b; vm_compute; auto. Qed.

Lemma opcode_bits (b : byte) : 0 <= Z.land (byte_val b) 15 < 16.
Proof. destruct b; vm_compute; split; congruence. Qed.

(** X2. What [parse] can return: [fin] is a bit, the opcode has four bits,
    and the bytes consumed beyond the payload are the 2, 4 or 10 header
    bytes plus 4 when the frame is masked. *)
Theorem parse_result_ranges (data : bytes) (f : frame) :
  parse data = Some f →
  (fin f = 0 ∨ fin f = 1)
  ∧ 0 <= opcode f < 16
  ∧ ∃ header mask,
      frame_length f = header + mask + len (payload f)
      ∧ (header = 2 ∨ header = 4 ∨ header = 10) ∧ (mask = 0 ∨ mask = 4).
Proof.
  destruct data as [|b1 [|b2 rest]]; try done.
  rewrite parse_stages.
  assert (2 <= len (b1 :: b2 :: rest)) as H2 by (unfold len; simpl; lia).
  generalize dependent (b1 :: b2 :: rest). intros data H2.
  pose proof (byte_val_range b2) as Hb2.
  destruct (extended_length data _) as [[pl off]|] eqn:E1; [|done].
  apply extended_length_bounds in E1 as HB;
    [|apply land_nonneg_l; lia|done].
  apply extended_length_Some in E1 as [_ Hoff].
  cbn [mbind option_bind].
  destruct (masking_key data _ off) as [[k off']|] eqn:E2; [|done].
  cbn [mbind option_bind]. unfold take_payload.
  destruct (Z.ltb_spec (len data) (off' + pl)); [done|].
  intros [= <-]. cbn [fin opcode payload frame_length].
  split; [apply fin_bit|]. split; [apply opcode_bits|].
  assert (off' = off ∨ off' = off + 4) as Hm.
  { revert E2. unfold masking_key. repeat case_match; intros [= <- <-]; auto. }
  exists off, (off' - off).
  assert (len (slice off' (off' + pl) data) = pl) as Hs.
  { rewrite slice_length; lia. }
  split.
  - destruct k as [k|]; [|lia].
    destruct (_ && _); [|lia].
    unfold len. rewrite unmask_length. fold (len (slice off' (off' + pl) data)).
    lia.
  - split; [|lia]. rewrite Hoff. unfold header_size.
    repeat case_match; auto.
Qed.

Lemma slice_skips_head {A} (a b : Z) (x y : A) (l : list A) :
  1 <= a → slice a b (x :: l) = slice a b (y :: l).
Proof.
  intros Ha. unfold slice. destruct (Z.to_nat a) as [|n] eqn:E; [lia|done].
Qed.

(** X3. The three reserved bits of the first byte do not matter to
    [parse]: two buffers that differ only there parse alike. *)
Theorem parse_ignores_reserved_bits (b1 b1' : byte) (rest : bytes) :
  Z.land (byte_val b1) 143 = Z.land (byte_val b1') 143 →
  parse (b1 :: rest) = parse (b1' :: rest).
Proof.
  intros H. destruct rest as [|b2 rest].
  { by rewrite !parse_short by (unfold len; simpl; lia). }
  rewrite !parse_stages.
  assert (∀ x, Z.land x 128 = Z.land (Z.land x 143) 128) as H128.
  { intros x. by rewrite <- Z.land_assoc. }
  assert (∀ x, Z.land x 15 = Z.land (Z.land x 143) 15) as H15.
  { intros x. by rewrite <- Z.land_assoc. }
  rewrite (H128 (byte_val b1)), (H15 (byte_val b1)), H.
  rewrite <- H128, <- H15.
  pose proof (byte_val_range b2) as Hb2.
  set (data := b1 :: b2 :: rest). set (data' := b1' :: b2 :: rest).
  assert (len data = len data') as Hlen by done.
  assert (2 <= len data) as H2 by (unfold len; simpl; lia).
  assert (∀ a b, 1 <= a → slice a b data = slice a b data') as Hsl.
  { intros a b Ha. by apply slice_skips_head. }
  assert (∀ l7, extended_length data l7 = extended_length data' l7) as <-.
  { intros l7. unfold extended_length. by rewrite Hlen, !Hsl by lia. }
  clearbody data data'.
  destruct (extended_length data _) as [[pl off]|] eqn:E1; [|done].
  apply extended_length_bounds in E1 as HB;
    [|apply land_nonneg_l; lia|done].
  cbn [mbind option_bind].
  assert (∀ m, masking_key data m off = masking_key data' m off) as <-.
  { intros m. unfold masking_key. by rewrite Hlen, Hsl by lia. }
  destruct (masking_key data _ off) as [[k off']|] eqn:E2; [|done].
  apply masking_key_bounds in E2. cbn [mbind option_bind].
  unfold take_payload. by rewrite Hlen, Hsl by lia.
Qed.

Lemma byte_mod_byte_val (b : byte) : byte_mod (byte_val b) = b.
Proof.
  unfold byte_mod. rewrite Z.mod_small by apply byte_val_range.
  by rewrite byte_of_val.
Qed.

Lemma unmask_involutive (mask_key payload : bytes) :
  unmask mask_key (unmask mask_key payload) = payload.
Proof.
  apply list_eq. intros i. unfold unmask. rewrite !list_lookup_imap.
  destruct (payload !! i) as [b|]; [|done]. simpl. f_equal.
  rewrite byte_mod_val.
  rewrite (Z.mod_small (Z.lxor _ _))
    by (apply lxor_byte_bound; apply byte_val_range).
  rewrite Z.lxor_assoc, Z.lxor_nilpotent, Z.lxor_0_r.
  apply byte_mod_byte_val.
Qed.

Lemma announces_extended_length (b1 : byte) (ext : bytes) (n : Z)
    (b0 : byte) (rest : bytes) :
  announces b1 ext n →
  extended_length (b0 :: b1 :: ext ++ rest) (Z.land (byte_val b1) 127)
  = Some (n, 2 + len ext).
Proof.
  unfold announces, extended_length. cbv zeta.
  pose proof (len_nonneg rest) as Hr.
  change (b0 :: b1 :: ext ++ rest) with ([b0; b1] ++ ext ++ rest).
  rewrite !len_app. change (len [b0; b1]) with 2.
  intros [(H7 & -> & ->)|[(H7 & Hl & ->)|(H7 & Hl & ->)]].
  - destruct (Z.eqb_spec (Z.land (byte_val b1) 127) 126); [lia|].
    destruct (Z.eqb_spec (Z.land (byte_val b1) 127) 127); [lia|]. done.
  - rewrite H7. simpl (126 =? 126).
    assert (len ext = 2) as Hl' by (unfold len; lia). rewrite Hl'.
    destruct (Z.ltb_spec (2 + (2 + len rest)) 4); [lia|].
    by rewrite slice_app_mid by (done || lia).
  - rewrite H7. simpl (127 =? 126). simpl (127 =? 127).
    assert (len ext = 8) as Hl' by (unfold len; lia). rewrite Hl'.
    destruct (Z.ltb_spec (2 + (8 + len rest)) 10); [lia|].
    by rewrite slice_app_mid by (done || lia).
Qed.

(** A frame laid out as header, extended length and payload, without a
    masking key. *)
Lemma parse_unmasked (b0 b1 : byte) (ext payload : bytes) :
  Z.land (byte_val b1) 128 = 0 →
  announces b1 ext (len payload) →
  parse (b0 :: b1 :: ext ++ payload)
  = Some {| fin := Z.shiftr (Z.land (byte_val b0) 128) 7;
            opcode := Z.land (byte_val b0) 15;
            payload := payload;
            frame_length := 2 + len ext + len payload |}.
Proof.
  intros Hm Ha. rewrite parse_stages. cbv zeta.
  rewrite (announces_extended_length b1 ext _ b0 payload Ha), Hm.
  cbn [mbind option_bind]. unfold masking_key. simpl (_ =? 0).
  cbn [mbind option_bind]. unfold take_payload.
  pose proof (len_nonneg ext). pose proof (len_nonneg payload).
  change (b0 :: b1 :: ext ++ payload) with ([b0; b1] ++ ext ++ payload).
  rewrite !len_app. change (len [b0; b1]) with 2.
  destruct (Z.ltb_spec (2 + (len ext + len payload))
              (2 + len ext + len payload)); [lia|].
  rewrite (app_assoc [_; _] ext payload).
  rewrite slice_app_r; [done|by rewrite len_app|lia].
Qed.

(** X4. [parse] undoes masking: a frame whose mask flag is set and whose
    payload bytes were XORed with the four key bytes parses to the
    original payload, in each length encoding. *)
Theorem masked_frame_round_trip (b0 b1 : byte) (ext key payload : bytes) :
  Z.land (byte_val b1) 128 ≠ 0 → length key = 4%nat →
  announces b1 ext (len payload) →
  parse (b0 :: b1 :: ext ++ key ++ unmask key payload)
  = Some {| fin := Z.shiftr (Z.land (byte_val b0) 128) 7;
            opcode := Z.land (byte_val b0) 15;
            payload := payload;
            frame_length := 2 + len ext + 4 + len payload |}.
Proof.
  intros Hm Hk Ha. rewrite parse_stages. cbv zeta.
  rewrite (announces_extended_length b1 ext _ b0 _ Ha).
  rewrite (mask_flag b1 Hm). cbn [mbind option_bind].
  pose proof (len_nonneg ext). pose proof (len_nonneg payload).
  assert (len key = 4) as Hk' by (unfold len; lia).
  assert (len (unmask key payload) = len payload) as Hu.
  { unfold len. by rewrite unmask_length. }
  change (b0 :: b1 :: ext ++ key ++ unmask key payload)
    with ([b0; b1] ++ ext ++ key ++ unmask key payload).
  set (body := unmask key payload) in *.
  unfold masking_key. simpl (1 =? 0).
  rewrite !len_app, Hk', Hu. change (len [b0; b1]) with 2.
  destruct (Z.ltb_spec (2 + (len ext + (4 + len payload)))
              (2 + len ext + 4)); [lia|].
  cbn [mbind option_bind]. unfold take_payload.
  rewrite !len_app, Hk', Hu. change (len [b0; b1]) with 2.
  destruct (Z.ltb_spec (2 + (len ext + (4 + len payload)))
              (2 + len ext + 4 + len payload)); [lia|].
  rewrite (app_assoc [_; _] ext (key ++ body)).
  rewrite (slice_app_mid _ _ ([b0; b1] ++ ext) key body)
    by (rewrite ?len_app; done || lia).
  rewrite bool_decide_eq_false_2 by (intros ->; done).
  simpl (negb _ && negb _).
  rewrite (app_assoc ([_; _] ++ ext) key body).
  rewrite slice_app_r;
    [|rewrite !len_app; change (len [b0; b1]) with 2; lia|lia].
  unfold body. by rewrite unmask_involutive.
Qed.

(** *** What [build] produces *)

Lemma byte_of_None (z : Z) : byte_of z = None ↔ z < 0 ∨ 256 <= z.
Proof.
  split.
  - intros Hn. destruct (decide (0 <= z < 256)) as [Hz|Hz]; [|lia].
    destruct (byte_of_is_Some z Hz) as [b Hb]. congruence.
  - intros Hz. destruct (byte_of z) as [b|] eqn:Hb; [|done].
    apply byte_of_Some in Hb. pose proof (byte_val_range b). lia.
Qed.

Lemma first_byte_any (b : byte) :
  0 <= Z.lor 128 (byte_val b) < 256
  ∧ Z.shiftr (Z.land (Z.lor 128 (byte_val b)) 128) 7 = 1
  ∧ Z.land (Z.lor 128 (byte_val b)) 15 = byte_val b mod 16.
Proof. destruct b; vm_compute; repeat split; congruence. Qed.

Lemma lor_128_byte (opcode : Z) :
  0 <= Z.lor 128 opcode < 256 ↔ 0 <= opcode < 256.
Proof.
  split.
  - intros [H0 H1]. pose proof (proj1 (Z.lor_nonneg _ _) H0) as [_ Hop].
    split; [done|].
    assert (Z.shiftr (Z.lor 128 opcode) 8 = 0) as Hs.
    { rewrite Z.shiftr_div_pow2 by lia. change (2 ^ 8) with 256.
      apply Z.div_small. lia. }
    rewrite Z.shiftr_lor in Hs. change (Z.shiftr 128 8) with 0 in Hs.
    rewrite Z.lor_0_l, Z.shiftr_div_pow2 in Hs by lia.
    change (2 ^ 8) with 256 in Hs.
    pose proof (Z.div_mod opcode 256 ltac:(lia)).
    pose proof (Z.mod_pos_bound opcode 256 ltac:(lia)). lia.
  - intros Hop. destruct (byte_of_is_Some opcode Hop) as [b Hb].
    apply byte_of_Some in Hb. subst opcode. apply first_byte_any.
Qed.

Lemma pack_be_is_Some (w : nat) (n : Z) :
  is_Some (pack_be w n) ↔ 0 <= n < 256 ^ Z.of_nat w.
Proof.
  unfold pack_be.
  destruct (Z.leb_spec 0 n), (Z.ltb_spec n (256 ^ Z.of_nat w)); simpl;
    split; try lia; try (by eexists); by intros [? ?].
Qed.

Lemma utf8_encode_cp_is_Some (c : Z) :
  is_Some (utf8_encode_cp c) ↔ is_scalar c.
Proof.
  unfold utf8_encode_cp, is_scalar, in_range.
  destruct (Z.ltb_spec c 0); [split; [by intros [? ?]|lia]|].
  destruct (Z.ltb_spec c 128); [split; [lia|by eexists]|].
  destruct (Z.ltb_spec c 2048); [split; [lia|by eexists]|].
  destruct (Z.ltb_spec c 65536).
  { destruct (Z.leb_spec 55296 c), (Z.leb_spec c 57343); simpl;
      split; try lia; try (by eexists); by intros [? ?]. }
  destruct (Z.ltb_spec c 1114112); [split; [lia|by eexists]|].
  split; [by intros [? ?]|lia].
Qed.

Lemma utf8_encode_is_Some (s : str) :
  is_Some (utf8_encode s) ↔ Forall is_scalar s.
Proof.
  induction s as [|c s IH]; cbn [utf8_encode].
  { split; [constructor|by eexists]. }
  rewrite Forall_cons, <- IH, <- utf8_encode_cp_is_Some.
  destruct (utf8_encode_cp c), (utf8_encode s); split;
    try (by intros [? ?]); try (by intros [[? ?] [? ?]]); try by eexists.
Qed.

Lemma utf8_encode_cp_length (c : Z) (b : bytes) :
  utf8_encode_cp c = Some b → 1 <= len b <= 4.
Proof.
  unfold utf8_encode_cp. repeat case_match; try done;
    intros [= <-]; unfold len; simpl; lia.
Qed.

Lemma utf8_encode_length (s : str) (b : bytes) :
  utf8_encode s = Some b → len s <= len b <= 4 * len s.
Proof.
  revert b. induction s as [|c s IH]; intros b; cbn [utf8_encode].
  { intros [= <-]. unfold len. simpl. lia. }
  destruct (utf8_encode_cp c) as [a|] eqn:Hc; [|done].
  destruct (utf8_encode s) as [b'|]; [|done]. intros [= <-].
  apply utf8_encode_cp_length in Hc. specialize (IH b' eq_refl).
  rewrite len_app. unfold len in *. simpl length. lia.
Qed.

Lemma build_bytes_None (payload : bytes) (opcode : Z) :
  build (Bytes payload) opcode = None
  ↔ opcode < 0 ∨ 256 <= opcode ∨ 2 ^ 64 <= len payload.
Proof.
  pose proof (len_nonneg payload) as Hnn. unfold build.
  cbn [mbind option_bind].
  destruct (byte_of (Z.lor 128 opcode)) as [b0|] eqn:Hb0; cbn [option_bind].
  - assert (0 <= opcode < 256) as Hop.
    { apply lor_128_byte. apply byte_of_Some in Hb0.
      rewrite <- Hb0. apply byte_val_range. }
    destruct (Z.ltb_spec (len payload) 126).
    { destruct (byte_of_is_Some (len payload)) as [b ->]; [lia|].
      simpl. split; [done|lia]. }
    destruct (Z.ltb_spec (len payload) 65536).
    { destruct (proj2 (pack_be_is_Some 2 (len payload))) as [e ->];
        [simpl; lia|]. simpl. split; [done|lia]. }
    pose proof (pack_be_is_Some 8 (len payload)) as Hp.
    change (256 ^ Z.of_nat 8) with (2 ^ 64) in Hp.
    destruct (pack_be 8 (len payload)) as [e|] eqn:He; simpl.
    + split; [done|]. destruct Hp as [Hp _].
      specialize (Hp ltac:(by eexists)). lia.
    + split; [|done]. intros _. right. right.
      destruct (Z.lt_ge_cases (len payload) (2 ^ 64)) as [Hlt|]; [|done].
      destruct Hp as [_ [? ?]]; [lia|done].
  - split; [|done]. intros _. apply byte_of_None in Hb0.
    destruct (decide (0 <= opcode < 256)) as [Hop|Hop]; [|lia].
    apply lor_128_byte in Hop. lia.
Qed.

Lemma build_str (s : str) (opcode : Z) :
  build (Str s) opcode = utf8_encode s ≫= (fun b => build (Bytes b) opcode).
Proof. unfold build. by destruct (utf8_encode s). Qed.

(** X5. [build] raises in exactly three cases: a text payload that cannot
    be encoded (it holds a lone surrogate), an opcode that does not fit in
    a byte, and a payload of [2^64] bytes or more; otherwise it returns a
    frame. *)
Theorem build_fails_iff (opcode : Z) :
  (∀ payload : bytes,
     build (Bytes payload) opcode = None
     ↔ opcode < 0 ∨ 256 <= opcode ∨ 2 ^ 64 <= len payload)
  ∧ (∀ text : str,
       build (Str text) opcode = None
       ↔ ¬ Forall is_scalar text
         ∨ ∃ payload, utf8_encode text = Some payload
             ∧ (opcode < 0 ∨ 256 <= opcode ∨ 2 ^ 64 <= len payload)).
Proof.
  split; [intros payload; apply build_bytes_None|].
  intros text. rewrite build_str.
  pose proof (utf8_encode_is_Some text) as Hs.
  destruct (utf8_encode text) as [payload|]; cbn [mbind option_bind].
  - rewrite build_bytes_None. split.
    + intros H. right. by exists payload.
    + intros [Hn|(p & [= <-] & H)]; [|done].
      destruct Hn. apply Hs. by eexists.
  - split; [|done]. intros _. left. intros Hf.
    apply Hs in Hf. by destruct Hf.
Qed.

Lemma short_byte (b : byte) :
  byte_val b < 126 →
  Z.land (byte_val b) 127 = byte_val b ∧ Z.land (byte_val b) 128 = 0.
Proof. destruct b; vm_compute; (done || (intros _; done)). Qed.

Lemma build_shape (payload data : bytes) (opcode : Z) :
  build (Bytes payload) opcode = Some data →
  ∃ b0 b1 ext,
    data = b0 :: b1 :: ext ++ payload
    ∧ byte_val b0 = Z.lor 128 opcode
    ∧ Z.land (byte_val b1) 128 = 0
    ∧ announces b1 ext (len payload)
    ∧ len ext = (if len payload <? 126 then 0
                 else if len payload <? 65536 then 2 else 8).
Proof.
  pose proof (len_nonneg payload) as Hnn. unfold build.
  cbn [mbind option_bind].
  destruct (byte_of (Z.lor 128 opcode)) as [b0|] eqn:Hb0;
    cbn [option_bind]; [|done].
  apply byte_of_Some in Hb0.
  destruct (Z.ltb_spec (len payload) 126) as [H1|H1].
  { destruct (byte_of (len payload)) as [b|] eqn:Hb; [|done].
    simpl. intros [= <-]. apply byte_of_Some in Hb.
    destruct (short_byte b) as [H7 Hm]; [lia|].
    exists b0, b, []. split; [done|]. split; [done|]. split; [done|].
    split; [|done]. left. rewrite H7. split; [lia|]. split; [done|lia]. }
  destruct (Z.ltb_spec (len payload) 65536) as [H2|H2].
  { destruct (pack_be 2 (len payload)) as [e|] eqn:He; [|done].
    simpl. intros [= <-]. apply pack_be_unpack in He as [Le Ue].
    exists b0, (byte_mod 126), e. split; [done|]. split; [done|].
    split; [done|]. split.
    - right. left. split; [done|]. split; [done|]. by rewrite Ue.
    - unfold len. rewrite Le. done. }
  destruct (pack_be 8 (len payload)) as [e|] eqn:He; [|done].
  simpl. intros [= <-]. apply pack_be_unpack in He as [Le Ue].
  exists b0, (byte_mod 127), e. split; [done|]. split; [done|].
  split; [done|]. split.
  - right. right. split; [done|]. split; [done|]. by rewrite Ue.
  - unfold len. rewrite Le. done.
Qed.

(** X6. A frame built by the server is the first byte [0x80 | opcode], a
    length byte without the mask bit, the shortest length field that holds
    the payload length (none below 126, two bytes below 65536, eight
    otherwise), and the payload unchanged: server frames are never
    masked. *)
Theorem build_layout (payload data : bytes) (opcode : Z) :
  build (Bytes payload) opcode = Some data →
  ∃ b0 b1 ext,
    data = b0 :: b1 :: ext ++ payload
    ∧ byte_val b0 = Z.lor 128 opcode
    ∧ Z.land (byte_val b1) 128 = 0
    ∧ announces b1 ext (len payload)
    ∧ len data - len payload
      = (if len payload <? 126 then 2
         else if len payload <? 65536 then 4 else 10).
Proof.
  intros Hb.
  destruct (build_shape _ _ _ Hb) as (b0 & b1 & ext & -> & H0 & H1 & Ha & He).
  exists b0, b1, ext. split; [done|]. split; [done|]. split; [done|].
  split; [done|].
  change (b0 :: b1 :: ext ++ payload) with ([b0; b1] ++ ext ++ payload).
  rewrite !len_app. change (len [b0; b1]) with 2. revert He.
  destruct (len payload <? 126), (len payload <? 65536);
    intros He; rewrite He; lia.
Qed.

Lemma build_parses (payload data : bytes) (opcode : Z) :
  build (Bytes payload) opcode = Some data →
  parse data
  = Some {| fin := 1; opcode := opcode mod 16; payload := payload;
            frame_length := len data |}.
Proof.
  intros Hb.
  destruct (build_shape _ _ _ Hb) as (b0 & b1 & ext & -> & H0 & H1 & Ha & He).
  assert (0 <= opcode < 256) as Hop.
  { apply lor_128_byte. rewrite <- H0. apply byte_val_range. }
  rewrite (parse_unmasked b0 b1 ext payload H1 Ha).
  destruct (byte_of_is_Some opcode Hop) as [bo Hbo].
  apply byte_of_Some in Hbo. subst opcode.
  destruct (first_byte_any bo) as (_ & Hfin & Hopc).
  rewrite H0, Hfin, Hopc.
  change (b0 :: b1 :: ext ++ payload) with ([b0; b1] ++ ext ++ payload).
  rewrite !len_app. change (len [b0; b1]) with 2.
  by rewrite Z.add_assoc.
Qed.

(** X7. Whatever opcode in [0..255] a frame is built with, parsing it (with
    any bytes after it) returns the payload, [fin = 1], the frame's own
    length, and the opcode reduced to its low four bits: the upper four
    bits land in the reserved-bit positions of the first byte and are not
    read back. After the frame, the rest of the buffer is what followed
    it. *)
Theorem build_parse_any_opcode (payload data extra : bytes) (opcode : Z) :
  build (Bytes payload) opcode = Some data →
  parse (data ++ extra)
  = Some {| fin := 1; opcode := opcode mod 16; payload := payload;
            frame_length := len data |}
  ∧ slice_from (len data) (data ++ extra) = extra.
Proof.
  intros Hb. split.
  - apply parse_app. by apply build_parses.
  - unfold slice_from, len. rewrite Nat2Z.id. by rewrite drop_app_length.
Qed.

Lemma be_uint_bound (bs : bytes) : be_uint bs < 256 ^ len bs.
Proof.
  induction bs as [|b bs IH] using rev_ind; [done|].
  rewrite be_uint_snoc, len_app. change (len [b]) with 1.
  rewrite Z.pow_add_r by (pose proof (len_nonneg bs); lia).
  pose proof (byte_val_range b). lia.
Qed.

(** A payload returned by [parse] is short enough for [build]. *)
Lemma parse_payload_bound (data : bytes) (f : frame) :
  parse data = Some f → len (payload f) < 2 ^ 64.
Proof.
  destruct data as [|b1 [|b2 rest]]; try done.
  rewrite parse_stages.
  assert (2 <= len (b1 :: b2 :: rest)) as H2 by (unfold len; simpl; lia).
  generalize dependent (b1 :: b2 :: rest). intros data H2.
  pose proof (byte_val_range b2) as Hb2.
  destruct (extended_length data _) as [[pl off]|] eqn:E1; [|done].
  apply extended_length_bounds in E1 as HB;
    [|apply land_nonneg_l; lia|done].
  assert (pl < 2 ^ 64) as Hpl.
  { revert E1. unfold extended_length.
    assert (Z.land (byte_val b2) 127 < 128) as H7.
    { change 127 with (Z.ones 7). rewrite Z.land_ones by lia.
      apply Z.mod_pos_bound. lia. }
    assert (∀ a b, 0 <= b - a <= 8 →
              be_uint (slice a b data) < 2 ^ 64) as Hs.
    { intros a b Hab. pose proof (be_uint_bound (slice a b data)) as Hbd.
      assert (len (slice a b data) <= 8) as Hl.
      { unfold slice, len. rewrite length_take. lia. }
      pose proof (len_nonneg (slice a b data)).
      assert (256 ^ len (slice a b data) <= 256 ^ 8)
        by (apply Z.pow_le_mono_r; lia).
      change (256 ^ 8) with (2 ^ 64) in *. lia. }
    repeat case_match; intros [= <- <-]; try (apply Hs; lia). lia. }
  cbn [mbind option_bind].
  destruct (masking_key data _ off) as [[k off']|] eqn:E2; [|done].
  apply masking_key_bounds in E2.
  cbn [mbind option_bind]. unfold take_payload.
  destruct (Z.ltb_spec (len data) (off' + pl)); [done|].
  intros [= <-]. cbn [payload].
  assert (len (slice off' (off' + pl) data) = pl) as Hs.
  { rewrite slice_length; lia. }
  destruct k as [k|]; [|lia].
  destruct (_ && _); [|lia].
  unfold len. rewrite unmask_length.
  fold (len (slice off' (off' + pl) data)). lia.
Qed.

(** Text made of encodable code points, not absurdly long, always gives a
    frame, and the frame parses back to the encoded text. *)
Lemma build_str_succeeds (text : str) (opcode : Z) :
  Forall is_scalar text → 4 * len text < 2 ^ 64 → 0 <= opcode < 256 →
  ∃ payload data,
    utf8_encode text = Some payload
    ∧ build (Str text) opcode = Some data
    ∧ parse data
      = Some {| fin := 1; opcode := opcode mod 16; payload := payload;
                frame_length := len data |}.
Proof.
  intros Hs Hl Hop.
  destruct (proj2 (utf8_encode_is_Some text) Hs) as [payload Hp].
  pose proof (utf8_encode_length _ _ Hp) as Hlen.
  destruct (build (Bytes payload) opcode) as [data|] eqn:Hb.
  2:{ apply build_bytes_None in Hb. lia. }
  exists payload, data. split; [done|]. split.
  - by rewrite build_str, Hp.
  - by apply build_parses.
Qed.

Lemma ascii_is_scalar (s : str) :
  forallb (fun c => (0 <=? c) && (c <? 128)) s = true → Forall is_scalar s.
Proof.
  intros H. apply Forall_forall. intros c Hc.
  rewrite forallb_forall in H. apply list_elem_of_In in Hc.
  specialize (H c Hc). apply andb_true_iff in H as [H1 H2].
  unfold is_scalar. lia.
Qed.

(** ** The message router *)

Section RouterFacts.

Variable json_loads : str → loads_result.
Variable json_dumps : json → str.
Variable write_raises : conn → bool.

Local Abbreviation route :=
  (handle_message json_loads json_dumps write_raises).

Lemma writes_app (evs1 evs2 : list event) :
  writes (evs1 ++ evs2) = writes evs1 ++ writes evs2.
Proof. apply omap_app. Qed.

Lemma closes_app (evs1 evs2 : list event) :
  closes (evs1 ++ evs2) = closes evs1 ++ closes evs2.
Proof. apply omap_app. Qed.



(** X9. [handle_message] updates the room registry before it looks the
    sender up: a join from a connection that is not registered still puts
    the connection into the room, then fails with [KeyError], which is
    logged; no acknowledgement is sent and the client registry is
    unchanged. *)
Theorem join_by_unregistered_connection (sched : schedule) (s : server)
    (c : conn) (message : str) (data : json) (t : option json) (r : pykey) :
  json_loads message = Loaded data →
  dict_get data (lit "type") = Some t → is_str t (lit "join") = true →
  stated_room data = Some r →
  clients s !! c = None →
  ∃ s', route sched s c message = (s', [Printed LogErrorHandlingMessage])
    ∧ clients s' = clients s
    ∧ (∃ members, rooms s' !! r = Some members ∧ c ∈ members)
    ∧ ¬ members_registered s'.
Proof.
  intros Hl Ht Hj Hk Hc.
  assert (join_room s r c
          = ({| clients := clients s;
                rooms := rooms (fst (join_room s r c)) |}, false)) as Hjr.
  { unfold join_room. by rewrite Hc. }
  eexists. split.
  { unfold handle_message. rewrite Hl, Ht, Hj.
    unfold stated_room in Hk. rewrite Hk, Hjr. done. }
  split; [done|].
  assert (∃ members,
            rooms (fst (join_room s r c)) !! r = Some members ∧ c ∈ members)
    as Hin.
  { rewrite join_room_rooms, decide_True by done. eexists. split; [done|].
    apply elem_of_set_add. by left. }
  split; [done|].
  intros Hreg. destruct Hin as (m & Hm & Hcm).
  destruct (Hreg r m c Hm Hcm) as (info & Hi & _).
  simpl in Hi. congruence.
Qed.

(** X10. An uninterrupted [handle_message] never removes anything: the
    same connections are registered afterwards, every room still exists
    with at least its former members, and every record still lists at
    least its former rooms. *)
Theorem handle_message_never_removes (s : server) (c : conn)
    (message : str) :
  let s' := fst (route [] s c message) in
  (∀ c', is_Some (clients s' !! c') ↔ is_Some (clients s !! c'))
  ∧ (∀ r m, rooms s !! r = Some m →
       ∃ m', rooms s' !! r = Some m' ∧ m ⊆ m')
  ∧ (∀ c' info, clients s !! c' = Some info →
       ∃ info', clients s' !! c' = Some info'
         ∧ ci_rooms info ⊆ ci_rooms info').
Proof.
  cbv zeta.
  destruct (handle_message_state json_loads json_dumps write_raises
              s c message) as [->|[r ->]].
  { split; [done|]. split; intros; eexists; done. }
  split; [|split].
  - intros c'. rewrite join_room_clients.
    destruct (decide (c' = c)) as [->|]; [|done].
    by rewrite fmap_is_Some.
  - intros r' m Hm. rewrite join_room_rooms.
    destruct (decide (r' = r)) as [->|]; [|by eexists].
    eexists. split; [done|]. rewrite Hm. simpl.
    intros x Hx. apply elem_of_set_add. by right.
  - intros c' info Hi. rewrite join_room_clients.
    destruct (decide (c' = c)) as [->|]; [|by eexists].
    rewrite Hi. simpl. eexists. split; [done|]. simpl.
    intros x Hx. apply elem_of_set_add. by right.
Qed.

Lemma apply_action_unregistered (c : conn) (s : server) (a : action) :
  a ≠ ARegister c → clients s !! c = None →
  clients (apply_action s a) !! c = None.
Proof.
  intros Ha Hc. destruct a as [c'|c' r|c']; simpl.
  - rewrite lookup_insert_ne; [done|]. intros ->. done.
  - rewrite join_room_clients. destruct (decide (c = c')) as [<-|]; [|done].
    by rewrite Hc.
  - unfold unregister. destruct (clients s !! c'); [|done]. simpl.
    destruct (decide (c' = c)) as [->|].
    + by rewrite lookup_delete_eq.
    + by rewrite lookup_delete_ne.
Qed.

Lemma interfere_unregistered (c : conn) (room_id : pykey)
    (acts : list action) (s : server) (it : set_iter) :
  Forall (fun a => a ≠ ARegister c) acts → clients s !! c = None →
  clients (interfere room_id acts s it).1 !! c = None.
Proof.
  rewrite interfere_state. intros Ha. revert s.
  induction Ha as [|a acts Ha _ IH]; intros s Hc; [done|].
  simpl. apply IH. by apply apply_action_unregistered.
Qed.

Lemma send_to_client_recipient (c : conn) (data : json) :
  Forall (fun w => w.1 = c
                   ∧ build (Str (json_dumps data)) 1 = Some w.2)
    (writes (send_to_client json_dumps write_raises c data)).
Proof.
  unfold send_to_client. destruct (build _ _) as [frame|]; [|constructor].
  destruct (write_raises c); simpl; by repeat constructor.
Qed.

(** Whatever the other tasks do, the broadcast loop writes the one frame
    it was given, never to the excluded connection, and never to a
    connection that was not registered at the start and is not registered
    meanwhile. *)
Lemma broadcast_loop_recipients (c : conn) (room_id : pykey)
    (frame : bytes) (exclude : option conn) (fuel : nat) :
  ∀ (sched : schedule) (s : server) (it : set_iter),
    let evs :=
      (broadcast_loop write_raises fuel sched s room_id frame exclude it).1.2
    in
    Forall (fun w => Some w.1 ≠ exclude ∧ w.2 = frame) (writes evs)
    ∧ (clients s !! c = None →
       Forall (Forall (fun a => a ≠ ARegister c)) sched →
       c ∉ (writes evs).*1).
Proof.
  induction fuel as [|fuel IH]; intros sched s it; cbn [broadcast_loop].
  { split; [constructor|]. intros _ _. apply not_elem_of_nil. }
  destruct (set_iter_next _ _) as [client_ws it'| |]; cbn zeta;
    try (split; [constructor|intros _ _; apply not_elem_of_nil]).
  destruct (bool_decide (Some client_ws ≠ exclude)) eqn:Hex; simpl;
    [|apply IH].
  destruct (bool_decide (is_Some (clients s !! client_ws))) eqn:Hreg; simpl;
    [|apply IH].
  apply bool_decide_eq_true in Hex, Hreg.
  destruct (write_raises client_ws).
  - specialize (IH sched s it').
    destruct (broadcast_loop _ _ _ _ _ _ _ _) as [[s2 evs2] x].
    simpl in *. destruct IH as [IH1 IH2]. split.
    + by constructor.
    + intros Hc Hs. rewrite not_elem_of_cons. split; [|by apply IH2].
      intros ->. rewrite Hc in Hreg. by destruct Hreg.
  - destruct (interfere room_id (hd [] sched) s it') as [s1 it1] eqn:Hi.
    specialize (IH (tl sched) s1 it1).
    destruct (broadcast_loop _ _ _ _ _ _ _ _) as [[s2 evs2] x].
    simpl in *. destruct IH as [IH1 IH2]. split.
    + by constructor.
    + intros Hc Hs. rewrite not_elem_of_cons. split.
      { intros ->. rewrite Hc in Hreg. by destruct Hreg. }
      apply IH2.
      * pose proof (interfere_unregistered c room_id (hd [] sched) s it')
          as Hu. rewrite Hi in Hu. apply Hu; [|done].
        destruct Hs; [constructor|done].
      * destruct Hs; [constructor|done].
Qed.

Lemma route_recipients (c : conn) (sched : schedule) (s : server)
    (ws : conn) (message : str) :
  let evs := (route sched s ws message).2 in
  (Forall (fun w => w.1 ≠ ws) (writes evs)
   ∨ ∃ data t, json_loads message = Loaded data
       ∧ dict_get data (lit "type") = Some t
       ∧ is_str t (lit "join") = true
       ∧ is_Some (clients s !! ws)
       ∧ Forall (fun w => w.1 = ws) (writes evs))
  ∧ (clients s !! c = None →
     Forall (Forall (fun a => a ≠ ARegister c)) sched →
     c ∉ (writes evs).*1).
Proof.
  cbv zeta. unfold handle_message.
  destruct (json_loads message) as [data| |];
    try (split; [left; constructor|intros _ _; apply not_elem_of_nil]).
  destruct (dict_get data _) as [t|] eqn:Ht;
    try (split; [left; constructor|intros _ _; apply not_elem_of_nil]).
  destruct (is_str t (lit "join")) eqn:Hj.
  - destruct (as_key _) as [r|];
      try (split; [left; constructor|intros _ _; apply not_elem_of_nil]).
    pose proof (join_room_flag s r ws) as Hf.
    destruct (join_room s r ws) as [s' []]; simpl in Hf;
      try (split; [left; constructor|intros _ _; apply not_elem_of_nil]).
    symmetry in Hf. apply bool_decide_eq_true in Hf.
    destruct (print_raises _);
      try (split; [left; constructor|intros _ _; apply not_elem_of_nil]).
    pose proof (send_to_client_recipient ws
                  (JObj [(lit "type", JStr (lit "joined"));
                         (lit "room",
                          room_of (default None
                                     (dict_get data (lit "room"))))]))
      as Hw.
    cbn [snd writes omap]. split.
    + right. exists data, t. split; [done|]. split; [done|].
      split; [done|]. split; [done|].
      eapply Forall_impl; [exact Hw|]. by intros w [? _].
    + intros Hc _ Hin. apply list_elem_of_fmap in Hin as (w & -> & Hin).
      rewrite Forall_forall in Hw. destruct (Hw w Hin) as [Hws _].
      rewrite <- Hws, Hc in Hf. by destruct Hf.
  - destruct (_ || _);
      try (split; [left; constructor|intros _ _; apply not_elem_of_nil]).
    destruct (as_key _) as [r|];
      try (split; [left; constructor|intros _ _; apply not_elem_of_nil]).
    case_bool_decide;
      try (split; [left; constructor|intros _ _; apply not_elem_of_nil]).
    unfold broadcast_to_room.
    destruct (rooms s !! r) as [members|];
      try (split; [left; constructor|intros _ _; apply not_elem_of_nil]).
    destruct (build _ _) as [frame|];
      try (split; [left; constructor|intros _ _; apply not_elem_of_nil]).
    pose proof (broadcast_loop_recipients c r frame (Some ws)
                  (S (length members)) sched s
                  {| si_live := true; si_used := length members;
                     si_pos := 0 |}) as [Hb1 Hb2].
    destruct (broadcast_loop _ _ _ _ _ _ _ _) as [[s' evs] x].
    simpl in Hb1, Hb2.
    assert (writes (evs ++ [Printed LogErrorHandlingMessage]) = writes evs)
      as Happ by (rewrite writes_app; apply app_nil_r).
    destruct x; simpl; rewrite ?Happ; (split; [left|done]);
      (eapply Forall_impl; [exact Hb1|]); intros w [Hw _] Heq; apply Hw;
      by rewrite Heq.
Qed.

(** X11. Only a join is answered: whatever the other tasks do meanwhile,
    a message that is not a join from a registered connection is never
    written back to the connection that sent it. *)
Theorem sender_gets_no_echo (sched : schedule) (s : server) (ws : conn)
    (message : str) :
  (∀ data t, json_loads message = Loaded data →
     dict_get data (lit "type") = Some t →
     is_str t (lit "join") = false) →
  ws ∉ recipients (route sched s ws message).2.
Proof.
  intros Hnj. unfold recipients.
  destruct (route_recipients ws sched s ws message) as [[Hw|Hw] _].
  - intros Hin. apply list_elem_of_fmap in Hin as (w & Heq & Hin).
    rewrite Forall_forall in Hw. by apply (Hw w Hin).
  - destruct Hw as (data & t & Hl & Ht & Hj & _).
    rewrite (Hnj data t Hl Ht) in Hj. done.
Qed.

(** X12. A connection that is not registered when a message is handled,
    and is not registered by another task while the handler is suspended,
    is sent nothing by that handler, whoever the sender and whatever the
    message; room membership alone never causes a delivery. *)
Theorem unregistered_connection_receives_nothing (sched : schedule)
    (s : server) (c ws : conn) (message : str) :
  clients s !! c = None →
  Forall (Forall (fun a => a ≠ ARegister c)) sched →
  c ∉ recipients (route sched s ws message).2.
Proof.
  intros Hc Hs. unfold recipients.
  by apply (route_recipients c sched s ws message).
Qed.

Lemma route_frames (sched : schedule) (s : server) (ws : conn)
    (message : str) :
  Forall (fun w => ∃ v, build (Str (json_dumps v)) 1 = Some w.2)
    (writes (route sched s ws message).2).
Proof.
  unfold handle_message.
  destruct (json_loads message) as [data| |]; try constructor.
  destruct (dict_get data _) as [t|]; try constructor.
  destruct (is_str t (lit "join")).
  - destruct (as_key _) as [r|]; try constructor.
    destruct (join_room s r ws) as [s' []]; try constructor.
    destruct (print_raises _); try constructor.
    cbn [snd writes omap].
    eapply Forall_impl; [apply send_to_client_recipient|].
    intros w [_ Hw]. by eexists.
  - destruct (_ || _); try constructor.
    destruct (as_key _) as [r|]; try constructor.
    case_bool_decide; try constructor.
    unfold broadcast_to_room.
    destruct (rooms s !! r) as [members|]; try constructor.
    destruct (build _ _) as [frame|] eqn:Hb; try constructor.
    pose proof (broadcast_loop_recipients ws r frame (Some ws)
                  (S (length members)) sched s
                  {| si_live := true; si_used := length members;
                     si_pos := 0 |}) as [Hb1 _].
    destruct (broadcast_loop _ _ _ _ _ _ _ _) as [[s' evs] x].
    simpl in Hb1.
    assert (writes (evs ++ [Printed LogErrorHandlingMessage]) = writes evs)
      as Happ by (rewrite writes_app; apply app_nil_r).
    destruct x; simpl; rewrite ?Happ;
      (eapply Forall_impl; [exact Hb1|]); intros w [_ ->]; by eexists.
Qed.

(** X13. Everything the router writes, for any message and under any
    interleaving, is one complete unmasked text frame: parsing it gives
    [fin = 1], opcode 1, the whole write as the frame, and as payload the
    UTF-8 encoding of a [json.dumps] output. *)
Theorem router_writes_text_frames (sched : schedule) (s : server)
    (ws : conn) (message : str) (c : conn) (data : bytes) :
  (c, data) ∈ writes (route sched s ws message).2 →
  ∃ v p, utf8_encode (json_dumps v) = Some p
    ∧ parse data = Some {| fin := 1; opcode := 1; payload := p;
                           frame_length := len data |}.
Proof.
  intros Hin. pose proof (route_frames sched s ws message) as Hf.
  rewrite Forall_forall in Hf. destruct (Hf _ Hin) as [v Hv]. simpl in Hv.
  exists v. unfold build in Hv. cbn [mbind option_bind] in Hv.
  destruct (utf8_encode (json_dumps v)) as [p|]; [|done].
  exists p. split; [done|]. exact (build_parses p data 1 Hv).
Qed.

(** ** Relaying *)

Lemma not_join_of_relay (t : option json) :
  is_relay t = true → is_str t (lit "join") = false.
Proof.
  unfold is_relay. intros Hr.
  destruct (is_str t (lit "join")) eqn:Hj; [|done].
  destruct t as [[]|]; try done. simpl in Hj, Hr.
  apply bool_decide_eq_true in Hj as ->. done.
Qed.

(** A relayed message, under any schedule: nothing is written to the
    sender, and every write carries the frame of the message. *)
Lemma relay_writes (sched : schedule) (s : server) (ws : conn)
    (message : str) (data : json) (t : option json) :
  json_loads message = Loaded data →
  dict_get data (lit "type") = Some t → is_relay t = true →
  Forall (fun w => w.1 ≠ ws ∧ build (Str (json_dumps data)) 1 = Some w.2)
    (writes (route sched s ws message).2).
Proof.
  intros Hl Ht Hr. unfold handle_message.
  rewrite Hl, Ht, (not_join_of_relay t Hr). unfold is_relay in Hr.
  rewrite Hr. destruct (as_key _) as [r|]; try constructor.
  case_bool_decide; try constructor.
  unfold broadcast_to_room.
  destruct (rooms s !! r) as [members|]; try constructor.
  destruct (build _ _) as [frame|] eqn:Hb; try constructor.
  pose proof (broadcast_loop_recipients ws r frame (Some ws)
                (S (length members)) sched s
                {| si_live := true; si_used := length members;
                   si_pos := 0 |}) as [Hb1 _].
  destruct (broadcast_loop _ _ _ _ _ _ _ _) as [[s' evs] x].
  simpl in Hb1.
  assert (writes (evs ++ [Printed LogErrorHandlingMessage]) = writes evs)
    as Happ by (rewrite writes_app; apply app_nil_r).
  destruct x; simpl; rewrite ?Happ;
    (eapply Forall_impl; [exact Hb1|]); intros w [Hw ->];
    (split; [|done]); intros Heq; apply Hw; by rewrite Heq.
Qed.

(** A relayed message whose broadcast is interrupted by a join during the
    first send. *)
Lemma relay_interrupted (s : server) (ws : conn) (message : str)
    (data : json) (t : option json) (r : pykey) (frame : bytes)
    (pre post : list conn) (b d : conn) :
  json_loads message = Loaded data →
  dict_get data (lit "type") = Some t → is_relay t = true →
  stated_room data = Some r →
  rooms s !! r = Some (pre ++ b :: post) →
  Forall (fun c => c = ws) pre → b ≠ ws →
  is_Some (clients s !! b) → write_raises b = false →
  d ∉ pre ++ b :: post →
  build (Str (json_dumps data)) 1 = Some frame →
  route [[AJoin d r]] s ws message
  = ((join_room s r d).1, [Wrote b frame; Printed LogErrorHandlingMessage]).
Proof.
  intros Hl Ht Hr Hk Hm Hpre Hb Hreg Hw Hd Hf. unfold handle_message.
  rewrite Hl, Ht, (not_join_of_relay t Hr). unfold is_relay in Hr.
  rewrite Hr. unfold stated_room in Hk. rewrite Hk.
  rewrite bool_decide_eq_true_2 by (by rewrite Hm).
  rewrite (join_during_send_aborts_broadcast json_dumps write_raises s r
             data (Some ws) frame pre post b d Hm); try done.
  - eapply Forall_impl; [exact Hpre|]. intros c ->. by left.
  - intros [= ->]. done.
Qed.

(** C6. A [presence], [offer], [answer] or [ice-candidate] message is
    serialised whole into one text frame. Under any interleaving nothing
    but that frame is written, never to the sender, and nothing is
    closed; if the room has no registry entry nothing is delivered and
    nothing changes. Handled without interruption, one delivery is
    attempted to each member of the stated room other than the sender and
    to nobody else. But the broadcast is not immune to other tasks: when
    a connection joins the room while the first send is awaited, the
    handler stops with an error after that one delivery, and every later
    member, although still in the room, is sent nothing. *)
Theorem relay_reaches_room_unless_interrupted (s : server) (ws : conn)
    (message : str) (data : json) (t : option json) :
  reachable json_loads json_dumps write_raises s →
  json_loads message = Loaded data →
  dict_get data (lit "type") = Some t → is_relay t = true →
  Forall is_scalar (json_dumps data) → 4 * len (json_dumps data) < 2 ^ 64 →
  ∃ payload frame,
    utf8_encode (json_dumps data) = Some payload
    ∧ build (Str (json_dumps data)) 1 = Some frame
    ∧ parse frame = Some {| fin := 1; opcode := 1; payload := payload;
                            frame_length := len frame |}
    (* under any interleaving *)
    ∧ (∀ sched,
         closes (route sched s ws message).2 = []
         ∧ ∀ c d, (c, d) ∈ writes (route sched s ws message).2 →
             c ≠ ws ∧ d = frame)
    (* no such room *)
    ∧ (stated_room data ≫= (fun r => rooms s !! r) = None →
       ∀ sched, ∃ evs, route sched s ws message = (s, evs)
         ∧ writes evs = []
         ∧ (is_Some (stated_room data) → evs = []))
    ∧ ∀ r members,
        stated_room data = Some r → rooms s !! r = Some members →
        (* without interruption *)
        (∃ evs, route [] s ws message = (s, evs)
           ∧ writes evs
             ≡ₚ (fun c => (c, frame)) <$> filter (fun c => c ≠ ws) members)
        (* a join during the first send *)
        ∧ ∀ pre b post d,
            members = pre ++ b :: post → Forall (fun c => c = ws) pre →
            b ≠ ws → write_raises b = false → d ∉ members →
            route [[AJoin d r]] s ws message
            = ((join_room s r d).1,
               [Wrote b frame; Printed LogErrorHandlingMessage])
            ∧ ∀ c, c ∈ post → c ≠ ws →
                (∃ m, rooms (join_room s r d).1 !! r = Some m ∧ c ∈ m)
                ∧ is_Some (clients (join_room s r d).1 !! c)
                ∧ c ∉ recipients
                        (route [[AJoin d r]] s ws message).2.
Proof.
  intros Hreach Hl Ht Hr Hsc Hlen.
  destruct (reachable_consistent _ _ _ s Hreach) as [_ Hmem Hwf].
  destruct (build_str_succeeds (json_dumps data) 1 Hsc Hlen ltac:(lia))
    as (payload & frame & Hp & Hb & Hparse).
  exists payload, frame. split; [done|]. split; [done|]. split; [done|].
  split.
  { intros sched. split.
    - apply (handle_message_events json_loads json_dumps write_raises).
    - intros c d Hin.
      pose proof (relay_writes sched s ws message data t Hl Ht Hr) as Hw.
      rewrite Forall_forall in Hw. destruct (Hw _ Hin) as [Hne Hd].
      simpl in *. split; [done|]. congruence. }
  split.
  { intros Hnone sched.
    destruct (stated_room data) as [r|] eqn:Hk; simpl in Hnone.
    - exists []. split.
      + by apply (relay_no_room json_loads json_dumps write_raises sched s
                    ws message data t r).
      + done.
    - exists [Printed LogErrorHandlingMessage]. split.
      + by apply (relay_unhashable json_loads json_dumps write_raises sched
                    s ws message data t).
      + split; [done|]. by intros [? ?]. }
  intros r members Hk Hm. split.
  { eexists. split.
    - by apply (relay_to_room json_loads json_dumps write_raises s ws
                  message data t r members frame).
    - rewrite writes_deliveries.
      rewrite (filter_ext_elem_of
                 (fun c => Some c ≠ Some ws ∧ is_Some (clients s !! c))
                 (fun c => c ≠ ws) members); [done|].
      intros c Hc. destruct (Hmem r members c Hm Hc) as (info & Hi & _).
      split.
      + intros [Hne _] ->. done.
      + intros Hne. split; [by intros [= ->]|by eexists]. }
  intros pre b post d -> Hpre Hbne Hw Hd.
  assert (is_Some (clients s !! b)) as Hreg.
  { destruct (Hmem r _ b Hm) as (info & Hi & _); [|by eexists].
    apply elem_of_app. right. apply elem_of_cons. by left. }
  pose proof (relay_interrupted s ws message data t r frame pre post b d
                Hl Ht Hr Hk Hm Hpre Hbne Hreg Hw Hd Hb) as Hrun.
  split; [exact Hrun|]. intros c Hc Hne.
  assert (c ∈ pre ++ b :: post) as Hcm.
  { apply elem_of_app. right. apply elem_of_cons. by right. }
  split; [|split].
  - rewrite join_room_rooms, decide_True, Hm by done. eexists.
    split; [done|]. apply elem_of_set_add. by right.
  - rewrite join_room_clients.
    destruct (Hmem r _ c Hm Hcm) as (info & Hi & _).
    destruct (decide (c = d)) as [->|]; [done|]. by eexists.
  - rewrite Hrun. unfold recipients. simpl.
    intros ->%list_elem_of_singleton.
    destruct (Hwf r _ Hm) as [_ Hnd].
    apply NoDup_app in Hnd as (_ & _ & Hnd).
    apply NoDup_cons in Hnd as [Hnin _]. done.
Qed.

(** ** Closing *)

(** X14. [close_connection] touches nothing but the closed connection: the
    records of the other connections are unchanged, every other member of
    every room is still a member of it, and no room gains a member or
    comes into existence. *)
Theorem close_leaves_others (s : server) (c : conn) :
  let s' := fst (close_connection s c) in
  (∀ c', c' ≠ c → clients s' !! c' = clients s !! c')
  ∧ (∀ r m c', rooms s !! r = Some m → c' ∈ m → c' ≠ c →
       ∃ m', rooms s' !! r = Some m' ∧ c' ∈ m')
  ∧ (∀ r m', rooms s' !! r = Some m' →
       ∃ m, rooms s !! r = Some m ∧ m' ⊆ m).
Proof.
  cbv zeta. rewrite close_connection_state. unfold unregister.
  destruct (clients s !! c) as [info|]; simpl.
  2:{ split; [done|]. split; intros; eexists; done. }
  split; [|split].
  - intros c' Hne. by rewrite lookup_delete_ne.
  - intros r m c' Hm Hin Hne. rewrite leave_rooms_lookup, Hm.
    destruct (decide (r ∈ ci_rooms info)); [|by eexists]. simpl.
    assert (c' ∈ set_discard c m) as Hd by (by apply elem_of_set_discard).
    rewrite bool_decide_eq_false_2.
    + by eexists.
    + intros E. rewrite E in Hd. by apply not_elem_of_nil in Hd.
  - intros r m'. rewrite leave_rooms_lookup.
    destruct (decide (r ∈ ci_rooms info)); [|by eexists].
    destruct (rooms s !! r) as [m|]; simpl; [|done].
    case_bool_decide; [done|]. intros [= <-]. eexists. split; [done|].
    intros x Hx. by apply elem_of_set_discard in Hx as [? _].
Qed.

(** X15. Accepting a connection, letting it join a room and closing it
    restores both registries exactly: a room created by the join is
    deleted again, an existing room gets its former members back. *)
Theorem accept_join_close_restores (sched : schedule) (s : server)
    (c : conn) (message : str) (data : json) (t : option json) (r : pykey) :
  reachable json_loads json_dumps write_raises s →
  clients s !! c = None →
  json_loads message = Loaded data →
  dict_get data (lit "type") = Some t → is_str t (lit "join") = true →
  stated_room data = Some r →
  fst (close_connection (fst (route sched (store_client s c) c message)) c)
  = s.
Proof.
  intros Hreach Hc Hl Ht Hj Hk.
  destruct (reachable_consistent _ _ _ s Hreach) as [_ Hmem Hwf].
  rewrite (join_message json_loads json_dumps write_raises sched _ c message
             data t r Hl Ht Hj Hk).
  rewrite close_connection_state.
  set (s1 := store_client s c). set (s2 := fst (join_room s1 r c)).
  assert (clients s2 !! c
          = Some {| ci_id := c; ci_reader := c; ci_writer := c;
                    ci_rooms := [r] |}) as Hc2.
  { unfold s2. rewrite join_room_clients, decide_True by done.
    unfold s1. simpl. by rewrite lookup_insert_eq. }
  unfold unregister. rewrite Hc2. simpl.
  destruct s as [cl rs]. simpl in *. f_equal.
  - apply map_eq. intros c'. destruct (decide (c' = c)) as [->|Hne].
    + by rewrite lookup_delete_eq.
    + rewrite lookup_delete_ne by done. unfold s2.
      rewrite join_room_clients, decide_False by done.
      unfold s1. simpl. by rewrite lookup_insert_ne.
  - apply map_eq. intros r'. rewrite leave_room_lookup. unfold s2.
    rewrite join_room_rooms. unfold s1. simpl.
    destruct (decide (r' = r)) as [->|]; [|done]. simpl.
    destruct (rs !! r) as [m|] eqn:Hm; simpl.
    + assert (c ∉ m) as Hnin.
      { intros Hin. destruct (Hmem r m c Hm Hin) as (i & Hi & _).
        simpl in Hi. congruence. }
      unfold set_add. rewrite decide_False by done.
      unfold set_discard. rewrite filter_app, filter_cons, decide_False
        by (intros H; by apply H).
      rewrite filter_nil, app_nil_r.
      fold (set_discard c m). rewrite set_discard_notin by done.
      destruct (Hwf r m Hm) as [Hne _].
      by rewrite bool_decide_eq_false_2.
    + unfold set_add. rewrite decide_False by apply not_elem_of_nil.
      simpl. unfold set_discard. rewrite filter_cons, decide_False
        by (intros H; by apply H).
      by rewrite filter_nil, bool_decide_eq_true_2.
Qed.

End RouterFacts.

(** ** The connection loop *)

Section LoopFacts.

Variable json_loads : str → loads_result.
Variable json_dumps : json → str.
Variable write_raises : conn → bool.

Local Abbreviation frames :=
  (frame_loop json_loads json_dumps write_raises).
Local Abbreviation serve :=
  (read_loop json_loads json_dumps write_raises).
Local Abbreviation route1 :=
  (handle_message json_loads json_dumps write_raises []).

Lemma parse_Some_nonempty (buffer : bytes) (f : frame) :
  parse buffer = Some f → buffer ≠ [].
Proof. by intros H ->. Qed.

(** X16. A ping is answered at once with a pong carrying the same payload:
    [build] cannot fail on a payload that came out of [parse], the answer
    parses as a final frame with opcode 10, the registries are untouched,
    and the loop goes on with the bytes after the ping; if the write fails
    the loop is left with that exception. *)
Theorem ping_is_answered_with_pong (buffer : bytes) (f : frame) :
  parse buffer = Some f → opcode f = 9 →
  ∃ pong, build (Bytes (payload f)) 10 = Some pong
    ∧ parse pong = Some {| fin := 1; opcode := 10; payload := payload f;
                           frame_length := len pong |}
    ∧ ∀ fuel s ws,
        frames (S fuel) s ws buffer
        = if write_raises ws
          then (s, [Parsed f; Wrote ws pong], LoopRaised ConnectionError)
          else let '(s2, evs2, x) :=
                 frames fuel s ws (slice_from (frame_length f) buffer) in
               (s2, Parsed f :: Wrote ws pong :: evs2, x).
Proof.
  intros Hp Hop.
  destruct (build (Bytes (payload f)) 10) as [pong|] eqn:Hb.
  2:{ pose proof (parse_payload_bound _ _ Hp) as Hlen. revert Hb.
      unfold build. cbn [mbind option_bind].
      change (byte_of (Z.lor 128 10)) with (Some x8a). cbn [option_bind].
      pose proof (len_nonneg (payload f)) as Hnn.
      destruct (Z.ltb_spec (len (payload f)) 126).
      { destruct (byte_of_is_Some (len (payload f))) as [b ->]; [lia|done]. }
      destruct (Z.ltb_spec (len (payload f)) 65536).
      { destruct (proj2 (pack_be_is_Some 2 (len (payload f)))) as [e ->];
          [simpl; lia|done]. }
      destruct (proj2 (pack_be_is_Some 8 (len (payload f)))) as [e ->];
        [change (256 ^ Z.of_nat 8) with (2 ^ 64); lia|done]. }
  exists pong. split; [done|]. split.
  { exact (build_parses (payload f) pong 10 Hb). }
  intros fuel s ws. cbn [frame_loop].
  rewrite bool_decide_eq_false_2 by (by eapply parse_Some_nonempty).
  rewrite Hp, Hop. simpl (9 =? 8). simpl (9 =? 9). cbv iota. rewrite Hb.
  destruct (write_raises ws); [done|].
  by destruct (frame_loop _ _ _ _ _ _ _) as [[s2 evs2] x].
Qed.

(** X18. Frames whose opcode is none of 1, 8 and 9 (continuation, binary,
    pong, reserved) are taken off the buffer and dropped: if a run of the
    inner loop consumed only such frames, the registries are unchanged,
    nothing was written or closed, and the loop waits for more bytes. *)
Theorem unhandled_frames_change_nothing (fuel : nat) (s : server)
    (ws : conn) (buffer : bytes) :
  (length buffer < fuel)%nat →
  Forall (fun f => is_handled (opcode f) = false)
    (parsed (frames fuel s ws buffer).1.2) →
  ∃ evs rest,
    frames fuel s ws buffer = (s, evs, NeedMore rest)
    ∧ writes evs = [] ∧ closes evs = []
    ∧ (rest = [] ∨ parse rest = None).
Proof.
  revert buffer. induction fuel as [|fuel IH]; intros buffer Hfuel; [lia|].
  cbn [frame_loop]. case_bool_decide as Hb.
  { intros _. subst. exists [], []. auto. }
  destruct (parse buffer) as [f|] eqn:Hp.
  2:{ intros _. exists [], buffer. auto. }
  pose proof (parse_length _ _ Hp) as Hl.
  assert (length (slice_from (frame_length f) buffer) < fuel)%nat as Hfuel'.
  { rewrite slice_from_length by lia. unfold len in Hl. lia. }
  assert (is_handled (opcode f) = false →
          (opcode f =? 8) = false ∧ (opcode f =? 9) = false
          ∧ (opcode f =? 1) = false) as Hun.
  { unfold is_handled.
    by destruct (opcode f =? 1), (opcode f =? 8), (opcode f =? 9). }
  destruct (is_handled (opcode f)) eqn:Hh.
  { intros Hf. exfalso.
    assert (Forall (fun f => is_handled (opcode f) = false) [f]) as Hf1;
      [|apply Forall_cons in Hf1 as [Hf1 _]; congruence].
    revert Hf. destruct (opcode f =? 8).
    { destruct (close_connection s ws) as [s' evs]. simpl.
      intros Hf. apply Forall_cons in Hf as [Hf _]. by constructor. }
    destruct (opcode f =? 9).
    { destruct (build _ _) as [pong|]; [destruct (write_raises ws)|];
        try destruct (frame_loop _ _ _ _ _ _ _) as [[s2 evs2] x]; simpl;
        intros Hf; apply Forall_cons in Hf as [Hf _]; by constructor. }
    destruct (opcode f =? 1).
    { destruct (utf8_decode _) as [message|];
        [destruct (handle_message _ _ _ _ _ _ _) as [s' evs]|];
        try destruct (frame_loop _ _ _ _ _ _ _) as [[s2 evs2] x]; simpl;
        intros Hf; apply Forall_cons in Hf as [Hf _]; by constructor. }
    destruct (frame_loop _ _ _ _ _ _ _) as [[s2 evs2] x]. simpl.
    intros Hf. apply Forall_cons in Hf as [Hf _]. by constructor. }
  destruct (Hun eq_refl) as (-> & -> & ->).
  specialize (IH _ Hfuel').
  destruct (frame_loop _ _ _ _ _ _ _) as [[s2 evs2] x]. simpl in *.
  intros Hf. apply Forall_cons in Hf as [_ Hf].
  destruct (IH Hf) as (evs & rest & [= -> -> ->] & Hw & Hc & Hr).
  exists (Parsed f :: evs), rest. auto.
Qed.

Lemma route1_keeps_sender (s : server) (ws : conn) (message : str) :
  let s' := (route1 s ws message).1 in
  (is_Some (clients s !! ws) → is_Some (clients s' !! ws))
  ∧ (∀ c, c ≠ ws → clients s' !! c = clients s !! c).
Proof.
  cbv zeta.
  destruct (handle_message_state json_loads json_dumps write_raises
              s ws message) as [->|[r ->]]; [done|].
  split.
  - intros Hreg. rewrite join_room_clients, decide_True by done.
    by apply fmap_is_Some.
  - intros c Hne. by rewrite join_room_clients, decide_False.
Qed.

Lemma close_connection_registered (s : server) (ws : conn) :
  is_Some (clients s !! ws) →
  ∃ s', close_connection s ws = (s', [Closed ws; Printed LogDisconnected])
    ∧ clients s' !! ws = None
    ∧ ∀ c, c ≠ ws → clients s' !! c = clients s !! c.
Proof.
  intros [info Hi]. unfold close_connection, unregister. rewrite Hi.
  eexists. split; [done|]. simpl. split.
  - apply lookup_delete_eq.
  - intros c Hne. by apply lookup_delete_ne.
Qed.

Lemma close_connection_unregistered (s : server) (ws : conn) :
  clients s !! ws = None → close_connection s ws = (s, []).
Proof. intros Hn. unfold close_connection, unregister. by rewrite Hn. Qed.

(** The inner loop keeps the connection registered and closes nothing,
    unless it returns after a close frame; it never alters the record of
    another connection. *)
Lemma frame_loop_registration (fuel : nat) (ws : conn) :
  ∀ (s : server) (buffer : bytes),
    is_Some (clients s !! ws) →
    let '(s', evs, x) := frames fuel s ws buffer in
    (∀ c, c ≠ ws → clients s' !! c = clients s !! c)
    ∧ match x with
      | ReturnedAfterClose => clients s' !! ws = None ∧ closes evs = [ws]
      | _ => is_Some (clients s' !! ws) ∧ closes evs = []
      end.
Proof.
  induction fuel as [|fuel IH]; intros s buffer Hreg; cbn [frame_loop];
    [done|].
  case_bool_decide; [done|].
  destruct (parse buffer) as [f|]; [|done].
  destruct (opcode f =? 8).
  { destruct (close_connection_registered s ws Hreg)
      as (s' & -> & Hn & Ho). done. }
  destruct (opcode f =? 9).
  { destruct (build _ _) as [pong|]; [|done].
    destruct (write_raises ws); [done|].
    specialize (IH s (slice_from (frame_length f) buffer) Hreg).
    destruct (frame_loop _ _ _ _ _ _ _) as [[s2 evs2] x].
    destruct IH as [IH1 IH2]. split; [done|]. by destruct x. }
  destruct (opcode f =? 1).
  { destruct (utf8_decode _) as [message|]; [|done].
    pose proof (route1_keeps_sender s ws message) as [Hk Ho].
    pose proof (handle_message_events json_loads json_dumps write_raises
                  [] s ws message) as [_ Hc].
    destruct (handle_message _ _ _ _ _ _ _) as [s' evs]. simpl in *.
    specialize (IH s' (slice_from (frame_length f) buffer) (Hk Hreg)).
    destruct (frame_loop _ _ _ _ _ _ _) as [[s2 evs2] x].
    destruct IH as [IH1 IH2]. split.
    - intros c Hne. by rewrite IH1, Ho.
    - assert (closes (Parsed f :: evs ++ evs2) = closes evs2) as ->.
      { change (closes (Parsed f :: evs ++ evs2))
          with (closes (evs ++ evs2)). by rewrite closes_app, Hc. }
      by destruct x. }
  specialize (IH s (slice_from (frame_length f) buffer) Hreg).
  destruct (frame_loop _ _ _ _ _ _ _) as [[s2 evs2] x].
  destruct IH as [IH1 IH2]. split; [done|]. by destruct x.
Qed.

Lemma teardown_registered (s : server) (ws : conn) (x : loop_exit) :
  is_Some (clients s !! ws) →
  let '(s', evs) := teardown s ws x in
  (∀ c, c ≠ ws → clients s' !! c = clients s !! c)
  ∧ clients s' !! ws = None ∧ closes evs = [ws].
Proof.
  intros Hreg. unfold teardown.
  destruct (close_connection_registered s ws Hreg) as (s' & -> & Hn & Ho).
  split; [done|]. split; [done|]. by destruct x.
Qed.

Lemma read_loop_registration (reads : list read_result) :
  ∀ (s : server) (ws : conn) (buffer : bytes),
    is_Some (clients s !! ws) →
    let '(s', evs) := serve s ws buffer reads in
    clients s' !! ws = None
    ∧ closes evs = [ws]
    ∧ ∀ c, c ≠ ws → clients s' !! c = clients s !! c.
Proof.
  induction reads as [|[data|] rest IH]; intros s ws buffer Hreg;
    cbn [read_loop].
  - pose proof (teardown_registered s ws (NeedMore buffer) Hreg) as Ht.
    destruct (teardown _ _ _) as [s' evs]. tauto.
  - case_bool_decide.
    { pose proof (teardown_registered s ws (NeedMore buffer) Hreg) as Ht.
      destruct (teardown _ _ _) as [s' evs]. tauto. }
    unfold on_data.
    pose proof (frame_loop_registration (S (length (buffer ++ data))) ws s
                  (buffer ++ data) Hreg) as Hf.
    destruct (frame_loop _ _ _ _ _ _ _) as [[s1 evs1] x].
    destruct Hf as [Ho Hx].
    destruct x as [buffer'| |e|].
    + destruct Hx as [Hreg1 Hc1]. specialize (IH s1 ws buffer' Hreg1).
      destruct (read_loop _ _ _ _ _ _ _) as [s2 evs2].
      destruct IH as (Hn & Hc & Ho2). split; [done|]. split.
      * by rewrite closes_app, Hc1, Hc.
      * intros c Hne. by rewrite Ho2, Ho.
    + destruct Hx as [Hn1 Hc1]. unfold teardown.
      rewrite (close_connection_unregistered s1 ws Hn1). simpl.
      split; [done|]. split; [|done]. by rewrite closes_app, Hc1.
    + destruct Hx as [Hreg1 Hc1].
      pose proof (teardown_registered s1 ws (LoopRaised e) Hreg1) as Ht.
      destruct (teardown _ _ _) as [s2 evs2].
      destruct Ht as (Ho2 & Hn & Hc). split; [done|]. split.
      * by rewrite closes_app, Hc1, Hc.
      * intros c Hne. by rewrite Ho2, Ho.
    + destruct Hx as [Hreg1 Hc1].
      pose proof (teardown_registered s1 ws LoopOutOfFuel Hreg1) as Ht.
      destruct (teardown _ _ _) as [s2 evs2].
      destruct Ht as (Ho2 & Hn & Hc). split; [done|]. split.
      * by rewrite closes_app, Hc1, Hc.
      * intros c Hne. by rewrite Ho2, Ho.
  - pose proof (teardown_registered s ws (LoopRaised ConnectionError) Hreg)
      as Ht.
    destruct (teardown _ _ _) as [s' evs]. tauto.
Qed.

Lemma unregistered_in_no_room (s : server) (ws : conn) :
  reachable json_loads json_dumps write_raises s →
  clients s !! ws = None →
  ∀ r m, rooms s !! r = Some m → ws ∉ m.
Proof.
  intros Hreach Hn r m Hm Hin.
  destruct (reachable_consistent _ _ _ s Hreach) as [_ Hmem _].
  destruct (Hmem r m ws Hm Hin) as (info & Hi & _). congruence.
Qed.

Lemma frame_loop_reachable (fuel : nat) (ws : conn) :
  ∀ (s : server) (buffer : bytes),
    reachable json_loads json_dumps write_raises s →
    is_Some (clients s !! ws) →
    reachable json_loads json_dumps write_raises
      (frames fuel s ws buffer).1.1.
Proof.
  induction fuel as [|fuel IH]; intros s buffer Hreach Hreg;
    cbn [frame_loop]; [done|].
  case_bool_decide; [done|].
  destruct (parse buffer) as [f|]; [|done].
  destruct (opcode f =? 8).
  { pose proof (reachable_close _ _ _ s ws Hreach) as Hc.
    by destruct (close_connection s ws) as [s' evs]. }
  destruct (opcode f =? 9).
  { destruct (build _ _) as [pong|]; [|done].
    destruct (write_raises ws); [done|].
    specialize (IH s (slice_from (frame_length f) buffer) Hreach Hreg).
    by destruct (frame_loop _ _ _ _ _ _ _) as [[s2 evs2] x]. }
  destruct (opcode f =? 1).
  { destruct (utf8_decode _) as [message|]; [|done].
    pose proof (route1_keeps_sender s ws message) as [Hk _].
    pose proof (reachable_message _ _ _ s ws message Hreach Hreg) as Hm.
    destruct (handle_message _ _ _ _ _ _ _) as [s' evs]. simpl in *.
    specialize (IH s' (slice_from (frame_length f) buffer) Hm (Hk Hreg)).
    by destruct (frame_loop _ _ _ _ _ _ _) as [[s2 evs2] x]. }
  specialize (IH s (slice_from (frame_length f) buffer) Hreach Hreg).
  by destruct (frame_loop _ _ _ _ _ _ _) as [[s2 evs2] x].
Qed.

Lemma teardown_reachable (s : server) (ws : conn) (x : loop_exit) :
  reachable json_loads json_dumps write_raises s →
  reachable json_loads json_dumps write_raises (teardown s ws x).1.
Proof.
  intros Hreach. unfold teardown.
  pose proof (reachable_close _ _ _ s ws Hreach) as Hc.
  by destruct (close_connection s ws) as [s' evs].
Qed.

Lemma read_loop_reachable (reads : list read_result) :
  ∀ (s : server) (ws : conn) (buffer : bytes),
    reachable json_loads json_dumps write_raises s →
    is_Some (clients s !! ws) →
    reachable json_loads json_dumps write_raises
      (serve s ws buffer reads).1.
Proof.
  induction reads as [|[data|] rest IH]; intros s ws buffer Hreach Hreg;
    cbn [read_loop]; try by apply teardown_reachable.
  case_bool_decide; [by apply teardown_reachable|].
  unfold on_data.
  pose proof (frame_loop_registration (S (length (buffer ++ data))) ws s
                (buffer ++ data) Hreg) as Hf.
  pose proof (frame_loop_reachable (S (length (buffer ++ data))) ws s
                (buffer ++ data) Hreach Hreg) as Hr.
  destruct (frame_loop _ _ _ _ _ _ _) as [[s1 evs1] x].
  destruct Hf as [_ Hx]. simpl in Hr.
  destruct x as [buffer'| |e|].
  - destruct Hx as [Hreg1 _]. specialize (IH s1 ws buffer' Hr Hreg1).
    by destruct (read_loop _ _ _ _ _ _ _) as [s2 evs2].
  - pose proof (teardown_reachable s1 ws ReturnedAfterClose Hr).
    by destruct (teardown _ _ _) as [s2 evs2].
  - pose proof (teardown_reachable s1 ws (LoopRaised e) Hr).
    by destruct (teardown _ _ _) as [s2 evs2].
  - pose proof (teardown_reachable s1 ws LoopOutOfFuel Hr).
    by destruct (teardown _ _ _) as [s2 evs2].
Qed.

(** X19. However the stream of a registered connection goes (any bytes,
    in any chunks, ending by a close frame, by end of stream or by an
    exception), when the loop and its [finally] clause are done the
    connection is unregistered, its socket has been closed exactly once,
    and the records of the other connections are what they were; in a
    running server the connection is then a member of no room. *)
Theorem connection_closed_exactly_once (reads : list read_result)
    (s : server) (ws : conn) (buffer : bytes) :
  is_Some (clients s !! ws) →
  let s' := (serve s ws buffer reads).1 in
  let evs := (serve s ws buffer reads).2 in
  clients s' !! ws = None
  ∧ closes evs = [ws]
  ∧ (∀ c, c ≠ ws → clients s' !! c = clients s !! c)
  ∧ (reachable json_loads json_dumps write_raises s →
     ∀ r m, rooms s' !! r = Some m → ws ∉ m).
Proof.
  intros Hreg. cbv zeta.
  pose proof (read_loop_registration reads s ws buffer Hreg) as Hl.
  pose proof (read_loop_reachable reads s ws buffer) as Hr.
  destruct (read_loop _ _ _ _ _ _ _) as [s' evs]. simpl in *.
  destruct Hl as (Hn & Hc & Ho). split; [done|]. split; [done|].
  split; [done|]. intros Hreach.
  apply unregistered_in_no_room; [by apply Hr|done].
Qed.

(** *** A frame that ends the connection, wherever it stands in a read *)

Lemma slice_from_app (n : Z) (l r : bytes) :
  0 <= n <= len l → slice_from n (l ++ r) = slice_from n l ++ r.
Proof.
  intros Hn. unfold slice_from. apply drop_app_le. unfold len in Hn. lia.
Qed.

(** The result of the inner loop does not depend on the fuel, once there
    is enough of it. *)
Lemma frame_loop_fuel (ws : conn) (fuel1 : nat) :
  ∀ (fuel2 : nat) (s : server) (buffer : bytes),
    (length buffer < fuel1)%nat → (length buffer < fuel2)%nat →
    frames fuel1 s ws buffer = frames fuel2 s ws buffer.
Proof.
  induction fuel1 as [|fuel1 IH]; intros [|fuel2] s buffer H1 H2; try lia.
  cbn [frame_loop]. case_bool_decide; [done|].
  destruct (parse buffer) as [f|] eqn:Hp; [|done].
  pose proof (parse_length _ _ Hp) as Hl.
  assert (length (slice_from (frame_length f) buffer) < fuel1)%nat
    by (rewrite slice_from_length by lia; unfold len in Hl; lia).
  assert (length (slice_from (frame_length f) buffer) < fuel2)%nat
    by (rewrite slice_from_length by lia; unfold len in Hl; lia).
  destruct (opcode f =? 8); [done|].
  destruct (opcode f =? 9).
  { destruct (build _ _) as [pong|]; [|done].
    destruct (write_raises ws); [done|]. by rewrite (IH fuel2). }
  destruct (opcode f =? 1).
  { destruct (utf8_decode _) as [message|]; [|done].
    destruct (handle_message _ _ _ _ _ _ _) as [s' evs].
    by rewrite (IH fuel2). }
  by rewrite (IH fuel2).
Qed.

(** Bytes that the inner loop handles completely and then waits for more:
    when other bytes follow them, the loop does the same and goes on with
    what follows. *)
Lemma frame_loop_app (ws : conn) (fuel : nat) :
  ∀ (s s1 : server) (before rest : bytes) (evs1 : list event)
    (fuel' : nat),
    frames fuel s ws before = (s1, evs1, NeedMore []) →
    (length (before ++ rest) < fuel')%nat →
    frames fuel' s ws (before ++ rest)
    = let '(s2, evs2, x) := frames fuel' s1 ws rest in
      (s2, evs1 ++ evs2, x).
Proof.
  induction fuel as [|fuel IH]; intros s s1 before rest evs1 fuel' Hrun Hlt;
    cbn [frame_loop] in Hrun; [done|].
  case_bool_decide as Hb.
  { injection Hrun as <- <-. subst before. simpl.
    by destruct (frame_loop _ _ _ _ _ _ _) as [[s2 evs2] x]. }
  destruct (parse before) as [f|] eqn:Hp.
  2:{ injection Hrun as _ _ ->. done. }
  pose proof (parse_length _ _ Hp) as Hl.
  destruct fuel' as [|fuel']; [lia|].
  assert (length (slice_from (frame_length f) before ++ rest) < fuel')%nat
    as Hlt'.
  { rewrite length_app in *. rewrite slice_from_length by lia.
    unfold len in Hl. lia. }
  assert (frames fuel' s1 ws rest = frames (S fuel') s1 ws rest) as Hfuel.
  { apply frame_loop_fuel; rewrite length_app in Hlt'; lia. }
  remember (frames (S fuel') s1 ws rest) as after eqn:Hafter.
  clear Hafter. cbn [frame_loop].
  rewrite bool_decide_eq_false_2
    by (intros E; apply app_eq_nil in E as [? _]; done).
  rewrite (parse_app before rest f Hp).
  rewrite slice_from_app by lia.
  destruct (opcode f =? 8).
  { by destruct (close_connection s ws). }
  destruct (opcode f =? 9).
  { destruct (build _ _) as [pong|]; [|done].
    destruct (write_raises ws); [done|].
    destruct (frame_loop _ _ _ fuel _ _ _) as [[s2 e2] x] eqn:E.
    injection Hrun as <- <- ->.
    rewrite (IH _ _ _ rest _ fuel' E Hlt'), Hfuel.
    by destruct after as [[s3 e3] x3]. }
  destruct (opcode f =? 1).
  { destruct (utf8_decode _) as [message|]; [|done].
    destruct (handle_message _ _ _ _ _ _ _) as [s' evs].
    destruct (frame_loop _ _ _ fuel _ _ _) as [[s2 e2] x] eqn:E.
    injection Hrun as <- <- ->.
    rewrite (IH _ _ _ rest _ fuel' E Hlt'), Hfuel.
    destruct after as [[s3 e3] x3]. simpl. by rewrite app_assoc. }
  destruct (frame_loop _ _ _ fuel _ _ _) as [[s2 e2] x] eqn:E.
  injection Hrun as <- <- ->.
  rewrite (IH _ _ _ rest _ fuel' E Hlt'), Hfuel.
  by destruct after as [[s3 e3] x3].
Qed.

(** One read whose bytes, added to the buffer, are [before] followed by
    [rest], where the loop handles [before] completely and goes on. *)
Lemma on_data_app (s s1 : server) (ws : conn)
    (buffer data before rest : bytes) (evs1 : list event) :
  buffer ++ data = before ++ rest →
  frames (S (length before)) s ws before = (s1, evs1, NeedMore []) →
  on_data json_loads json_dumps write_raises s ws buffer data
  = let '(s2, evs2, x) := frames (S (length (before ++ rest))) s1 ws rest in
    (s2, evs1 ++ evs2, x).
Proof.
  intros Heq Hrun. unfold on_data. rewrite Heq.
  apply (frame_loop_app ws (S (length before))); [done|lia].
Qed.

Lemma before_keeps_connection (s s1 : server) (ws : conn) (before : bytes)
    (evs1 : list event) :
  is_Some (clients s !! ws) →
  frames (S (length before)) s ws before = (s1, evs1, NeedMore []) →
  is_Some (clients s1 !! ws) ∧ closes evs1 = []
  ∧ (reachable json_loads json_dumps write_raises s →
     reachable json_loads json_dumps write_raises s1).
Proof.
  intros Hreg Hrun.
  pose proof (frame_loop_registration (S (length before)) ws s before Hreg)
    as Hr.
  pose proof (frame_loop_reachable (S (length before)) ws s before) as Hre.
  rewrite Hrun in Hr, Hre. destruct Hr as [_ [? ?]].
  split; [done|]. split; [done|]. intros Hreach. by apply Hre.
Qed.

(** X17. A close frame from a registered connection ends the handler,
    wherever it stands in a read: after the frames before it have been
    handled, the connection is unregistered and its socket closed once,
    no frame is written in reply, and neither the bytes after the close
    frame nor any later read is looked at. *)
Theorem close_frame_ends_connection (s s1 : server) (ws : conn)
    (buffer data before rest : bytes) (evs1 : list event) (f : frame) :
  is_Some (clients s !! ws) → data ≠ [] →
  buffer ++ data = before ++ rest →
  frames (S (length before)) s ws before = (s1, evs1, NeedMore []) →
  parse rest = Some f → opcode f = 8 →
  ∃ s', unregister s1 ws = Some s'
    ∧ clients s' !! ws = None
    ∧ ∀ reads, serve s ws buffer (Data data :: reads)
               = (s', evs1 ++ [Parsed f; Closed ws; Printed LogDisconnected]).
Proof.
  intros Hreg Hd Heq Hrun Hp Hop.
  destruct (before_keeps_connection s s1 ws before evs1 Hreg Hrun)
    as ([info Hi] & _ & _).
  assert (unregister s1 ws
          = Some {| clients := delete ws (clients s1);
                    rooms := foldl (leave_room ws) (rooms s1)
                               (ci_rooms info) |}) as Hu.
  { unfold unregister. by rewrite Hi. }
  eexists. split; [exact Hu|]. split.
  { simpl. apply lookup_delete_eq. }
  intros reads. cbn [read_loop].
  rewrite bool_decide_eq_false_2 by done.
  rewrite (on_data_app s s1 ws buffer data before rest evs1 Heq Hrun).
  cbn [frame_loop].
  rewrite bool_decide_eq_false_2 by (by eapply parse_Some_nonempty).
  rewrite Hp, Hop. simpl (8 =? 8). cbv iota.
  unfold close_connection at 1. rewrite Hu.
  unfold teardown, close_connection, unregister. simpl.
  rewrite lookup_delete_eq. simpl. by rewrite app_nil_r.
Qed.

(** C10. A text frame whose payload is not valid UTF-8 is not skipped,
    wherever it stands in a read: after the frames before it have been
    handled, the decoding error leaves the read loop, whatever follows the
    frame is not looked at, and the connection is unregistered from the
    registry and from all its rooms and closed. *)
Theorem invalid_utf8_ends_connection (s s1 : server) (ws : conn)
    (buffer data before rest : bytes) (evs1 : list event) (f : frame) :
  is_Some (clients s !! ws) → data ≠ [] →
  buffer ++ data = before ++ rest →
  frames (S (length before)) s ws before = (s1, evs1, NeedMore []) →
  parse rest = Some f → opcode f = 1 →
  utf8_decode (payload f) = None →
  on_data json_loads json_dumps write_raises s ws buffer data
  = (s1, evs1 ++ [Parsed f], LoopRaised UnicodeError)
  ∧ ∃ s', unregister s1 ws = Some s'
      ∧ (∀ reads, serve s ws buffer (Data data :: reads)
                  = (s', evs1 ++ [Parsed f; Printed LogErrorHandlingClient;
                                  Closed ws; Printed LogDisconnected]))
      ∧ clients s' !! ws = None
      ∧ (reachable json_loads json_dumps write_raises s →
           consistent s' ∧ ∀ r m, rooms s' !! r = Some m → ws ∉ m).
Proof.
  intros Hreg Hne Heq Hrun Hp Hop Hdec.
  destruct (before_keeps_connection s s1 ws before evs1 Hreg Hrun)
    as ([info Hc] & _ & Hre).
  assert (on_data json_loads json_dumps write_raises s ws buffer data
          = (s1, evs1 ++ [Parsed f], LoopRaised UnicodeError)) as Hon.
  { rewrite (on_data_app s s1 ws buffer data before rest evs1 Heq Hrun).
    cbn [frame_loop].
    rewrite bool_decide_eq_false_2 by (by eapply parse_Some_nonempty).
    by rewrite Hp, Hop, Hdec. }
  split; [done|].
  destruct (unregister s1 ws) as [s'|] eqn:Hu.
  2:{ unfold unregister in Hu. by rewrite Hc in Hu. }
  exists s'. split; [done|]. split; [|split].
  - intros reads. cbn [read_loop].
    rewrite bool_decide_eq_false_2 by done. rewrite Hon.
    unfold teardown, close_connection. rewrite Hu.
    by rewrite <- app_assoc.
  - unfold unregister in Hu. rewrite Hc in Hu. injection Hu as <-.
    simpl. by rewrite lookup_delete_eq.
  - intros Hreach. specialize (Hre Hreach).
    pose proof (closed_absent_from_rooms json_loads json_dumps write_raises
                  s1 ws Hre) as Hrooms.
    rewrite close_connection_state, Hu in Hrooms. simpl in Hrooms.
    split.
    + apply (consistent_unregister s1 s' ws); [|done].
      by apply (reachable_consistent json_loads json_dumps write_raises).
    + intros r m Hr. by destruct (Hrooms r m Hr).
Qed.

End LoopFacts.

(** ** The handshake *)

Lemma utf8_encode_ascii (bs : bytes) :
  Forall (fun b => byte_val b < 128) bs →
  utf8_encode (byte_val <$> bs) = Some bs.
Proof.
  induction 1 as [|b bs Hb _ IH]; [done|].
  cbn [fmap list_fmap utf8_encode]. fold (byte_val <$> bs). rewrite IH.
  unfold utf8_encode_cp. pose proof (byte_val_range b).
  destruct (Z.ltb_spec (byte_val b) 0); [lia|].
  destruct (Z.ltb_spec (byte_val b) 128); [|lia].
  by rewrite byte_mod_byte_val.
Qed.

Lemma digest_length (msg : bytes) : length (SHA1.digest msg) = 20%nat.
Proof.
  unfold SHA1.digest.
  destruct (SHA1.blocks _ _ _) as [[[[h0 h1] h2] h3] h4].
  by rewrite !length_app, !be_digits_length.
Qed.

Lemma b64encode_20 (bs : bytes) :
  length bs = 20%nat →
  length (Base64.b64encode bs) = 28%nat
  ∧ last (Base64.b64encode bs) = Some x3d.
Proof.
  intros Hl. do 21 (destruct bs as [|? bs]; try done).
Qed.

Lemma lit_scalar (s : String.string) : Forall is_scalar (lit s).
Proof.
  unfold lit. apply Forall_fmap, Forall_forall. intros b _.
  pose proof (byte_val_range b). unfold compose, is_scalar. lia.
Qed.

Lemma accept_key_of_scalars (key : str) :
  Forall is_scalar key →
  ∃ b, utf8_encode (key ++ lit "258EAFA5-E914-47DA-95CA-C5AB0DC85B11")
       = Some b
    ∧ generate_accept_key key
      = Some (byte_val <$> Base64.b64encode (SHA1.digest b))
    ∧ generate_accept_key key ≫= utf8_encode
      = Some (Base64.b64encode (SHA1.digest b)).
Proof.
  intros Hk.
  destruct (proj2 (utf8_encode_is_Some
                     (key ++ lit "258EAFA5-E914-47DA-95CA-C5AB0DC85B11")))
    as [b Hb].
  { apply Forall_app. split; [done|apply lit_scalar]. }
  exists b. split; [done|].
  assert (generate_accept_key key
          = Some (byte_val <$> Base64.b64encode (SHA1.digest b))) as Hg.
  { unfold generate_accept_key. rewrite Hb. simpl.
    apply utf8_decode_ascii, b64encode_ascii. }
  split; [done|]. rewrite Hg. simpl.
  apply utf8_encode_ascii, b64encode_ascii.
Qed.

(** X20. [generate_accept_key] fails only on a key that cannot be encoded
    (one holding a surrogate); every other key, the empty one included,
    gives 28 ASCII characters ending in [=], which [encode()] turns into
    28 bytes. *)
Theorem accept_key_shape (key : str) :
  (is_Some (generate_accept_key key) ↔ Forall is_scalar key)
  ∧ ∀ k, generate_accept_key key = Some k →
      length k = 28%nat ∧ last k = Some 61
      ∧ Forall (fun c => 0 <= c < 128) k
      ∧ ∃ b, utf8_encode k = Some b ∧ length b = 28%nat.
Proof.
  split.
  - split.
    + intros [k Hk]. unfold generate_accept_key in Hk.
      destruct (utf8_encode _) as [b|] eqn:Hb; [|done].
      assert (Forall is_scalar
                (key ++ lit "258EAFA5-E914-47DA-95CA-C5AB0DC85B11")) as Hs
        by (apply utf8_encode_is_Some; by eexists).
      by apply Forall_app in Hs as [? _].
    + intros Hs. destruct (accept_key_of_scalars key Hs) as (b & _ & -> & _).
      by eexists.
  - intros k Hk.
    assert (Forall is_scalar key) as Hs.
    { unfold generate_accept_key in Hk.
      destruct (utf8_encode _) as [b|] eqn:Hb; [|done].
      assert (Forall is_scalar
                (key ++ lit "258EAFA5-E914-47DA-95CA-C5AB0DC85B11")) as Hs
        by (apply utf8_encode_is_Some; by eexists).
      by apply Forall_app in Hs as [? _]. }
    destruct (accept_key_of_scalars key Hs) as (b & _ & Hg & _).
    rewrite Hg in Hk. injection Hk as <-.
    destruct (b64encode_20 (SHA1.digest b) (digest_length b)) as [Hl Hlast].
    split; [by rewrite length_fmap|].
    split; [by rewrite fmap_last, Hlast|].
    split.
    { apply Forall_fmap. eapply Forall_impl; [apply b64encode_ascii|].
      intros x Hx. pose proof (byte_val_range x). unfold compose.
      simpl in Hx. lia. }
    exists (Base64.b64encode (SHA1.digest b)). split; [|done].
    apply utf8_encode_ascii, b64encode_ascii.
Qed.

Section HandshakeFacts.

Variable json_loads : str → loads_result.
Variable json_dumps : json → str.
Variable write_raises : conn → bool.
Variable str_strip : str → str.
Variable str_lower : str → str.

Local Abbreviation headers_of := (read_headers str_strip str_lower).
Local Abbreviation shake := (handshake write_raises str_strip str_lower).
Local Abbreviation client :=
  (handle_client json_loads json_dumps write_raises str_strip str_lower).

(** X21. The header loop is left only at a line that is exactly CR LF, or
    by an exception (a failed read, or a line with a colon that cannot be
    decoded or split). On any other input, in particular when the peer
    stops sending before the empty line, or ends its lines with a bare LF,
    the loop never ends: at the end of the stream [readline] keeps
    returning the empty byte string, which is not CR LF. *)
Theorem header_loop_ends_iff (lines : list read_result)
    (headers : gmap str str) :
  (∃ fuel, headers_of fuel lines headers ≠ HeadersOutOfFuel)
  ↔ Exists (fun l =>
              l = ReadRaised ∨ l = Data crlf
              ∨ ∃ d, l = Data d ∧ colon ∈ d
                  ∧ utf8_decode d ≫= (fun t => split_colon (str_strip t))
                    = None)
      lines.
Proof.
  split.
  - intros [fuel Hf]. revert lines headers Hf.
    induction fuel as [|fuel IH]; intros lines headers; [done|].
    cbn [read_headers]. destruct lines as [|[d|] rest]; cbn [readline tl].
    + rewrite bool_decide_eq_false_2 by done.
      rewrite bool_decide_eq_false_2 by apply not_elem_of_nil.
      intros Hf. by apply IH in Hf.
    + case_bool_decide as Hc; [subst; intros _; constructor; auto|].
      case_bool_decide as Hcol.
      * destruct (utf8_decode d) as [text|] eqn:Hd; simpl.
        2:{ intros _. constructor. right. right. exists d.
            by rewrite Hd. }
        destruct (split_colon (str_strip text)) as [[k v]|] eqn:Hs.
        2:{ intros _. constructor. right. right. exists d.
            by rewrite Hd. }
        intros Hf. apply Exists_cons_tl. by eapply IH.
      * intros Hf. apply Exists_cons_tl. by eapply IH.
    + intros _. constructor. by left.
  - intros Hex.
    assert (∃ fuel, ∀ headers,
              headers_of fuel lines headers ≠ HeadersOutOfFuel) as [fuel Hf];
      [|by exists fuel].
    clear headers.
    induction Hex as [l rest Hl|l rest Hex [fuel IH]].
    + exists 1%nat. intros headers. cbn [read_headers].
      destruct Hl as [->|[->|(d & -> & Hcol & Hd)]]; cbn [readline].
      * done.
      * by rewrite bool_decide_eq_true_2.
      * case_bool_decide; [done|].
        rewrite bool_decide_eq_true_2 by done.
        destruct (utf8_decode d) as [text|]; [|done]. simpl in Hd.
        by rewrite Hd.
    + exists (S fuel). intros headers. cbn [read_headers].
      destruct l as [d|]; cbn [readline tl]; [|done].
      case_bool_decide; [done|].
      case_bool_decide; [|apply IH].
      destruct (utf8_decode d) as [text|]; [|done].
      destruct (split_colon (str_strip text)) as [[k v]|]; [|done].
      apply IH.
Qed.

Lemma upgrade_events (ws : conn) (headers : gmap str str) :
  match upgrade write_raises str_lower ws headers with
  | (evs, Upgraded) =>
    ∃ response, evs = [Wrote ws response; Printed LogEstablished]
  | (evs, Rejected) => evs = [Closed ws]
  | (evs, HandshakeRaised) => closes evs = []
  | (evs, _) => False
  end.
Proof.
  unfold upgrade. case_bool_decide; [done|].
  destruct (_ ≫= _) as [accept|]; [|done].
  destruct (write_raises ws); [done|]. by eexists.
Qed.

Lemma handshake_events (fuel : nat) (ws : conn) (request_line : read_result)
    (lines : list read_result) :
  match shake fuel ws request_line lines with
  | (evs, Upgraded) =>
    ∃ response, evs = [Wrote ws response; Printed LogEstablished]
  | (evs, Rejected) => evs = [Closed ws]
  | (evs, HandshakeRaised) => closes evs = []
  | (evs, _) => evs = []
  end.
Proof.
  unfold handshake. destruct request_line as [line|]; [|done].
  case_bool_decide; [done|].
  destruct (read_headers _ _ _ _ _) as [headers| |]; try done.
  pose proof (upgrade_events ws headers) as Hu.
  by destruct (upgrade _ _ _ _) as [evs []].
Qed.

(** X22. What a finished [handle_client] has done, for a connection that
    was not registered before. An empty request line: nothing. No
    [Upgrade: websocket] header: the socket is closed, nothing else. An
    exception during the handshake: it is reported, and the socket is not
    closed. Otherwise the response was written first, and the socket has
    been closed exactly once at the end. In every case the connection is
    unregistered afterwards and no other record has changed; only after
    an upgrade can the registries differ at all. *)
Theorem handle_client_outcomes (fuel : nat) (s s' : server) (ws : conn)
    (request_line : read_result) (lines reads : list read_result)
    (evs : list event) :
  clients s !! ws = None →
  client fuel s ws request_line lines reads = Some (s', evs) →
  clients s' !! ws = None
  ∧ (∀ c, c ≠ ws → clients s' !! c = clients s !! c)
  ∧ match (shake fuel ws request_line lines).2 with
    | Upgraded =>
      closes evs = [ws]
      ∧ ∃ response rest,
          evs = Wrote ws response :: Printed LogEstablished :: rest
    | Rejected => s' = s ∧ evs = [Closed ws]
    | NoRequest => s' = s ∧ evs = []
    | HandshakeRaised =>
      s' = s ∧ closes evs = []
      ∧ last evs = Some (Printed LogErrorHandlingClient)
    | HandshakeOutOfFuel => False
    end.
Proof.
  intros Hn. unfold handle_client.
  pose proof (handshake_events fuel ws request_line lines) as He.
  destruct (handshake _ _ _ _ _ _) as [evs0 x]. cbn [snd].
  destruct x; try done.
  - intros [= <- <-]. done.
  - intros [= <- <-]. done.
  - destruct He as [response ->].
    assert (is_Some (clients (store_client s ws) !! ws)) as Hreg.
    { simpl. rewrite lookup_insert_eq. by eexists. }
    pose proof (read_loop_registration json_loads json_dumps write_raises
                  reads (store_client s ws) ws [] Hreg) as Hl.
    destruct (read_loop _ _ _ _ _ _ _) as [s2 evs2].
    destruct Hl as (Hn2 & Hc & Ho). intros [= <- <-].
    split; [done|]. split.
    { intros c Hne. rewrite Ho by done. simpl.
      by rewrite lookup_insert_ne. }
    split; [done|]. by eexists _, _.
  - intros [= <- <-]. split; [done|]. split; [done|]. split; [done|].
    split.
    + by rewrite closes_app, He.
    + apply last_snoc.
Qed.

(** X23. With an [Upgrade: websocket] header the handshake always
    answers: the key is not validated, and a missing key counts as the
    empty one. The response carries the 28 base64 bytes of the SHA-1
    digest of the key followed by the protocol constant. Only failing to
    write the response stops the upgrade. *)
Theorem upgrade_accepts_any_key (ws : conn) (headers : gmap str str) :
  str_lower (default [] (headers !! lit "upgrade")) = lit "websocket" →
  Forall is_scalar (default [] (headers !! lit "sec-websocket-key")) →
  ∃ b accept,
    utf8_encode (default [] (headers !! lit "sec-websocket-key")
                 ++ lit "258EAFA5-E914-47DA-95CA-C5AB0DC85B11") = Some b
    ∧ accept = Base64.b64encode (SHA1.digest b)
    ∧ length accept = 28%nat
    ∧ upgrade write_raises str_lower ws headers
      = if write_raises ws
        then ([Wrote ws (switching_protocols accept)], HandshakeRaised)
        else ([Wrote ws (switching_protocols accept);
               Printed LogEstablished], Upgraded).
Proof.
  intros Hu Hk.
  destruct (accept_key_of_scalars _ Hk) as (b & Hb & _ & Hg).
  exists b, (Base64.b64encode (SHA1.digest b)).
  split; [done|]. split; [done|].
  split. { apply b64encode_20, digest_length. }
  unfold upgrade. rewrite bool_decide_eq_false_2 by (by intros H; apply H).
  by rewrite Hg.
Qed.

End HandshakeFacts.

(** ** A member leaving during a broadcast *)

Section BroadcastFacts.

Variable json_dumps : json → str.
Variable write_raises : conn → bool.

Lemma set_discard_shorter (d : conn) (m : list conn) :
  d ∈ m → (length (set_discard d m) < length m)%nat.
Proof.
  unfold set_discard. induction m as [|x m IH]; [by intros ?%not_elem_of_nil|].
  rewrite filter_cons. intros [->|Hin]%elem_of_cons.
  - rewrite decide_False by (intros H; by apply H). simpl.
    pose proof (length_filter (fun y => y ≠ x) m). lia.
  - specialize (IH Hin). destruct (decide (x ≠ d)); simpl; lia.
Qed.

(** X24. The iteration of [broadcast_to_room] over the live set also
    breaks when a member leaves: if any member of the room is closed while
    the first send is awaited, the set has shrunk (or the room is gone),
    the next step of the loop raises [RuntimeError], and the members after
    the first recipient are left out. *)
Theorem close_during_send_aborts_broadcast (json_loads : str → loads_result)
    (s : server) (room_id : pykey) (data : json) (exclude : option conn)
    (frame : bytes) (pre post : list conn) (b d : conn) :
  reachable json_loads json_dumps write_raises s →
  rooms s !! room_id = Some (pre ++ b :: post) →
  Forall (fun c => Some c = exclude ∨ clients s !! c = None) pre →
  Some b ≠ exclude → is_Some (clients s !! b) → write_raises b = false →
  d ∈ pre ++ b :: post →
  build (Str (json_dumps data)) 1 = Some frame →
  broadcast_to_room json_dumps write_raises [[AClose d]] s room_id
    data exclude
  = ((close_connection s d).1, [Wrote b frame], Raised RuntimeError).
Proof.
  intros Hreach Hm Hpre Hb Hreg Hw Hd Hf.
  destruct (reachable_consistent _ _ _ s Hreach) as [_ Hmem _].
  destruct (Hmem _ _ _ Hm Hd) as (info & Hi & Hr).
  unfold broadcast_to_room. rewrite Hm, Hf.
  replace (S (length (pre ++ b :: post)))
    with (length pre + S (S (length post)))%nat
    by (rewrite length_app; simpl; lia).
  rewrite (broadcast_loop_skip write_raises _ _ _ _ _ _ _ pre (b :: post)
             Hm eq_refl Hpre).
  cbn [broadcast_loop]. unfold set_iter_next, iter_target.
  cbn [si_live si_used si_pos]. rewrite Hm. cbn [default from_option id].
  rewrite bool_decide_eq_false_2 by (intros E; by apply E).
  rewrite list_lookup_middle by done.
  rewrite !bool_decide_eq_true_2 by done. cbn [andb]. rewrite Hw.
  cbn [hd tl interfere apply_action broadcast_loop].
  rewrite close_connection_state.
  unfold set_iter_next, iter_target. cbn [si_live si_used si_pos andb].
  assert (rooms (default s (unregister s d)) !! room_id
          = if bool_decide (set_discard d (pre ++ b :: post) = [])
            then None else Some (set_discard d (pre ++ b :: post))) as Hr'.
  { unfold unregister. rewrite Hi. simpl.
    by rewrite leave_rooms_lookup, decide_True, Hm. }
  rewrite Hr'.
  pose proof (set_discard_shorter d _ Hd) as Hlt.
  case_bool_decide as He.
  - rewrite (bool_decide_eq_false_2 (is_Some _)) by (by intros [? ?]).
    rewrite bool_decide_eq_true_2; [done|].
    simpl. rewrite length_app. simpl. lia.
  - rewrite (bool_decide_eq_true_2 (is_Some _)) by (by eexists).
    cbn [default from_option id].
    rewrite bool_decide_eq_true_2; [done|]. lia.
Qed.

End BroadcastFacts.

(** ** The properties at work on concrete inputs *)

Import Samples.

Lemma parse_reads_one_frame_witness :
  2 <= 7 <= len hello_frame
  ∧ parse (take (Z.to_nat 7) hello_frame ++ [x89; x00]%byte)
    = Some {| fin := 1; opcode := 1; payload := hello; frame_length := 7 |}
  ∧ slice_from 7 (take (Z.to_nat 7) hello_frame ++ [x89; x00]%byte)
    = [x89; x00]%byte.
Proof.
  apply (parse_reads_one_frame hello_frame [x89; x00]%byte
           {| fin := 1; opcode := 1; payload := hello; frame_length := 7 |}).
  by vm_compute.
Defined.

Lemma parse_result_ranges_witness :
  (1 = 0 ∨ 1 = 1)
  ∧ 0 <= 1 < 16
  ∧ ∃ header mask,
      11 = header + mask + len hello
      ∧ (header = 2 ∨ header = 4 ∨ header = 10) ∧ (mask = 0 ∨ mask = 4).
Proof.
  apply (parse_result_ranges hello_masked
           {| fin := 1; opcode := 1; payload := hello; frame_length := 11 |}).
  by vm_compute.
Defined.

Lemma parse_ignores_reserved_bits_witness :
  parse (xf1 :: tl hello_frame) = parse (x81 :: tl hello_frame).
Proof.
  apply (parse_ignores_reserved_bits xf1 x81 (tl hello_frame)).
  by vm_compute.
Defined.

Lemma masked_frame_round_trip_witness :
  parse (x81 :: x85 :: [] ++ hello_key ++ unmask hello_key hello)
  = Some {| fin := Z.shiftr (Z.land (byte_val x81) 128) 7;
            opcode := Z.land (byte_val x81) 15;
            payload := hello;
            frame_length := 2 + len (@nil byte) + 4 + len hello |}.
Proof.
  apply (masked_frame_round_trip x81 x85 [] hello_key hello).
  - by vm_compute.
  - reflexivity.
  - left. by vm_compute.
Defined.

Lemma build_layout_witness :
  ∃ b0 b1 ext,
    hello_frame = b0 :: b1 :: ext ++ hello
    ∧ byte_val b0 = Z.lor 128 1
    ∧ Z.land (byte_val b1) 128 = 0
    ∧ announces b1 ext (len hello)
    ∧ len hello_frame - len hello
      = (if len hello <? 126 then 2
         else if len hello <? 65536 then 4 else 10).
Proof.
  apply (build_layout hello hello_frame 1). by vm_compute.
Defined.

Lemma build_parse_any_opcode_witness :
  parse ([x9a; x02; x68; x69]%byte ++ hello_frame)
  = Some {| fin := 1; opcode := 26 mod 16; payload := [x68; x69]%byte;
            frame_length := len [x9a; x02; x68; x69]%byte |}
  ∧ slice_from (len [x9a; x02; x68; x69]%byte)
      ([x9a; x02; x68; x69]%byte ++ hello_frame) = hello_frame.
Proof.
  apply (build_parse_any_opcode [x68; x69]%byte [x9a; x02; x68; x69]%byte
           hello_frame 26).
  by vm_compute.
Defined.


Lemma join_by_unregistered_connection_witness :
  ∃ s', handle_message demo_loads demo_dumps never_raises [] accepted
          9%nat join_r = (s', [Printed LogErrorHandlingMessage])
    ∧ clients s' = clients accepted
    ∧ (∃ members, rooms s' !! room_r = Some members ∧ 9%nat ∈ members)
    ∧ ¬ members_registered s'.
Proof.
  assert (demo_loads join_r = Loaded join_data) as H1 by (by vm_compute).
  assert (dict_get join_data (lit "type") = Some (Some (JStr (lit "join"))))
    as H2 by (by vm_compute).
  assert (is_str (Some (JStr (lit "join"))) (lit "join") = true) as H3
    by (by vm_compute).
  assert (stated_room join_data = Some room_r) as H4 by (by vm_compute).
  assert (clients accepted !! 9%nat = None) as H5 by (by vm_compute).
  exact (join_by_unregistered_connection demo_loads demo_dumps never_raises
           [] accepted 9%nat join_r join_data (Some (JStr (lit "join")))
           room_r H1 H2 H3 H4 H5).
Defined.

Lemma sender_gets_no_echo_witness :
  1%nat ∉ recipients
            (handle_message demo_loads demo_dumps never_raises
               [[AJoin 4 room_r]] joined3 1%nat offer).2.
Proof.
  apply (sender_gets_no_echo demo_loads demo_dumps never_raises
           [[AJoin 4 room_r]] joined3 1%nat offer).
  intros data t Hl. assert (demo_loads offer = Loaded offer_data) as Ho
    by (by vm_compute).
  rewrite Ho in Hl. injection Hl as <-.
  assert (dict_get offer_data (lit "type") = Some (Some (JStr (lit "offer"))))
    as -> by (by vm_compute).
  intros [= <-]. by vm_compute.
Defined.

Lemma unregistered_connection_receives_nothing_witness :
  9%nat ∉ recipients
            (handle_message demo_loads demo_dumps never_raises
               [[AJoin 9 room_r]] joined3 1%nat offer).2.
Proof.
  apply (unregistered_connection_receives_nothing demo_loads demo_dumps
           never_raises [[AJoin 9 room_r]] joined3 9%nat 1%nat offer).
  - by vm_compute.
  - repeat constructor. done.
Defined.

Lemma router_writes_text_frames_witness :
  ∃ v p, utf8_encode (demo_dumps v) = Some p
    ∧ parse offer_frame = Some {| fin := 1; opcode := 1; payload := p;
                                  frame_length := len offer_frame |}.
Proof.
  apply (router_writes_text_frames demo_loads demo_dumps never_raises
           [] joined3 1%nat offer 2%nat offer_frame).
  assert (writes (handle_message demo_loads demo_dumps never_raises []
                    joined3 1%nat offer).2
          = [(2%nat, offer_frame); (3%nat, offer_frame)]) as ->
    by (by vm_compute).
  apply elem_of_cons. by left.
Defined.

Lemma accept_join_close_restores_witness :
  fst (close_connection
         (fst (handle_message demo_loads demo_dumps never_raises []
                 (store_client joined3 5%nat) 5%nat join_r)) 5%nat)
  = joined3.
Proof.
  assert (reachable demo_loads demo_dumps never_raises joined3) as H0
    by reach.
  assert (clients joined3 !! 5%nat = None) as H5 by (by vm_compute).
  assert (demo_loads join_r = Loaded join_data) as H1 by (by vm_compute).
  assert (dict_get join_data (lit "type") = Some (Some (JStr (lit "join"))))
    as H2 by (by vm_compute).
  assert (is_str (Some (JStr (lit "join"))) (lit "join") = true) as H3
    by (by vm_compute).
  assert (stated_room join_data = Some room_r) as H4 by (by vm_compute).
  exact (accept_join_close_restores demo_loads demo_dumps never_raises
           [] joined3 5%nat join_r join_data (Some (JStr (lit "join")))
           room_r H0 H5 H1 H2 H3 H4).
Defined.

Lemma close_during_send_aborts_broadcast_witness :
  broadcast_to_room demo_dumps never_raises [[AClose 3]] joined3 room_r
    offer_data (Some 1%nat)
  = ((close_connection joined3 3%nat).1, [Wrote 2%nat offer_frame],
     Raised RuntimeError).
Proof.
  assert (reachable demo_loads demo_dumps never_raises joined3) as H0
    by reach.
  assert (rooms joined3 !! room_r = Some ([1%nat] ++ 2%nat :: [3%nat])) as H1
    by (by vm_compute).
  assert (Forall (fun c => Some c = Some 1%nat ∨ clients joined3 !! c = None)
            [1%nat]) as H2 by (repeat constructor).
  assert (Some 2%nat ≠ Some 1%nat) as H3 by done.
  assert (is_Some (clients joined3 !! 2%nat)) as H4
    by (vm_compute; by eexists).
  assert (3%nat ∈ [1%nat] ++ 2%nat :: [3%nat]) as H6
    by (simpl; rewrite !elem_of_cons; auto).
  assert (build (Str (demo_dumps offer_data)) 1 = Some offer_frame) as H7
    by (by vm_compute).
  exact (close_during_send_aborts_broadcast demo_dumps never_raises
           demo_loads joined3 room_r offer_data (Some 1%nat) offer_frame
           [1%nat] [3%nat] 2%nat 3%nat H0 H1 H2 H3 H4 eq_refl H6 H7).
Defined.

Lemma relay_unless_interrupted_witness :
  ∃ frame,
    build (Str (demo_dumps offer_data)) 1 = Some frame
    ∧ (∃ evs, handle_message demo_loads demo_dumps never_raises [] joined3
                1%nat offer = (joined3, evs)
         ∧ writes evs
           ≡ₚ (fun c => (c, frame))
                <$> filter (fun c => c ≠ 1%nat) [1; 2; 3]%nat)
    ∧ handle_message demo_loads demo_dumps never_raises [[AJoin 4 room_r]]
        joined3 1%nat offer
      = ((join_room joined3 room_r 4%nat).1,
         [Wrote 2%nat frame; Printed LogErrorHandlingMessage])
    ∧ (∃ m, rooms (join_room joined3 room_r 4%nat).1 !! room_r = Some m
         ∧ 3%nat ∈ m)
    ∧ is_Some (clients (join_room joined3 room_r 4%nat).1 !! 3%nat)
    ∧ 3%nat ∉ recipients
                (handle_message demo_loads demo_dumps never_raises
                   [[AJoin 4 room_r]] joined3 1%nat offer).2.
Proof.
  assert (reachable demo_loads demo_dumps never_raises joined3) as H0
    by reach.
  assert (demo_loads offer = Loaded offer_data) as H1 by (by vm_compute).
  assert (dict_get offer_data (lit "type")
          = Some (Some (JStr (lit "offer")))) as H2 by (by vm_compute).
  assert (is_relay (Some (JStr (lit "offer"))) = true) as H3
    by (by vm_compute).
  assert (Forall is_scalar (demo_dumps offer_data)) as H4
    by (apply ascii_is_scalar; by vm_compute).
  assert (4 * len (demo_dumps offer_data) < 2 ^ 64) as H5
    by (by vm_compute).
  assert (stated_room offer_data = Some room_r) as H6 by (by vm_compute).
  assert (rooms joined3 !! room_r = Some [1; 2; 3]%nat) as H7
    by (by vm_compute).
  destruct (relay_reaches_room_unless_interrupted demo_loads demo_dumps
              never_raises joined3 1%nat offer offer_data
              (Some (JStr (lit "offer"))) H0 H1 H2 H3 H4 H5)
    as (payload & frame & _ & Hb & _ & _ & _ & Hroom).
  destruct (Hroom room_r [1; 2; 3]%nat H6 H7) as [Hquiet Hraced].
  assert (Forall (fun c => c = 1%nat) [1%nat]) as H8
    by (by repeat constructor).
  assert (2%nat ≠ 1%nat) as H9 by done.
  assert (4%nat ∉ [1; 2; 3]%nat) as H10
    by (rewrite !not_elem_of_cons; split_and!; try done;
        apply not_elem_of_nil).
  destruct (Hraced [1%nat] 2%nat [3%nat] 4%nat eq_refl H8 H9 eq_refl H10)
    as [Hrun Hleft].
  assert (3%nat ∈ [3%nat]) as H11 by (apply elem_of_cons; by left).
  assert (3%nat ≠ 1%nat) as H12 by done.
  destruct (Hleft 3%nat H11 H12) as (Hm & Hreg & Hnot).
  exists frame. split; [exact Hb|]. split; [exact Hquiet|].
  split; [exact Hrun|]. split; [exact Hm|]. split; [exact Hreg|exact Hnot].
Defined.

Lemma ping_is_answered_with_pong_witness :
  ∃ pong, build (Bytes [x68; x69]%byte) 10 = Some pong
    ∧ parse pong = Some {| fin := 1; opcode := 10;
                           payload := [x68; x69]%byte;
                           frame_length := len pong |}
    ∧ ∀ fuel s ws,
        frame_loop demo_loads demo_dumps never_raises (S fuel) s ws
          ping_frame
        = if never_raises ws
          then (s, [Parsed {| fin := 1; opcode := 9;
                              payload := [x68; x69]%byte;
                              frame_length := 4 |};
                    Wrote ws pong], LoopRaised ConnectionError)
          else let '(s2, evs2, x) :=
                 frame_loop demo_loads demo_dumps never_raises fuel s ws
                   (slice_from 4 ping_frame) in
               (s2, Parsed {| fin := 1; opcode := 9;
                              payload := [x68; x69]%byte;
                              frame_length := 4 |}
                    :: Wrote ws pong :: evs2, x).
Proof.
  assert (parse ping_frame
          = Some {| fin := 1; opcode := 9; payload := [x68; x69]%byte;
                    frame_length := 4 |}) as H1 by (by vm_compute).
  exact (ping_is_answered_with_pong demo_loads demo_dumps never_raises
           ping_frame _ H1 eq_refl).
Defined.

Lemma close_frame_ends_connection_witness :
  ∃ s', unregister joined3 1%nat = Some s'
    ∧ clients s' !! 1%nat = None
    ∧ ∀ reads, read_loop demo_loads demo_dumps never_raises joined3 1%nat []
                 (Data ping_close_more :: reads)
               = (s', [Parsed {| fin := 1; opcode := 9;
                                 payload := [x68; x69]%byte;
                                 frame_length := 4 |};
                       Wrote 1%nat pong_frame]
                      ++ [Parsed {| fin := 1; opcode := 8; payload := [];
                                    frame_length := 2 |};
                          Closed 1%nat; Printed LogDisconnected]).
Proof.
  assert (is_Some (clients joined3 !! 1%nat)) as H1
    by (vm_compute; by eexists).
  assert (ping_close_more ≠ []) as H2 by done.
  assert ([] ++ ping_close_more = ping_frame ++ close_then_more) as H3
    by reflexivity.
  assert (frame_loop demo_loads demo_dumps never_raises
            (S (length ping_frame)) joined3 1%nat ping_frame
          = (joined3,
             [Parsed {| fin := 1; opcode := 9; payload := [x68; x69]%byte;
                        frame_length := 4 |};
              Wrote 1%nat pong_frame], NeedMore [])) as H4
    by (by vm_compute).
  assert (parse close_then_more
          = Some {| fin := 1; opcode := 8; payload := [];
                    frame_length := 2 |}) as H5 by (by vm_compute).
  exact (close_frame_ends_connection demo_loads demo_dumps never_raises
           joined3 joined3 1%nat [] ping_close_more ping_frame
           close_then_more _ _ H1 H2 H3 H4 H5 eq_refl).
Defined.

Lemma invalid_utf8_witness :
  on_data demo_loads demo_dumps never_raises joined2 3%nat [] ping_bad_join
  = (joined2,
     [Parsed {| fin := 1; opcode := 9; payload := [x68; x69]%byte;
                frame_length := 4 |};
      Wrote 3%nat pong_frame]
     ++ [Parsed {| fin := 1; opcode := 1; payload := [xff]%byte;
                   frame_length := 3 |}],
     LoopRaised UnicodeError)
  ∧ ∃ s', unregister joined2 3%nat = Some s'
      ∧ (∀ reads,
           read_loop demo_loads demo_dumps never_raises joined2 3%nat []
             (Data ping_bad_join :: reads)
           = (s', [Parsed {| fin := 1; opcode := 9;
                             payload := [x68; x69]%byte;
                             frame_length := 4 |};
                   Wrote 3%nat pong_frame]
                  ++ [Parsed {| fin := 1; opcode := 1; payload := [xff]%byte;
                                frame_length := 3 |};
                      Printed LogErrorHandlingClient; Closed 3%nat;
                      Printed LogDisconnected]))
      ∧ clients s' !! 3%nat = None
      ∧ consistent s'
      ∧ ∀ r m, rooms s' !! r = Some m → 3%nat ∉ m.
Proof.
  assert (is_Some (clients joined2 !! 3%nat)) as H1
    by (vm_compute; by eexists).
  assert (ping_bad_join ≠ []) as H2 by done.
  assert ([] ++ ping_bad_join
          = ping_frame ++ ([x81; x01; xff]%byte ++ join_frame)) as H3
    by reflexivity.
  assert (frame_loop demo_loads demo_dumps never_raises
            (S (length ping_frame)) joined2 3%nat ping_frame
          = (joined2,
             [Parsed {| fin := 1; opcode := 9; payload := [x68; x69]%byte;
                        frame_length := 4 |};
              Wrote 3%nat pong_frame], NeedMore [])) as H4
    by (by vm_compute).
  assert (parse ([x81; x01; xff]%byte ++ join_frame)
          = Some {| fin := 1; opcode := 1; payload := [xff]%byte;
                    frame_length := 3 |}) as H5 by (by vm_compute).
  assert (utf8_decode [xff]%byte = None) as H6 by (by vm_compute).
  assert (reachable demo_loads demo_dumps never_raises joined2) as H7
    by reach.
  destruct (invalid_utf8_ends_connection demo_loads demo_dumps never_raises
              joined2 joined2 3%nat [] ping_bad_join ping_frame
              ([x81; x01; xff]%byte ++ join_frame) _ _ H1 H2 H3 H4 H5
              eq_refl H6)
    as (R1 & s' & R2 & R3 & R4 & R5).
  destruct (R5 H7) as [R6 R7].
  split; [exact R1|]. exists s'.
  split; [exact R2|]. split; [exact R3|]. split; [exact R4|].
  split; [exact R6|exact R7].
Defined.

Lemma unhandled_frames_change_nothing_witness :
  ∃ evs rest,
    frame_loop demo_loads demo_dumps never_raises 6 joined3 1%nat
      binary_then_pong = (joined3, evs, NeedMore rest)
    ∧ writes evs = [] ∧ closes evs = []
    ∧ (rest = [] ∨ parse rest = None).
Proof.
  assert (length binary_then_pong < 6)%nat as H1 by (simpl; lia).
  assert (Forall (fun f => is_handled (opcode f) = false)
            (parsed (frame_loop demo_loads demo_dumps never_raises 6 joined3
                       1%nat binary_then_pong).1.2)) as H2.
  { assert (parsed (frame_loop demo_loads demo_dumps never_raises 6 joined3
                      1%nat binary_then_pong).1.2
            = [{| fin := 1; opcode := 2; payload := [x00]%byte;
                  frame_length := 3 |};
               {| fin := 1; opcode := 10; payload := [];
                  frame_length := 2 |}]) as -> by (by vm_compute).
    by repeat constructor. }
  exact (unhandled_frames_change_nothing demo_loads demo_dumps never_raises
           6 joined3 1%nat binary_then_pong H1 H2).
Defined.

Lemma connection_closed_exactly_once_witness :
  clients (read_loop demo_loads demo_dumps never_raises joined3 1%nat []
             [Data hello_frame; Data ping_frame]).1 !! 1%nat = None
  ∧ closes (read_loop demo_loads demo_dumps never_raises joined3 1%nat []
              [Data hello_frame; Data ping_frame]).2 = [1%nat]
  ∧ (∀ c, c ≠ 1%nat →
       clients (read_loop demo_loads demo_dumps never_raises joined3 1%nat []
                  [Data hello_frame; Data ping_frame]).1 !! c
       = clients joined3 !! c)
  ∧ (reachable demo_loads demo_dumps never_raises joined3 →
     ∀ r m, rooms (read_loop demo_loads demo_dumps never_raises joined3
                     1%nat [] [Data hello_frame; Data ping_frame]).1 !! r
            = Some m → 1%nat ∉ m).
Proof.
  assert (is_Some (clients joined3 !! 1%nat)) as H1
    by (vm_compute; by eexists).
  exact (connection_closed_exactly_once demo_loads demo_dumps never_raises
           [Data hello_frame; Data ping_frame] joined3 1%nat [] H1).
Defined.

Lemma handle_client_outcomes_witness :
  handle_client demo_loads demo_dumps never_raises AsciiText.strip
    AsciiText.lower 10 joined3 4%nat get_line upgrade_request
    [Data close_then_more] = Some (joined3, upgrade_trace)
  ∧ clients joined3 !! 4%nat = None
  ∧ closes upgrade_trace = [4%nat]
  ∧ ∃ response rest,
      upgrade_trace = Wrote 4%nat response :: Printed LogEstablished :: rest.
Proof.
  assert (clients joined3 !! 4%nat = None) as H1 by (by vm_compute).
  assert (handle_client demo_loads demo_dumps never_raises AsciiText.strip
            AsciiText.lower 10 joined3 4%nat get_line upgrade_request
            [Data close_then_more] = Some (joined3, upgrade_trace)) as H2
    by (by vm_compute).
  pose proof (handle_client_outcomes demo_loads demo_dumps never_raises
                AsciiText.strip AsciiText.lower 10 joined3 joined3 4%nat
                get_line upgrade_request [Data close_then_more]
                upgrade_trace H1 H2) as (Ha & _ & Hc).
  assert ((handshake never_raises AsciiText.strip AsciiText.lower 10 4%nat
             get_line upgrade_request).2 = Upgraded) as E by (by vm_compute).
  rewrite E in Hc. destruct Hc as [Hc1 Hc2].
  split; [exact H2|]. split; [exact Ha|]. split; [exact Hc1|exact Hc2].
Defined.

Lemma upgrade_accepts_any_key_witness :
  ∃ b accept,
    utf8_encode (default [] (upgrade_headers !! lit "sec-websocket-key")
                 ++ lit "258EAFA5-E914-47DA-95CA-C5AB0DC85B11") = Some b
    ∧ accept = Base64.b64encode (SHA1.digest b)
    ∧ length accept = 28%nat
    ∧ upgrade never_raises AsciiText.lower 7%nat upgrade_headers
      = if never_raises 7%nat
        then ([Wrote 7%nat (switching_protocols accept)], HandshakeRaised)
        else ([Wrote 7%nat (switching_protocols accept);
               Printed LogEstablished], Upgraded).
Proof.
  assert (AsciiText.lower (default [] (upgrade_headers !! lit "upgrade"))
          = lit "websocket") as H1 by (by vm_compute).
  assert (Forall is_scalar
            (default [] (upgrade_headers !! lit "sec-websocket-key"))) as H2.
  { assert (default [] (upgrade_headers !! lit "sec-websocket-key") = [])
      as -> by (by vm_compute). constructor. }
  exact (upgrade_accepts_any_key never_raises AsciiText.lower 7%nat
           upgrade_headers H1 H2).
Defined.
